(** * Noble Chain wallet: a shallow embedding of the ledger engine

    The JavaScript class [NobleChain] keeps users, wallets, the transaction
    history and (through [localStorage]) the transfer-PIN records.  This file
    embeds the wallet operations, the transfer-PIN system and the helpers they
    call as state-passing functions over a record [State], and proves the
    properties of the ledger against that embedding.

    Conventions of the embedding.
    - A JS number is a binary64 value: Rocq's primitive [float], whose
      operations round to nearest, ties to even, overflow to an infinity and
      produce [NaN] as IEEE 754 and JS do.  [x < y] is [ltb], [x === y] is
      [eqb] (so [NaN] differs from itself and the two zeros are equal).  A
      numeric property that is read on an object of the ledger is always
      present, so no number is [undefined].
    - A JS string is a [string] of 8-bit characters, the strings on which
      [btoa] is defined.
    - A JS object used as a dictionary is a [gmap string _] of its own
      properties.  [this.wallets] and [wallet.assets] are plain objects, so a
      lookup under a key that names a property of [Object.prototype]
      ([inherited_key]) and is not an own property finds a built-in object:
      it is truthy, it has no [assets], and its other properties are outside
      the state kept here.
    - A method is a function [State -> State * result A] with three
      outcomes: it returns ([Ok]), it throws ([Throw]), or it reads or writes
      a property of a built-in object ([Escapes]), where the embedding
      stops.  The state that comes back with [Throw] or [Escapes] is the
      state at that moment, so a mutation made before stays visible.
    - The PIN records are those of [noblechain_pins], keyed by the user ids
      that [signup] generates.
    - [Date.now()] reads the field [clock]; [Math.random()] is the counter
      [entropy], advanced by every [generateId].
    - [saveUsers], [saveWallets], [saveTransactions] (not part of the listed
      source) persist the in-memory collections; the embedding has a single
      copy of each collection, so they are the identity. *)

From Stdlib Require Import Ascii String NArith ZArith Floats Lia.
From stdpp Require Import gmap strings list fin_maps pretty.

Local Open Scope string_scope.
Local Open Scope list_scope.

(** ** JS numbers *)

Definition num : Type := float.

Module Num.

Definition zero : num := 0%float.

(** The double nearest to an integer. *)
Definition of_Z (z : Z) : num :=
  SF2Prim (binary_normalize prec emax z 0 false).

Definition add (x y : num) : num := (x + y)%float.
Definition sub (x y : num) : num := (x - y)%float.
Definition mul (x y : num) : num := (x * y)%float.
Definition div (x y : num) : num := (x / y)%float.

(** [x < y]; false as soon as one side is [NaN]. *)
Definition lt (x y : num) : bool := (x <? y)%float.

(** [x === y] on numbers. *)
Definition strict_eq (x y : num) : bool := (x =? y)%float.

(** Truthiness: the zeros and [NaN] are falsy. *)
Definition truthy (x : num) : bool :=
  negb (x =? 0)%float && negb (is_nan x).

(** Not negative: [x < 0] is false, which holds of [NaN] too. *)
Definition not_negative (x : num) : Prop := (x <? 0)%float = false.

(** [0 <= x]: not negative and not [NaN]. *)
Definition ge0 (x : num) : Prop := (0 <=? x)%float = true.

(** [0 < x]. *)
Definition positive (x : num) : Prop := (0 <? x)%float = true.

(** A finite amount that is not negative. *)
Definition amount_ok (x : num) : Prop :=
  (0 <=? x)%float = true ∧ (x <? infinity)%float = true.

End Num.

Declare Scope num_scope.
Delimit Scope num_scope with num.
Bind Scope num_scope with num.
Infix "+" := Num.add : num_scope.
Infix "-" := Num.sub : num_scope.
Infix "*" := Num.mul : num_scope.
Infix "/" := Num.div : num_scope.
Infix "<?" := Num.lt : num_scope.
Infix "===" := Num.strict_eq (at level 70) : num_scope.
Notation "0" := Num.zero : num_scope.

(** [a || b] on two possibly absent numbers, and the final [|| 0]. *)
Definition num_or (a b : option num) : option num :=
  match a with
  | Some x => if Num.truthy x then a else b
  | None => b
  end.

Definition num_or0 (a : option num) : num :=
  match a with
  | Some x => if Num.truthy x then x else Num.zero
  | None => Num.zero
  end.

(** ** Classes of binary64 values *)

(** The classes of the values of the format that the sign lemmas speak of.
    [sf_signed s f]: [f] is a number whose sign bit is [s]. *)
Definition sf_signed (s : bool) (f : spec_float) : Prop :=
  match f with
  | S754_nan => False
  | S754_zero s' | S754_infinity s' | S754_finite s' _ _ => s' = s
  end.

(** [sf_nonzero s f]: moreover [f] is not a zero. *)
Definition sf_nonzero (s : bool) (f : spec_float) : Prop :=
  match f with
  | S754_infinity s' | S754_finite s' _ _ => s' = s
  | _ => False
  end.

(** Not negative; not negative and a number; strictly positive; finite and
    not negative; a zero. *)
Definition sf_nn (f : spec_float) : bool :=
  match f with
  | S754_nan | S754_zero _ => true
  | S754_infinity s | S754_finite s _ _ => negb s
  end.

Definition sf_ge0 (f : spec_float) : bool :=
  match f with
  | S754_nan => false
  | S754_zero _ => true
  | S754_infinity s | S754_finite s _ _ => negb s
  end.

Definition sf_pos (f : spec_float) : bool :=
  match f with
  | S754_infinity s | S754_finite s _ _ => negb s
  | _ => false
  end.

Definition sf_amount (f : spec_float) : bool :=
  match f with
  | S754_zero _ => true
  | S754_finite s _ _ => negb s
  | _ => false
  end.

Definition sf_zero (f : spec_float) : bool :=
  match f with
  | S754_zero _ => true
  | _ => false
  end.

(** Not negative, with a sign bit that is clear. *)
Definition sf_plus (f : spec_float) : bool :=
  match f with
  | S754_nan => true
  | S754_zero s | S754_infinity s | S754_finite s _ _ => negb s
  end.

(** ** JS strings *)

(** Truthiness of a possibly absent string: [null], [undefined] and the empty
    string are falsy. *)
Definition truthy_str (o : option string) : bool :=
  match o with
  | Some s => negb (String.eqb s "")
  | None => false
  end.

(** ** [hashPassword]: [btoa(password)] reversed *)

Definition b64_alphabet : string :=
  "ABCDEFGHIJKLMNOPQRSTUVWXYZabcdefghijklmnopqrstuvwxyz0123456789+/".

Definition b64_char (n : N) : ascii :=
  match String.get (N.to_nat n) b64_alphabet with
  | Some c => c
  | None => "="%char
  end.

Local Open Scope N_scope.

Fixpoint btoa_bytes (l : list N) : list ascii :=
  match l with
  | [] => []
  | [a] =>
      let n := a * 65536 in
      [b64_char (n / 262144); b64_char ((n / 4096) mod 64); "="%char; "="%char]
  | [a; b] =>
      let n := a * 65536 + b * 256 in
      [b64_char (n / 262144); b64_char ((n / 4096) mod 64);
       b64_char ((n / 64) mod 64); "="%char]
  | a :: b :: c :: r =>
      let n := a * 65536 + b * 256 + c in
      [b64_char (n / 262144); b64_char ((n / 4096) mod 64);
       b64_char ((n / 64) mod 64); b64_char (n mod 64)] ++ btoa_bytes r
  end.

Local Close Scope N_scope.

(** The character codes of a string: numbers below 256. *)
Definition is_bytes (l : list N) : Prop := Forall (λ b, (b < 256)%N) l.

Definition btoa (s : string) : string :=
  string_of_list_ascii (btoa_bytes (map N_of_ascii (list_ascii_of_string s))).

(** [btoa(password).split('').reverse().join('')] *)
Definition hashPassword (password : string) : string :=
  string_of_list_ascii (rev (list_ascii_of_string (btoa password))).

(** The test [/^\d{4,6}$/]. *)
Definition is_digit (c : ascii) : bool :=
  let n := N_of_ascii c in (48 <=? n)%N && (n <=? 57)%N.

Definition pin_format_ok (pin : string) : bool :=
  forallb is_digit (list_ascii_of_string pin)
  && (4 <=? String.length pin)%nat && (String.length pin <=? 6)%nat.

(** ** Data model *)

(** An element of [this.users], with the fields that the code embedded here
    reads or writes: [id], [email], [username], [passwordHash], and
    [transferPinHash], the copy of the PIN hash that [setTransferPin] and
    [resetTransferPin] keep on the user.  The other profile fields
    ([createdAt], [lastLogin], [role], ...) are written by [signup] and
    [login] only and are left out.  [this.currentUser] is a reference to an
    element of [this.users]; it is held as a copy, which a write to the user
    it denotes refreshes ([writeUser]). *)
Record User : Type := mkUser {
  user_id : string;
  user_email : string;
  user_username : string;
  passwordHash : string;
  transferPinHash : option string
}.

#[global] Instance User_eq_dec : EqDecision User.
Proof. solve_decision. Defined.

(** A value of [wallet.assets]. *)
Record AssetPosition : Type := mkAsset {
  balance : num;
  averageCost : num
}.

(** A value of [this.wallets]. *)
Record Wallet : Type := mkWallet {
  userId : string;
  dollarBalance : num;
  assets : gmap string AssetPosition;
  totalValue : num
}.

Inductive TxType : Type :=
| receive | send | buy | sell | swap | add_money.

(** The [metadata] argument of [createTransaction]: [{}] by default. *)
Inductive Metadata : Type :=
| MetaNone
| MetaBuy (cost price : num)
| MetaSell (proceeds price : num)
| MetaSwap (toAsset : string) (toAmount rate : num).

(** An element of [this.transactions]; [status] is always ['completed']. *)
Record Transaction : Type := mkTx {
  tx_id : string;
  tx_userId : string;
  tx_type : TxType;
  tx_asset : string;
  tx_amount : num;
  tx_counterparty : option string;
  tx_timestamp : N;
  tx_metadata : Metadata
}.

(** A value of [this.marketData]. *)
Record MarketEntry : Type := mkMarket {
  price : num;
  change : num
}.

(** A value of the [noblechain_pins] object in [localStorage]. *)
Record PinRecord : Type := mkPin {
  pin_userId : string;
  pinHash : option string;
  createdAt : N;
  mustSetPin : bool;
  lastUpdated : option N;
  resetBy : option string
}.

(** An element of [noblechain_notifications]: the note of [addNotification],
    with the text of its message kept as the values it is built from. *)
Record Notification : Type := mkNote {
  note_id : string;
  note_type : TxType;
  note_amount : num;
  note_asset : string;
  note_counterparty : option string;
  note_timestamp : N
}.

(** An element of [noblechain_email_logs]. *)
Record Email : Type := mkEmail {
  email_to : string;
  email_subject : string;
  email_type : string;
  email_timestamp : N
}.

(** An entry written by [logAdminAction]. *)
Record AdminAction : Type := mkAdminAction {
  action_name : string;
  action_userId : string;
  action_success : option bool;
  action_adminId : option string;
  action_timestamp : N
}.

Record State : Type := mkState {
  currentUser : option User;
  users : list User;
  wallets : gmap string Wallet;
  transactions : list Transaction;
  marketData : gmap string MarketEntry;
  pinStorage : gmap string PinRecord;
  notifications : list Notification;
  emailLogs : list Email;
  adminLog : list AdminAction;
  clock : N;
  entropy : N
}.

Definition set_users (f : list User → list User) (s : State) : State :=
  mkState (currentUser s) (f (users s)) (wallets s) (transactions s)
    (marketData s) (pinStorage s) (notifications s) (emailLogs s)
    (adminLog s) (clock s) (entropy s).

Definition set_wallets (f : gmap string Wallet → gmap string Wallet)
    (s : State) : State :=
  mkState (currentUser s) (users s) (f (wallets s)) (transactions s)
    (marketData s) (pinStorage s) (notifications s) (emailLogs s)
    (adminLog s) (clock s) (entropy s).

Definition set_transactions (f : list Transaction → list Transaction)
    (s : State) : State :=
  mkState (currentUser s) (users s) (wallets s) (f (transactions s))
    (marketData s) (pinStorage s) (notifications s) (emailLogs s)
    (adminLog s) (clock s) (entropy s).

Definition set_pinStorage (f : gmap string PinRecord → gmap string PinRecord)
    (s : State) : State :=
  mkState (currentUser s) (users s) (wallets s) (transactions s)
    (marketData s) (f (pinStorage s)) (notifications s) (emailLogs s)
    (adminLog s) (clock s) (entropy s).

Definition set_notifications (f : list Notification → list Notification)
    (s : State) : State :=
  mkState (currentUser s) (users s) (wallets s) (transactions s)
    (marketData s) (pinStorage s) (f (notifications s)) (emailLogs s)
    (adminLog s) (clock s) (entropy s).

Definition set_emailLogs (f : list Email → list Email) (s : State) : State :=
  mkState (currentUser s) (users s) (wallets s) (transactions s)
    (marketData s) (pinStorage s) (notifications s) (f (emailLogs s))
    (adminLog s) (clock s) (entropy s).

Definition set_adminLog (f : list AdminAction → list AdminAction)
    (s : State) : State :=
  mkState (currentUser s) (users s) (wallets s) (transactions s)
    (marketData s) (pinStorage s) (notifications s) (emailLogs s)
    (f (adminLog s)) (clock s) (entropy s).

Definition set_entropy (f : N → N) (s : State) : State :=
  mkState (currentUser s) (users s) (wallets s) (transactions s)
    (marketData s) (pinStorage s) (notifications s) (emailLogs s)
    (adminLog s) (clock s) (f (entropy s)).

Definition set_dollarBalance (f : num → num) (w : Wallet) : Wallet :=
  mkWallet (userId w) (f (dollarBalance w)) (assets w) (totalValue w).

Definition set_assets (f : gmap string AssetPosition → gmap string AssetPosition)
    (w : Wallet) : Wallet :=
  mkWallet (userId w) (dollarBalance w) (f (assets w)) (totalValue w).

Definition set_balance (f : num → num) (a : AssetPosition) : AssetPosition :=
  mkAsset (f (balance a)) (averageCost a).

Definition set_currentUser (f : option User → option User) (s : State)
    : State :=
  mkState (f (currentUser s)) (users s) (wallets s) (transactions s)
    (marketData s) (pinStorage s) (notifications s) (emailLogs s)
    (adminLog s) (clock s) (entropy s).

Definition set_transferPinHash (h : option string) (u : User) : User :=
  mkUser (user_id u) (user_email u) (user_username u) (passwordHash u) h.

(** ** Properties inherited from [Object.prototype] *)

(** The property names that every plain object inherits. *)
Definition object_prototype_keys : list string :=
  [ "constructor"; "__defineGetter__"; "__defineSetter__"; "hasOwnProperty";
    "__lookupGetter__"; "__lookupSetter__"; "isPrototypeOf";
    "propertyIsEnumerable"; "toString"; "valueOf"; "__proto__";
    "toLocaleString" ].

Definition inherited_key (k : string) : bool :=
  bool_decide (k ∈ object_prototype_keys).

(** What [this.wallets[k]] evaluates to when it is not [undefined]: a wallet
    stored under [k], or the built-in object that [k] names on
    [Object.prototype]. *)
Inductive walletValue : Type :=
| OwnWallet (w : Wallet)
| BuiltInWallet.

Coercion OwnWallet : Wallet >-> walletValue.
Arguments Some {A} & a.

(** What [wallet.assets[k]] evaluates to when it is not [undefined]. *)
Inductive positionValue : Type :=
| OwnPosition (p : AssetPosition)
| BuiltInPosition.

(** ** Exceptions and the method monad *)

(** [throw new Error(msg)], and the [TypeError] of a property read on [null]
    or [undefined]. *)
Inductive exn : Type :=
| Error (msg : string)
| TypeError.

(** The outcome of a call: it returns, it throws, or it reads or writes a
    property of a built-in object, which is where the embedding stops. *)
Inductive result (A : Type) : Type :=
| Ok (a : A)
| Throw (e : exn)
| Escapes.
Arguments Ok {A} a.
Arguments Throw {A} e.
Arguments Escapes {A}.

Definition M (A : Type) : Type := State → State * result A.

Definition ret {A} (a : A) : M A := λ s, (s, Ok a).

Definition bind {A B} (m : M A) (k : A → M B) : M B :=
  λ s, match m s with
       | (s', Ok a) => k a s'
       | (s', Throw e) => (s', Throw e)
       | (s', Escapes) => (s', Escapes)
       end.

Definition throw {A} (e : exn) : M A := λ s, (s, Throw e).

Definition escape {A} : M A := λ s, (s, Escapes).

Definition gets {A} (f : State → A) : M A := λ s, (s, Ok (f s)).

Definition modify (f : State → State) : M unit := λ s, (f s, Ok tt).

(** Read a property of a possibly [null] object. *)
Definition deref {A} (o : option A) : M A :=
  match o with
  | Some a => ret a
  | None => throw TypeError
  end.

Notation "x <- m ;; k" := (bind m (λ x, k))
  (at level 100, m at next level, right associativity).
Notation "m ;;; k" := (bind m (λ _, k))
  (at level 100, right associativity).

(** ** Utilities *)

Definition now : M N := gets clock.

(** [generateId]: a string built from the clock and from the random source. *)
Definition generateId : M string :=
  λ s, (set_entropy N.succ s, Ok (String.append (pretty (clock s)) (pretty (entropy s)))).

(** Modelled from the spec: [logAdminAction] is called by the PIN code but is
    not in the listed source; the audit sink "records administrator-initiated
    PIN resets and PIN verification attempts", so it appends the entry. *)
Definition logAdminAction (a : AdminAction) : M unit :=
  modify (set_adminLog (λ l, l ++ [a])).

Definition getEmailSubject (type : string) : string :=
  if String.eqb type "login_success" then "Successful Login to Noble Chain"
  else if String.eqb type "new_device_login" then "New Device Login Detected"
  else if String.eqb type "password_reset" then "Password Reset Request"
  else if String.eqb type "transfer_sent" then "Transfer Sent Successfully"
  else if String.eqb type "transfer_received" then "Transfer Received"
  else if String.eqb type "pin_changed" then "Transfer PIN Changed"
  else if String.eqb type "new_user" then "New User Registration"
  else "Noble Chain Notification".

Definition find_user_by_id (uid : string) (l : list User) : option User :=
  find (λ u, String.eqb (user_id u) uid) l.

Definition find_user_by_username (name : string) (l : list User) : option User :=
  find (λ u, String.eqb (user_username u) name) l.

Definition find_user_by_email (mail : string) (l : list User) : option User :=
  find (λ u, String.eqb (user_email u) mail) l.

(** [sendEmailNotification]: nothing for an unknown user; otherwise the mail
    is pushed on the log, of which the last 100 entries are kept.  The body
    of the mail is not represented. *)
Definition sendEmailNotification (userId type : string) : M unit :=
  us <- gets users ;;
  match find_user_by_id userId us with
  | None => ret tt
  | Some user =>
      t <- now ;;
      modify (set_emailLogs (λ l,
        let l' := l ++ [mkEmail (user_email user) (getEmailSubject type) type t] in
        if (100 <? length l')%nat then drop (length l' - 100) l' else l'))
  end.

(** [addNotification]: the note goes to the front, the first 100 are kept. *)
Definition addNotification (type : TxType) (amount : num) (asset : string)
    (counterparty : option string) : M unit :=
  i <- generateId ;;
  t <- now ;;
  modify (set_notifications (λ l,
    take 100 (mkNote i type amount asset counterparty t :: l))).

(** ** Transfer PIN system *)

(** The first element of [l] whose id is [userId], rewritten by [f]. *)
Fixpoint write_first (userId : string) (f : User → User) (l : list User)
    : list User :=
  match l with
  | [] => []
  | u :: rest =>
      if String.eqb (user_id u) userId then f u :: rest
      else u :: write_first userId f rest
  end.

(** [const user = this.users.find(u => u.id === userId);
     if (user) { user.transferPinHash = h; this.saveUsers(); }]:
    the write lands on the element of [this.users] that [find] returns, and
    shows through [this.currentUser] when that is the same user. *)
Definition withTransferPinHash (userId : string) (h : option string)
    (s : State) : State :=
  match find_user_by_id userId (users s) with
  | None => s
  | Some user =>
      set_currentUser
        (λ cu, if bool_decide (cu = Some user)
               then Some (set_transferPinHash h user) else cu)
        (set_users (write_first userId (set_transferPinHash h)) s)
  end.

Definition writeUser (userId : string) (h : option string) : M unit :=
  modify (withTransferPinHash userId h).

Definition createPinEntry (userId : string) : M PinRecord :=
  t <- now ;;
  let pinData := mkPin userId None t true None None in
  modify (set_pinStorage (insert userId pinData)) ;;;
  ret pinData.

Definition setTransferPin (userId pin : string) : M bool :=
  if negb (pin_format_ok pin) then throw (Error "PIN must be 4-6 digits")
  else
    ps <- gets pinStorage ;;
    match ps !! userId with
    | None => throw (Error "PIN setup required")
    | Some r =>
        t <- now ;;
        modify (set_pinStorage (insert userId
          (mkPin (pin_userId r) (Some (hashPassword pin)) (createdAt r) false
                 (Some t) (resetBy r)))) ;;;
        writeUser userId (Some (hashPassword pin)) ;;;
        sendEmailNotification userId "pin_changed" ;;;
        ret true
    end.

Definition verifyTransferPin (userId pin : string) : M bool :=
  ps <- gets pinStorage ;;
  match ps !! userId with
  | None => throw (Error "Transfer PIN not set")
  | Some pinData =>
      if negb (truthy_str (pinHash pinData))
      then throw (Error "Transfer PIN not set")
      else
        let isValid :=
          bool_decide (Some (hashPassword pin) = pinHash pinData) in
        t <- now ;;
        logAdminAction
          (mkAdminAction "pin_verification" userId (Some isValid) None t) ;;;
        if negb isValid then
          sendEmailNotification userId "pin_failed" ;;;
          throw (Error "Invalid Transfer PIN")
        else ret true
  end.

Definition resetTransferPin (userId adminId : string) : M bool :=
  ps <- gets pinStorage ;;
  t <- now ;;
  match ps !! userId with
  | Some r =>
      modify (set_pinStorage (insert userId
        (mkPin (pin_userId r) None (createdAt r) true (Some t) (Some adminId))))
  | None => ret tt
  end ;;;
  writeUser userId None ;;;
  logAdminAction (mkAdminAction "pin_reset" userId None (Some adminId) t) ;;;
  sendEmailNotification userId "pin_changed" ;;;
  ret true.

Definition hasTransferPin (userId : string) (s : State) : bool :=
  match pinStorage s !! userId with
  | Some pinData => truthy_str (pinHash pinData) && negb (mustSetPin pinData)
  | None => false
  end.

Definition mustSetTransferPin (userId : string) (s : State) : bool :=
  match pinStorage s !! userId with
  | Some pinData => mustSetPin pinData
  | None => false
  end.

(** ** Wallet operations *)

(** [userId || this.currentUser?.id], used as a property key: [undefined]
    becomes the key ["undefined"]. *)
Definition targetUserId (userId : option string) (s : State) : string :=
  if truthy_str userId then default "" userId
  else match currentUser s with
       | Some u => user_id u
       | None => "undefined"
       end.

(** [this.wallets[k]]: the wallet stored under [k]; failing that the built-in
    object that [k] names; failing that [undefined]. *)
Definition walletAt (k : string) (s : State) : option walletValue :=
  match wallets s !! k with
  | Some w => Some (OwnWallet w)
  | None => if inherited_key k then Some BuiltInWallet else None
  end.

(** [getWallet]: [this.wallets[targetUserId] || null]; a wallet and a built-in
    object are both truthy. *)
Definition getWallet (userId : option string) (s : State)
    : option walletValue :=
  walletAt (targetUserId userId s) s.

(** [wallet.assets[k]], on a wallet of the ledger. *)
Definition positionAt (k : string) (w : Wallet) : option positionValue :=
  match assets w !! k with
  | Some p => Some (OwnPosition p)
  | None => if inherited_key k then Some BuiltInPosition else None
  end.

(** [wallet.assets[k]] is a built-in object. *)
Definition builtInPosition (k : string) (w : Wallet) : bool :=
  match positionAt k w with
  | Some BuiltInPosition => true
  | _ => false
  end.

(** A wallet of the ledger is designated by the key it is stored under.
    [assetsAt k] is [this.wallets[k].assets] followed by an access to one of
    its properties: a [TypeError] when [this.wallets[k]] is [undefined], and
    also when it is a built-in object, which has no [assets]. *)
Definition assetsAt (k : string) : M string :=
  λ s, match walletAt k s with
       | Some (OwnWallet _) => (s, Ok k)
       | _ => (s, Throw TypeError)
       end.

(** [dollarAt k] is an access to [this.wallets[k].dollarBalance]: a
    [TypeError] when [this.wallets[k]] is [undefined]; on a built-in object
    the property is not part of the state. *)
Definition dollarAt (k : string) : M string :=
  λ s, match walletAt k s with
       | Some (OwnWallet _) => (s, Ok k)
       | Some BuiltInWallet => (s, Escapes)
       | None => (s, Throw TypeError)
       end.

(** The same accesses on the result of [getWallet(userId)]. *)
Definition assetsOf (userId : option string) : M string :=
  k <- gets (targetUserId userId) ;; assetsAt k.

Definition dollarOf (userId : option string) : M string :=
  k <- gets (targetUserId userId) ;; dollarAt k.

(** The wallet stored under [k]. *)
Definition readWallet (k : string) : M Wallet :=
  w <- gets (λ s, wallets s !! k) ;; deref w.

Definition updWallet (k : string) (f : Wallet → Wallet) : M unit :=
  modify (set_wallets (alter f k)).

Definition emptyPosition : AssetPosition := mkAsset Num.zero Num.zero.

(** [if (!wallet.assets[assetId]) wallet.assets[assetId] = {balance: 0, averageCost: 0}]:
    a position and a built-in object are both truthy, so the position is
    created only where [wallet.assets[assetId]] is [undefined]. *)
Definition ensurePosition (assetId : string) (w : Wallet) : Wallet :=
  match positionAt assetId w with
  | Some _ => w
  | None => set_assets (insert assetId emptyPosition) w
  end.

(** An access to a property ([balance], [averageCost]) of
    [this.wallets[k].assets[assetId]], which is not [undefined] at any place
    where the code makes it. *)
Definition positionOf (k assetId : string) : M unit :=
  w <- readWallet k ;;
  match positionAt assetId w with
  | Some (OwnPosition _) => ret tt
  | Some BuiltInPosition => escape
  | None => throw TypeError
  end.

Definition updPosition (assetId : string) (f : AssetPosition → AssetPosition)
    (w : Wallet) : Wallet :=
  set_assets (alter f assetId) w.

Definition addAsset (userId : option string) (assetId : string) : M unit :=
  k <- assetsOf userId ;;
  updWallet k (ensurePosition assetId).

(** [delete wallet.assets[assetId]] removes an own property only. *)
Definition removeAsset (userId : option string) (assetId : string) : M unit :=
  k <- assetsOf userId ;;
  updWallet k (set_assets (delete assetId)).

Definition createTransaction (type : TxType) (asset : string) (amount : num)
    (counterparty userId : option string) (metadata : Metadata)
    : M Transaction :=
  i <- generateId ;;
  uid <- (if truthy_str userId then ret (default "" userId)
          else cu <- gets currentUser ;; u <- deref cu ;; ret (user_id u)) ;;
  t <- now ;;
  let tx := mkTx i uid type asset amount counterparty t metadata in
  modify (set_transactions (λ l, l ++ [tx])) ;;;
  addNotification type amount asset counterparty ;;;
  ret tx.

Definition receiveMoney (amount : num) (assetId : string) : M Transaction :=
  (if String.eqb assetId "USD" then
     k <- dollarOf None ;;
     updWallet k (set_dollarBalance (λ b, b + amount)%num)
   else
     k <- assetsOf None ;;
     updWallet k (ensurePosition assetId) ;;;
     positionOf k assetId ;;;
     updWallet k (updPosition assetId (set_balance (λ b, b + amount)%num))) ;;;
  createTransaction receive assetId amount (Some "Internal Transfer") None
    MetaNone.

(** The PIN check that opens [sendMoney] and [swapAssets]. *)
Definition requirePin (pin : option string) : M unit :=
  cu <- gets currentUser ;;
  u <- deref cu ;;
  hp <- gets (hasTransferPin (user_id u)) ;;
  if hp then
    if negb (truthy_str pin)
    then throw (Error "Transfer PIN required for this transaction")
    else verifyTransferPin (user_id u) (default "" pin) ;;; ret tt
  else ret tt.

(** The end of [sendMoney]: the two transactions and the two mails. *)
Definition sendMoney_record (recipient : User) (amount : num)
    (assetId : string) : M (Transaction * Transaction) :=
  sendTx <- createTransaction send assetId amount
              (Some (user_username recipient)) None MetaNone ;;
  cu <- gets currentUser ;;
  u <- deref cu ;;
  receiveTx <- createTransaction receive assetId amount
                 (Some (user_username u)) (Some (user_id recipient))
                 MetaNone ;;
  sendEmailNotification (user_id u) "transfer_sent" ;;;
  sendEmailNotification (user_id recipient) "transfer_received" ;;;
  ret (sendTx, receiveTx).

(** [sendMoney] after its PIN check. *)
Definition sendMoney_transfer (recipientUsername : string) (amount : num)
    (assetId : string) : M (Transaction * Transaction) :=
  us <- gets users ;;
  match find_user_by_username recipientUsername us with
  | None => throw (Error "Recipient not found")
  | Some recipient =>
      (if String.eqb assetId "USD" then
         k <- dollarOf None ;;
         senderWallet <- readWallet k ;;
         if (dollarBalance senderWallet <? amount)%num
         then throw (Error "Insufficient balance")
         else
           updWallet k (set_dollarBalance (λ b, b - amount)%num) ;;;
           r <- dollarAt (user_id recipient) ;;
           updWallet r (set_dollarBalance (λ b, b + amount)%num)
       else
         k <- assetsOf None ;;
         senderWallet <- readWallet k ;;
         match positionAt assetId senderWallet with
         | None => throw (Error "Insufficient asset balance")
         | Some BuiltInPosition => escape
         | Some (OwnPosition asset) =>
             if (balance asset <? amount)%num
             then throw (Error "Insufficient asset balance")
             else
               updWallet k
                 (updPosition assetId (set_balance (λ b, b - amount)%num)) ;;;
               r <- assetsAt (user_id recipient) ;;
               updWallet r (ensurePosition assetId) ;;;
               positionOf r assetId ;;;
               updWallet r
                 (updPosition assetId (set_balance (λ b, b + amount)%num))
         end) ;;;
      sendMoney_record recipient amount assetId
  end.

Definition sendMoney (recipientUsername : string) (amount : num)
    (assetId : string) (pin : option string) : M (Transaction * Transaction) :=
  requirePin pin ;;;
  sendMoney_transfer recipientUsername amount assetId.

(** [this.marketData[assetId]?.price]: a built-in object has no [price], so
    an inherited key reads as an entry that is not there. *)
Definition marketPrice (assetId : string) (s : State) : option num :=
  price <$> marketData s !! assetId.

(** [price || this.marketData[assetId]?.price || 0] *)
Definition unitPrice (explicit : option num) (assetId : string) (s : State)
    : num :=
  num_or0 (num_or explicit (marketPrice assetId s)).

Definition buyAsset (assetId : string) (amount : num) (price : option num)
    : M Transaction :=
  p <- gets (unitPrice price assetId) ;;
  let cost := (p * amount)%num in
  k <- dollarOf None ;;
  wallet <- readWallet k ;;
  if (dollarBalance wallet <? cost)%num
  then throw (Error "Insufficient USD balance")
  else
    updWallet k (set_dollarBalance (λ b, b - cost)%num) ;;;
    updWallet k (ensurePosition assetId) ;;;
    positionOf k assetId ;;;
    updWallet k (updPosition assetId (λ asset,
      let totalCost := (balance asset * averageCost asset + cost)%num in
      let newBalance := (balance asset + amount)%num in
      mkAsset newBalance (totalCost / newBalance)%num)) ;;;
    createTransaction buy assetId amount None None
      (MetaBuy cost (cost / amount)%num).

(** [if (asset.balance === 0) delete wallet.assets[assetId]], the balance
    being read through the reference to the position stored under [assetId]. *)
Definition dropIfEmpty (assetId : string) (w : Wallet) : Wallet :=
  match assets w !! assetId with
  | Some asset =>
      if (balance asset === 0)%num then set_assets (delete assetId) w else w
  | None => w
  end.

Definition sellAsset (assetId : string) (amount : num) (price : option num)
    : M Transaction :=
  k <- assetsOf None ;;
  wallet <- readWallet k ;;
  match positionAt assetId wallet with
  | None => throw (Error "Insufficient asset balance")
  | Some BuiltInPosition => escape
  | Some (OwnPosition asset) =>
      if (balance asset <? amount)%num
      then throw (Error "Insufficient asset balance")
      else
        salePrice <- gets (unitPrice price assetId) ;;
        let proceeds := (salePrice * amount)%num in
        updWallet k (updPosition assetId (set_balance (λ b, b - amount)%num)) ;;;
        updWallet k (set_dollarBalance (λ b, b + proceeds)%num) ;;;
        updWallet k (dropIfEmpty assetId) ;;;
        createTransaction sell assetId amount None None
          (MetaSell proceeds salePrice)
  end.

(** [swapAssets] after its PIN check. *)
Definition swapAssets_exchange (fromAssetId toAssetId : string) (amount : num)
    : M Transaction :=
  k <- assetsOf None ;;
  wallet <- readWallet k ;;
  match positionAt fromAssetId wallet with
  | None => throw (Error "Insufficient source asset balance")
  | Some BuiltInPosition => escape
  | Some (OwnPosition fromAsset) =>
      if (balance fromAsset <? amount)%num
      then throw (Error "Insufficient source asset balance")
      else
        fromPrice <- gets (λ s, num_or0 (marketPrice fromAssetId s)) ;;
        toPrice <- gets (λ s, num_or0 (marketPrice toAssetId s)) ;;
        let toAmount := ((amount * fromPrice) / toPrice)%num in
        updWallet k
          (updPosition fromAssetId (set_balance (λ b, b - amount)%num)) ;;;
        updWallet k (ensurePosition toAssetId) ;;;
        positionOf k toAssetId ;;;
        updWallet k
          (updPosition toAssetId (set_balance (λ b, b + toAmount)%num)) ;;;
        updWallet k (dropIfEmpty fromAssetId) ;;;
        createTransaction swap fromAssetId amount None None
          (MetaSwap toAssetId toAmount (fromPrice / toPrice)%num)
  end.

Definition swapAssets (fromAssetId toAssetId : string) (amount : num)
    (pin : option string) : M Transaction :=
  requirePin pin ;;;
  swapAssets_exchange fromAssetId toAssetId amount.

Definition addMoney (amount : num) : M Transaction :=
  k <- dollarOf None ;;
  updWallet k (set_dollarBalance (λ b, b + amount)%num) ;;;
  createTransaction add_money "USD" amount (Some "Noble Chain Support") None
    MetaNone.

(** ** The value of a wallet *)

(** The loop of [getTotalBalance]: started from [total], it adds, position
    after position, the balance at the current quote ([0] without a quote). *)
Definition totalOver (s : State) (total : num)
    (entries : list (string * AssetPosition)) : num :=
  foldl (λ total entry,
           (total + balance entry.2 * num_or0 (marketPrice entry.1 s))%num)
    total entries.

(** [getTotalBalance]: [0] without a wallet, else the loop over
    [Object.entries(wallet.assets)] started from the fiat balance.
    [Object.entries] lists the positions in the order of the keys of the
    object (the keys that are array indices first, then the others in the
    order in which they were created), which the map [assets] does not
    record: [entries] is that enumeration. *)
Definition getTotalBalance (entries : Wallet → list (string * AssetPosition))
    (userId : option string) : M num :=
  λ s, match getWallet userId s with
       | None => (s, Ok Num.zero)
       | Some BuiltInWallet => (s, Escapes)
       | Some (OwnWallet wallet) =>
           (s, Ok (totalOver s (dollarBalance wallet) (entries wallet)))
       end.

(** An enumeration of the positions lists each of them once. *)
Definition enumerates (entries : Wallet → list (string * AssetPosition))
    : Prop :=
  ∀ w, entries w ≡ₚ map_to_list (assets w).

(** ** Admin functions *)

Definition updateUserBalance (userId : option string) (assetId : string)
    (newBalance : num) : M unit :=
  if String.eqb assetId "USD" then
    k <- dollarOf userId ;;
    updWallet k (set_dollarBalance (λ _, newBalance))
  else
    k <- assetsOf userId ;;
    updWallet k (ensurePosition assetId) ;;;
    positionOf k assetId ;;;
    updWallet k (updPosition assetId (set_balance (λ _, newBalance))).

(** ** Accounts and session *)

(** [signup]; [syncUserWithAdminPanel] dispatches an event of the page and
    writes nothing. *)
Definition signup (email password username : string) : M User :=
  us <- gets users ;;
  match find_user_by_email email us with
  | Some _ => throw (Error "Email already registered")
  | None =>
      match find_user_by_username username us with
      | Some _ => throw (Error "Username already taken")
      | None =>
          i <- generateId ;;
          let user := mkUser i email username (hashPassword password) None in
          modify (set_users (λ l, l ++ [user])) ;;;
          modify (set_wallets
                    (insert i (mkWallet i Num.zero ∅ Num.zero))) ;;;
          createPinEntry i ;;;
          ret user
      end
  end.

(** The value stored under [noblechain_session]. *)
Record Session : Type := mkSession {
  session_userId : string;
  session_timestamp : N
}.


(** [checkSession], [session] being what [noblechain_session] holds. *)
Definition checkSession (session : option Session) : M bool :=
  match session with
  | None => ret false
  | Some data =>
      us <- gets users ;;
      match find_user_by_id (session_userId data) us with
      | None => ret false
      | Some user =>
          t <- now ;;
          if (Z.of_N t - Z.of_N (session_timestamp data) <? 86400000)%Z
          then modify (set_currentUser (λ _, Some user)) ;;; ret true
          else ret false
      end
  end.

(** [logout]: the state, and what [noblechain_session] holds, after the
    call. *)
Definition logout (s : State) : State * option Session :=
  (set_currentUser (λ _, None) s, None).

(** [confirmSecurityPhrase] on two arrays of words. *)
Definition confirmSecurityPhrase (phrase userSelections : list string)
    : bool :=
  if negb (length phrase =? length userSelections)%nat then false
  else forallb (λ entry : nat * string,
                  bool_decide (userSelections !! entry.1 = Some entry.2))
         (imap pair phrase).

(** ** Sequences of operations *)

(** The value-moving commands of the engine. *)
Inductive Op : Type :=
| OpAddMoney (amount : num)
| OpReceiveMoney (amount : num) (assetId : string)
| OpSendMoney (recipientUsername : string) (amount : num) (assetId : string)
    (pin : option string)
| OpBuyAsset (assetId : string) (amount : num) (price : option num)
| OpSellAsset (assetId : string) (amount : num) (price : option num)
| OpSwapAssets (fromAssetId toAssetId : string) (amount : num)
    (pin : option string)
| OpUpdateUserBalance (userId : option string) (assetId : string)
    (newBalance : num).

Definition exec (op : Op) : M unit :=
  match op with
  | OpAddMoney a => addMoney a ;;; ret tt
  | OpReceiveMoney a asset => receiveMoney a asset ;;; ret tt
  | OpSendMoney r a asset pin => sendMoney r a asset pin ;;; ret tt
  | OpBuyAsset asset a p => buyAsset asset a p ;;; ret tt
  | OpSellAsset asset a p => sellAsset asset a p ;;; ret tt
  | OpSwapAssets f t a pin => swapAssets f t a pin ;;; ret tt
  | OpUpdateUserBalance u asset b => updateUserBalance u asset b
  end.

(** The state an operation leaves behind when it returns or throws, and the
    state in which it stops when it touches a built-in object. *)
Definition step (op : Op) (s : State) : State := (exec op s).1.

Definition succeeded {A} (r : result A) : bool :=
  match r with
  | Ok _ => true
  | _ => false
  end.

(** The call returned or threw: it did not touch a built-in object. *)
Definition completes {A} (r : result A) : Prop :=
  match r with
  | Escapes => False
  | _ => True
  end.

(** States reached from [s0] by operations that satisfy [ok] and complete,
    interleaved with the events that never write a wallet (login and logout,
    market ticks, PIN management). *)
Inductive reachable (ok : State → Op → Prop) (s0 : State) : State → Prop :=
| reach_start : reachable ok s0 s0
| reach_op s op :
    reachable ok s0 s → ok s op → completes (exec op s).2 →
    reachable ok s0 (step op s)
| reach_other s s' :
    reachable ok s0 s → wallets s' = wallets s → reachable ok s0 s'.

(** ** Properties of states *)

(** What an account holds of an asset, ['USD'] being the fiat balance and an
    absent position counting for nothing. *)
Definition holding (assetId : string) (w : Wallet) : num :=
  if String.eqb assetId "USD" then dollarBalance w
  else match assets w !! assetId with
       | Some p => balance p
       | None => Num.zero
       end.

Definition holdingOf (s : State) (uid assetId : string) : num :=
  match wallets s !! uid with
  | Some w => holding assetId w
  | None => Num.zero
  end.

Definition wallet_nonneg (w : Wallet) : Prop :=
  Num.ge0 (dollarBalance w) ∧
  map_Forall (λ _ p, Num.ge0 (balance p)) (assets w).

(** Non-negativity: every fiat balance and every position balance is [>= 0]. *)
Definition balances_nonneg (s : State) : Prop :=
  map_Forall (λ _ w, wallet_nonneg w) (wallets s).

(** Position presence: every position in the map has a strictly positive
    balance. *)
Definition positions_positive (w : Wallet) : Prop :=
  map_Forall (λ _ p, Num.positive (balance p)) (assets w).

Definition all_positions_positive (s : State) : Prop :=
  map_Forall (λ _ w, positions_positive w) (wallets s).

(** The amount a swap credits: [(amount * fromPrice) / toPrice]. *)
Definition swapAmount (fromAssetId toAssetId : string) (amount : num)
    (s : State) : num :=
  ((amount * num_or0 (marketPrice fromAssetId s))
   / num_or0 (marketPrice toAssetId s))%num.

(** The arguments under which non-negativity is kept: amounts, prices and
    forced balances are finite and not negative, the cost of a purchase is
    finite, and the asset a swap buys has a positive quote. *)
Definition nonneg_args (s : State) (op : Op) : Prop :=
  match op with
  | OpAddMoney a | OpReceiveMoney a _ | OpSendMoney _ a _ _ => Num.amount_ok a
  | OpBuyAsset asset a p =>
      Num.amount_ok a ∧ Num.amount_ok (unitPrice p asset s) ∧
      Num.amount_ok (unitPrice p asset s * a)%num
  | OpSellAsset asset a p =>
      Num.amount_ok a ∧ Num.amount_ok (unitPrice p asset s)
  | OpSwapAssets f t a _ =>
      Num.amount_ok a ∧ Num.amount_ok (num_or0 (marketPrice f s)) ∧
      Num.amount_ok (num_or0 (marketPrice t s)) ∧
      Num.positive (num_or0 (marketPrice t s))
  | OpUpdateUserBalance _ _ b => Num.amount_ok b
  end.

(** The arguments under which position presence is kept: what is credited
    to a position is strictly positive, what is debited is finite and not
    negative, and a transfer takes less than the whole position. *)
Definition cleanup_args (s : State) (op : Op) : Prop :=
  match op with
  | OpAddMoney _ => True
  | OpReceiveMoney a asset | OpUpdateUserBalance _ asset a =>
      asset = "USD" ∨ Num.positive a
  | OpSendMoney _ a asset _ =>
      asset = "USD" ∨
      (Num.positive a ∧ Num.amount_ok a ∧
       (holdingOf s (targetUserId None s) asset === a)%num = false)
  | OpBuyAsset _ a _ => Num.positive a
  | OpSellAsset _ a _ => Num.amount_ok a
  | OpSwapAssets f t a _ =>
      Num.amount_ok a ∧ Num.positive (swapAmount f t a s)
  end.

(** The shape [signup] gives to the state: it stores a wallet under the id of
    every user it creates, and no wallet is stored under the key that an
    absent user id is coerced to. *)
Definition well_formed (s : State) : Prop :=
  (∀ u, u ∈ users s → is_Some (wallets s !! user_id u)) ∧
  (currentUser s = None → wallets s !! "undefined" = None).

(** The ledger part of two states is the same. *)
Definition same_ledger (s s' : State) : Prop :=
  wallets s' = wallets s ∧ transactions s' = transactions s ∧
  users s' = users s ∧ currentUser s' = currentUser s ∧
  pinStorage s' = pinStorage s ∧ marketData s' = marketData s.

(** A method leaves a component of the state as it found it. *)
Definition preserves {A B} (f : State → A) (m : M B) : Prop :=
  ∀ s, f (m s).1 = f s.

(** A method keeps a property of the state, whatever its outcome. *)
Definition keeps {B} (P : State → Prop) (m : M B) : Prop :=
  ∀ s, P s → P (m s).1.

(** The two capped logs hold at most 100 entries. *)
Definition logs_bounded (s : State) : Prop :=
  (length (notifications s) ≤ 100)%nat ∧ (length (emailLogs s) ≤ 100)%nat.

(** No two users share an email address or a username. *)
Definition unique_accounts (s : State) : Prop :=
  NoDup (user_email <$> users s) ∧ NoDup (user_username <$> users s).

(** Every user has a wallet. *)
Definition users_have_wallets (s : State) : Prop :=
  ∀ u, u ∈ users s → is_Some (wallets s !! user_id u).

(** The owner written on a transaction: [userId || this.currentUser.id]. *)
Definition txOwner (userId : option string) (s : State) : option string :=
  if truthy_str userId then userId else user_id <$> currentUser s.

(** The transaction [createTransaction] builds in state [s]. *)
Definition newTx (s : State) (uid : string) (type : TxType) (asset : string)
    (amount : num) (counterparty : option string) (metadata : Metadata)
    : Transaction :=
  mkTx (String.append (pretty (clock s)) (pretty (entropy s))) uid type asset
    amount counterparty (clock s) metadata.

(** The state [createTransaction] leaves when it returns [tx]. *)
Definition logged (tx : Transaction) (s : State) : State :=
  set_notifications
    (λ l, take 100
            (mkNote (String.append (pretty (clock s))
                       (pretty (N.succ (entropy s))))
               (tx_type tx) (tx_amount tx) (tx_asset tx) (tx_counterparty tx)
               (clock s) :: l))
    (set_entropy (λ e, N.succ (N.succ e))
       (set_transactions (λ l, l ++ [tx]) s)).

(** The acting wallet after the writes of [buyAsset], [sellAsset] and
    [swapAssets], in the order in which the code makes them. *)
Definition bought (assetId : string) (amount cost : num) (w : Wallet)
    : Wallet :=
  updPosition assetId
    (λ asset,
       let totalCost := (balance asset * averageCost asset + cost)%num in
       let newBalance := (balance asset + amount)%num in
       mkAsset newBalance (totalCost / newBalance)%num)
    (ensurePosition assetId (set_dollarBalance (λ b, b - cost)%num w)).

Definition sold (assetId : string) (amount proceeds : num) (w : Wallet)
    : Wallet :=
  dropIfEmpty assetId
    (set_dollarBalance (λ b, b + proceeds)%num
       (updPosition assetId (set_balance (λ b, b - amount)%num) w)).

Definition swapped (fromAssetId toAssetId : string) (amount toAmount : num)
    (w : Wallet) : Wallet :=
  dropIfEmpty fromAssetId
    (updPosition toAssetId (set_balance (λ b, b + toAmount)%num)
       (ensurePosition toAssetId
          (updPosition fromAssetId (set_balance (λ b, b - amount)%num) w))).

(** The two wallets of a transfer: the sender's after the debit, the
    recipient's after the credit. *)
Definition debited (assetId : string) (amount : num) (w : Wallet) : Wallet :=
  if String.eqb assetId "USD"
  then set_dollarBalance (λ b, b - amount)%num w
  else updPosition assetId (set_balance (λ b, b - amount)%num) w.

Definition credited (assetId : string) (amount : num) (w : Wallet) : Wallet :=
  if String.eqb assetId "USD"
  then set_dollarBalance (λ b, b + amount)%num w
  else updPosition assetId (set_balance (λ b, b + amount)%num)
         (ensurePosition assetId w).

(** Successive PIN attempts of one user. *)
Fixpoint verifyAll (userId : string) (attempts : list string) (s : State)
    : State :=
  match attempts with
  | [] => s
  | pin :: rest => verifyAll userId rest (verifyTransferPin userId pin s).1
  end.

(** ** A concrete ledger *)

Module Demo.

Definition alice : User :=
  mkUser "u1" "alice@noble.io" "alice" (hashPassword "wonderland") None.
Definition bob : User :=
  mkUser "u2" "bob@noble.io" "bob" (hashPassword "builder") None.

Definition btc10 : AssetPosition := mkAsset (Num.of_Z 10) (Num.of_Z 100).

(** Alice is logged in with 1000 dollars and 10 BTC bought at 100; Bob's
    wallet is empty; BTC and ETH are quoted. *)
Definition start : State :=
  mkState (Some alice) [alice; bob]
    (<["u1" := mkWallet "u1" (Num.of_Z 1000) (<["BTC" := btc10]> ∅) Num.zero]>
       (<["u2" := mkWallet "u2" Num.zero ∅ Num.zero]> ∅))
    []
    (<["BTC" := mkMarket (Num.of_Z 45000) Num.zero]>
       (<["ETH" := mkMarket (Num.of_Z 3000) Num.zero]> ∅))
    ∅ [] [] [] 1000 0.

(** The same ledger once Alice has chosen the transfer PIN 1234. *)
Definition with_pin : State :=
  (setTransferPin "u1" "1234" (createPinEntry "u1" start).1).1.

End Demo.

(** * Proofs *)

(** ** Rounding in binary64 *)

Local Open Scope Z_scope.

(** *** Signs of rounded results *)

Section Rounding.
Variables bits top : Z.
Hypothesis bits_pos : 0 < bits.

Lemma fexp_emin e : SpecFloat.emin bits top <= SpecFloat.fexp bits top e.
Proof. unfold SpecFloat.fexp. lia. Qed.

Lemma digits2_pos_bounds m :
  2 ^ (Zpos (digits2_pos m) - 1) <= Zpos m < 2 ^ Zpos (digits2_pos m).
Proof.
  induction m as [m IH|m IH|]; simpl digits2_pos.
  - rewrite Pos2Z.inj_succ.
    replace (Z.succ (Zpos (digits2_pos m)) - 1)
      with (Z.succ (Zpos (digits2_pos m) - 1)) by lia.
    rewrite !Z.pow_succ_r by lia. lia.
  - rewrite Pos2Z.inj_succ.
    replace (Z.succ (Zpos (digits2_pos m)) - 1)
      with (Z.succ (Zpos (digits2_pos m) - 1)) by lia.
    rewrite !Z.pow_succ_r by lia. lia.
  - simpl. lia.
Qed.

Lemma shr_1_m mrs : 0 <= shr_m mrs → shr_m (shr_1 mrs) = shr_m mrs / 2.
Proof.
  destruct mrs as [m r s]. cbn [shr_m]. intros Hm.
  rewrite <- Z.div2_div.
  destruct m as [|[p|p|]|p]; try reflexivity. lia.
Qed.

Lemma shr_iter_m p mrs :
  0 <= shr_m mrs →
  shr_m (SpecFloat.iter_pos shr_1 p mrs) = shr_m mrs / 2 ^ Zpos p.
Proof.
  revert mrs. induction p as [p IH|p IH|]; intros mrs Hm; simpl SpecFloat.iter_pos.
  - assert (0 <= shr_m (shr_1 mrs))
      by (rewrite shr_1_m by done; apply Z.div_pos; lia).
    assert (0 <= shr_m (SpecFloat.iter_pos shr_1 p (shr_1 mrs)))
      by (rewrite IH by done; apply Z.div_pos; [done|apply Z.pow_pos_nonneg; lia]).
    rewrite !IH, shr_1_m by done.
    rewrite !Z.div_div by (try apply Z.pow_pos_nonneg; lia).
    f_equal. replace (Z.pos p~1) with (Z.pos p + Z.pos p + 1) by lia.
    rewrite !Z.pow_add_r by lia. ring.
  - assert (0 <= shr_m (SpecFloat.iter_pos shr_1 p mrs))
      by (rewrite IH by done; apply Z.div_pos; [done|apply Z.pow_pos_nonneg; lia]).
    rewrite !IH by done.
    rewrite !Z.div_div by (try apply Z.pow_pos_nonneg; lia).
    f_equal. replace (Z.pos p~0) with (Z.pos p + Z.pos p) by lia.
    rewrite !Z.pow_add_r by lia. ring.
  - rewrite shr_1_m by done. f_equal.
Qed.

Lemma shr_record_of_loc_m m l : shr_m (shr_record_of_loc m l) = m.
Proof. by destruct l as [|[]]. Qed.

Lemma shr_m_nonneg mrs e n : 0 <= shr_m mrs → 0 <= shr_m (fst (shr mrs e n)).
Proof.
  intros Hm. destruct n as [|p|p]; simpl; try done.
  rewrite shr_iter_m by done. apply Z.div_pos; [done|].
  apply Z.pow_pos_nonneg; lia.
Qed.

Lemma round_nearest_even_ge m l : m <= round_nearest_even m l.
Proof.
  destruct l as [|[]]; simpl; try lia. destruct (Z.even m); lia.
Qed.

Lemma binary_round_aux_signed s m e l :
  0 <= m → sf_signed s (binary_round_aux bits top s m e l).
Proof.
  intros Hm. unfold binary_round_aux, shr_fexp.
  destruct (shr (shr_record_of_loc m l) e _) as [mrs1 e1] eqn:H1.
  assert (0 <= shr_m mrs1) as Hm1.
  { change mrs1 with (fst (mrs1, e1)). rewrite <- H1.
    apply shr_m_nonneg. by rewrite shr_record_of_loc_m. }
  destruct (shr (shr_record_of_loc (round_nearest_even _ _) _) e1 _)
    as [mrs2 e2] eqn:H2.
  assert (0 <= shr_m mrs2) as Hm2.
  { change mrs2 with (fst (mrs2, e2)). rewrite <- H2.
    apply shr_m_nonneg. rewrite shr_record_of_loc_m.
    etrans; [exact Hm1|apply round_nearest_even_ge]. }
  destruct (shr_m mrs2) as [|q|q]; simpl; [done| |lia].
  by destruct (_ <=? _).
Qed.

Lemma shr_fexp_pos m e l :
  0 < m → SpecFloat.emin bits top <= e →
  0 < shr_m (fst (shr_fexp bits top m e l)) ∧
  SpecFloat.emin bits top <= snd (shr_fexp bits top m e l).
Proof.
  intros Hm He. unfold shr_fexp.
  destruct m as [|p|p]; [lia| |lia]. cbn [Zdigits2].
  pose proof (digits2_pos_bounds p) as [Hlo _].
  set (d := Z.pos (digits2_pos p)) in *.
  destruct (SpecFloat.fexp bits top (d + e) - e) as [|n|n] eqn:Hn; cbn [shr fst snd].
  - by rewrite shr_record_of_loc_m.
  - rewrite shr_iter_m by (rewrite shr_record_of_loc_m; lia).
    rewrite shr_record_of_loc_m.
    unfold SpecFloat.fexp in Hn.
    assert (Z.pos n = d - bits) as Hnd by lia.
    split; [rewrite Hnd|lia].
    apply Z.div_str_pos. split; [apply Z.pow_pos_nonneg; lia|].
    etrans; [|exact Hlo]. apply Z.pow_le_mono_r; lia.
  - by rewrite shr_record_of_loc_m.
Qed.

Lemma binary_round_aux_nonzero s m e :
  0 < m → SpecFloat.emin bits top <= e →
  sf_nonzero s (binary_round_aux bits top s m e loc_Exact).
Proof.
  intros Hm He. unfold binary_round_aux.
  destruct (shr_fexp_pos m e loc_Exact Hm He) as [Hm1 He1].
  destruct (shr_fexp bits top m e loc_Exact) as [mrs1 e1]. cbn [fst snd] in *.
  assert (0 < round_nearest_even (shr_m mrs1) (loc_of_shr_record mrs1))
    as Hr by (pose proof (round_nearest_even_ge (shr_m mrs1)
                            (loc_of_shr_record mrs1)); lia).
  destruct (shr_fexp_pos _ e1 loc_Exact Hr He1) as [Hm2 _].
  destruct (shr_fexp bits top _ e1 loc_Exact) as [mrs2 e2]. cbn [fst snd] in *.
  destruct (shr_m mrs2) as [|q|q]; [lia| |lia].
  by destruct (_ <=? _).
Qed.

Lemma shl_align_value m e e' :
  e' <= e →
  Z.pos (fst (shl_align m e e')) = Z.pos m * 2 ^ (e - e') ∧
  snd (shl_align m e e') = e'.
Proof.
  intros Hle. unfold shl_align.
  destruct (e' - e) as [|d|d] eqn:Hd; cbn [fst snd].
  - replace (e - e') with 0 by lia. split; lia.
  - lia.
  - replace (e - e') with (Z.pos d) by lia. split; [|done].
    clear Hd. induction d as [|d IH] using Pos.peano_ind.
    + simpl. lia.
    + rewrite Pos.iter_succ, Pos2Z.inj_xO, IH, Pos2Z.inj_succ.
      rewrite Z.pow_succ_r by lia. ring.
Qed.

Lemma binary_round_nonzero s m e :
  SpecFloat.emin bits top <= e →
  sf_nonzero s (binary_round bits top s m e).
Proof.
  intros He. unfold binary_round.
  set (t := SpecFloat.fexp bits top (Z.pos (digits2_pos m) + e)).
  pose proof (fexp_emin (Z.pos (digits2_pos m) + e)) as Ht. fold t in Ht.
  assert (SpecFloat.emin bits top <= snd (shl_align m e t)) as Hs.
  { unfold shl_align. destruct (t - e) eqn:Hd; cbn [snd]; lia. }
  destruct (shl_align m e t) as [mz ez]. cbn [snd] in Hs.
  apply binary_round_aux_nonzero; lia.
Qed.

Lemma binary_normalize_nonneg m e :
  0 <= m → SpecFloat.emin bits top <= e →
  binary_normalize bits top m e false = S754_zero false ∧ m = 0 ∨
  sf_nonzero false (binary_normalize bits top m e false) ∧ 0 < m.
Proof.
  intros Hm He. destruct m as [|p|p]; [by left| |lia].
  right. split; [|lia]. by apply binary_round_nonzero.
Qed.

(** ** Valid operands *)

Lemma bounded_emin m e :
  bounded bits top m e = true → SpecFloat.emin bits top <= e.
Proof.
  unfold bounded, canonical_mantissa. intros H.
  apply andb_prop in H as [H _]. apply Z.eqb_eq in H.
  rewrite <- H. apply fexp_emin.
Qed.

Lemma bounded_digits m e :
  bounded bits top m e = true → Z.pos m < 2 ^ bits.
Proof.
  unfold bounded, canonical_mantissa, SpecFloat.fexp. intros H.
  apply andb_prop in H as [H _]. apply Z.eqb_eq in H.
  pose proof (digits2_pos_bounds m) as [_ Hhi].
  eapply Z.lt_le_trans; [exact Hhi|]. apply Z.pow_le_mono_r; lia.
Qed.

Lemma bounded_normal m e :
  bounded bits top m e = true → SpecFloat.emin bits top < e →
  2 ^ (bits - 1) <= Z.pos m.
Proof.
  unfold bounded, canonical_mantissa, SpecFloat.fexp. intros H He.
  apply andb_prop in H as [H _]. apply Z.eqb_eq in H.
  pose proof (digits2_pos_bounds m) as [Hlo _].
  replace (bits - 1) with (Z.pos (digits2_pos m) - 1) by lia. done.
Qed.

(** The aligned mantissas of two valid positive operands are ordered as the
    comparison of the operands says. *)
Lemma aligned_order m1 e1 m2 e2 :
  bounded bits top m1 e1 = true → bounded bits top m2 e2 = true →
  match (e1 ?= e2) with
  | Lt => Lt
  | Gt => Gt
  | Eq => Pos.compare_cont Eq m1 m2
  end ≠ Lt →
  Z.pos (fst (shl_align m2 e2 (Z.min e1 e2)))
  <= Z.pos (fst (shl_align m1 e1 (Z.min e1 e2))).
Proof.
  intros H1 H2 Hc.
  destruct (e1 ?= e2) eqn:He; [| done |].
  - apply Z.compare_eq in He. subst e2. rewrite Z.min_id.
    destruct (shl_align_value m1 e1 e1) as [-> _]; [lia|].
    destruct (shl_align_value m2 e1 e1) as [-> _]; [lia|].
    rewrite Z.sub_diag. simpl.
    assert (¬ (m1 < m2)%positive) as Hn
      by (unfold Pos.lt, Pos.compare; done).
    lia.
  - apply Z.compare_gt_iff in He. rewrite Z.min_r by lia.
    destruct (shl_align_value m1 e1 e2) as [-> _]; [lia|].
    destruct (shl_align_value m2 e2 e2) as [-> _]; [lia|].
    rewrite Z.sub_diag, Z.pow_0_r.
    pose proof (bounded_digits _ _ H2).
    pose proof (bounded_emin _ _ H2).
    pose proof (bounded_normal _ _ H1 ltac:(lia)) as Hn.
    assert (2 ^ 1 <= 2 ^ (e1 - e2)) by (apply Z.pow_le_mono_r; lia).
    assert (2 ^ bits = 2 ^ (bits - 1) * 2 ^ 1)
      by (rewrite <- Z.pow_add_r by lia; f_equal; lia).
    nia.
Qed.

Lemma aligned_order_strict m1 e1 m2 e2 :
  bounded bits top m1 e1 = true → bounded bits top m2 e2 = true →
  match (e2 ?= e1) with
  | Lt => Lt
  | Gt => Gt
  | Eq => Pos.compare_cont Eq m2 m1
  end = Lt →
  Z.pos (fst (shl_align m2 e2 (Z.min e1 e2)))
  < Z.pos (fst (shl_align m1 e1 (Z.min e1 e2))).
Proof.
  intros H1 H2 Hc.
  destruct (e2 ?= e1) eqn:He; [| |done].
  - apply Z.compare_eq in He. subst e2. rewrite Z.min_id.
    destruct (shl_align_value m1 e1 e1) as [-> _]; [lia|].
    destruct (shl_align_value m2 e1 e1) as [-> _]; [lia|].
    rewrite Z.sub_diag. simpl.
    assert (m2 < m1)%positive as Hn by (unfold Pos.lt, Pos.compare; done).
    lia.
  - change (e2 < e1) in He. rewrite Z.min_r by lia.
    destruct (shl_align_value m1 e1 e2) as [-> _]; [lia|].
    destruct (shl_align_value m2 e2 e2) as [-> _]; [lia|].
    rewrite Z.sub_diag, Z.pow_0_r.
    pose proof (bounded_digits _ _ H2).
    pose proof (bounded_emin _ _ H2).
    pose proof (bounded_normal _ _ H1 ltac:(lia)) as Hn.
    assert (2 ^ 1 <= 2 ^ (e1 - e2)) by (apply Z.pow_le_mono_r; lia).
    assert (2 ^ bits = 2 ^ (bits - 1) * 2 ^ 1)
      by (rewrite <- Z.pow_add_r by lia; f_equal; lia).
    nia.
Qed.
End Rounding.

Local Close Scope Z_scope.

(** ** Signs of the binary64 operations *)

Lemma Prim2SF_zero : Prim2SF 0%float = S754_zero false.
Proof. reflexivity. Qed.

Lemma Prim2SF_infinity : Prim2SF infinity = S754_infinity false.
Proof. reflexivity. Qed.

Lemma ltb_zero_class x : (x <? 0)%float = negb (sf_nn (Prim2SF x)).
Proof.
  rewrite FloatAxioms.ltb_spec, Prim2SF_zero. by destruct (Prim2SF x) as [[]|[]| |[] ? ?].
Qed.

Lemma leb_zero_class x : (0 <=? x)%float = sf_ge0 (Prim2SF x).
Proof.
  rewrite FloatAxioms.leb_spec, Prim2SF_zero. by destruct (Prim2SF x) as [[]|[]| |[] ? ?].
Qed.

Lemma zero_ltb_class x : (0 <? x)%float = sf_pos (Prim2SF x).
Proof.
  rewrite FloatAxioms.ltb_spec, Prim2SF_zero. by destruct (Prim2SF x) as [[]|[]| |[] ? ?].
Qed.

Lemma eqb_zero_class x : (x =? 0)%float = sf_zero (Prim2SF x).
Proof.
  rewrite FloatAxioms.eqb_spec, Prim2SF_zero. by destruct (Prim2SF x) as [[]|[]| |[] ? ?].
Qed.

Lemma ltb_infinity_class x :
  (x <? infinity)%float =
    match Prim2SF x with
    | S754_nan | S754_infinity false => false
    | _ => true
    end.
Proof.
  rewrite FloatAxioms.ltb_spec, Prim2SF_infinity.
  by destruct (Prim2SF x) as [[]|[]| |[] ? ?].
Qed.

Lemma prec_pos : (0 < prec)%Z.
Proof. reflexivity. Qed.

Lemma SFadd_ge0 x y :
  valid_binary x = true → valid_binary y = true →
  sf_ge0 x = true → sf_pos y = true → sf_pos (SF64add x y) = true.
Proof.
  intros Vx Vy Hx Hy.
  destruct x as [sx|[]| |[] mx ex], y as [sy|[]| |[] my ey]; try done.
  unfold SF64add, SFadd. simpl in Vx, Vy.
  pose proof (bounded_emin _ _ _ _ Vx). pose proof (bounded_emin _ _ _ _ Vy).
  cbn [cond_Zopp].
  change (binary_normalize prec emax
            (Z.pos (fst (shl_align mx ex (Z.min ex ey))) +
             Z.pos (fst (shl_align my ey (Z.min ex ey)))) (Z.min ex ey) false)
    with (binary_round prec emax false
            (fst (shl_align mx ex (Z.min ex ey)) +
             fst (shl_align my ey (Z.min ex ey))) (Z.min ex ey)).
  pose proof (binary_round_nonzero prec emax prec_pos false
                (fst (shl_align mx ex (Z.min ex ey)) +
                 fst (shl_align my ey (Z.min ex ey))) (Z.min ex ey)
                ltac:(lia)) as Hr.
  by destruct (binary_round _ _ _ _ _) as [|[]| |[] ? ?].
Qed.

Lemma SFadd_nn x y :
  valid_binary x = true → valid_binary y = true →
  sf_nn x = true → sf_nn y = true → sf_nn (SF64add x y) = true.
Proof.
  intros Vx Vy Hx Hy.
  destruct x as [sx|[]| |[] mx ex], y as [sy|[]| |[] my ey]; try done;
    try (by destruct sx, sy); try (by destruct sx); try (by destruct sy).
  assert (sf_pos (SF64add (S754_finite false mx ex) (S754_finite false my ey))
          = true) as H by (by apply SFadd_ge0).
  by destruct (SF64add _ _) as [|[]| |[] ? ?].
Qed.

Lemma SFcompare_finite m1 e1 m2 e2 :
  SFcompare (S754_finite false m1 e1) (S754_finite false m2 e2) =
    Some match (e1 ?= e2)%Z with
         | Lt => Lt
         | Gt => Gt
         | Eq => Pos.compare_cont Eq m1 m2
         end.
Proof. reflexivity. Qed.

(** A difference [x - y] of operands that are not negative, when [x < y] is
    false. *)
Lemma SFsub_finite mx ex my ey :
  bounded prec emax mx ex = true → bounded prec emax my ey = true →
  SFltb (S754_finite false mx ex) (S754_finite false my ey) = false →
  let r := SF64sub (S754_finite false mx ex) (S754_finite false my ey) in
  r = S754_zero false ∨ sf_pos r = true.
Proof.
  intros Vx Vy Hlt r. unfold r, SF64sub, SFsub. cbn [cond_Zopp].
  unfold SFltb in Hlt. rewrite SFcompare_finite in Hlt.
  pose proof (aligned_order prec emax prec_pos mx ex my ey Vx Vy) as Hord.
  destruct (match (ex ?= ey)%Z with
            | Lt => Lt | Gt => Gt | Eq => Pos.compare_cont Eq mx my
            end) eqn:Hc; [| done |].
  - specialize (Hord ltac:(done)).
    pose proof (bounded_emin _ _ _ _ Vx). pose proof (bounded_emin _ _ _ _ Vy).
    destruct (binary_normalize_nonneg prec emax prec_pos
                (Z.pos (fst (shl_align mx ex (Z.min ex ey))) -
                 Z.pos (fst (shl_align my ey (Z.min ex ey))))
                (Z.min ex ey) ltac:(lia) ltac:(lia)) as [[-> _]|[Hr _]];
      [by left|right].
    by destruct (binary_normalize _ _ _ _ _) as [|[]| |[] ? ?].
  - specialize (Hord ltac:(done)).
    pose proof (bounded_emin _ _ _ _ Vx). pose proof (bounded_emin _ _ _ _ Vy).
    destruct (binary_normalize_nonneg prec emax prec_pos
                (Z.pos (fst (shl_align mx ex (Z.min ex ey))) -
                 Z.pos (fst (shl_align my ey (Z.min ex ey))))
                (Z.min ex ey) ltac:(lia) ltac:(lia)) as [[-> _]|[Hr _]];
      [by left|right].
    by destruct (binary_normalize _ _ _ _ _) as [|[]| |[] ? ?].
Qed.

Lemma SFsub_nn x y :
  valid_binary x = true → valid_binary y = true →
  sf_nn x = true → sf_nn y = true → SFltb x y = false →
  sf_nn (SF64sub x y) = true.
Proof.
  intros Vx Vy Hx Hy Hlt.
  destruct x as [sx|[]| |[] mx ex], y as [sy|[]| |[] my ey]; try done;
    try (by destruct sx, sy); try (by destruct sx); try (by destruct sy).
  destruct (SFsub_finite mx ex my ey Vx Vy Hlt) as [->|H]; [done|].
  by destruct (SF64sub _ _) as [|[]| |[] ? ?].
Qed.

Lemma SFsub_ge0 x y :
  valid_binary x = true → valid_binary y = true →
  sf_ge0 x = true → sf_amount y = true → SFltb x y = false →
  sf_ge0 (SF64sub x y) = true.
Proof.
  intros Vx Vy Hx Hy Hlt.
  destruct x as [sx|[]| |[] mx ex], y as [sy|[]| |[] my ey]; try done;
    try (by destruct sx, sy); try (by destruct sx); try (by destruct sy).
  destruct (SFsub_finite mx ex my ey Vx Vy Hlt) as [->|H]; [done|].
  by destruct (SF64sub _ _) as [|[]| |[] ? ?].
Qed.

Lemma SFmul_nn x y :
  sf_nn x = true → sf_nn y = true → sf_nn (SF64mul x y) = true.
Proof.
  intros Hx Hy.
  destruct x as [sx|[]| |[] mx ex], y as [sy|[]| |[] my ey]; try done.
  unfold SF64mul, SFmul. cbn [xorb].
  pose proof (binary_round_aux_signed prec emax false
                (Z.pos (mx * my)) (ex + ey) loc_Exact ltac:(lia)) as H.
  by destruct (binary_round_aux _ _ _ _ _ _) as [|[]| |[] ? ?].
Qed.

Lemma SFdiv_core_nonneg m1 e1 m2 e2 :
  (0 <= (SFdiv_core_binary prec emax (Z.pos m1) e1 (Z.pos m2) e2).1.1)%Z.
Proof.
  unfold SFdiv_core_binary.
  set (s := (e1 - e2 - _)%Z).
  set (m' := match s with
             | Z.pos _ => Z.shiftl (Z.pos m1) s
             | Z0 => Z.pos m1
             | Z.neg _ => 0%Z
             end).
  assert (0 <= m')%Z as Hm'.
  { unfold m'. destruct s; [lia| |lia]. apply Z.shiftl_nonneg. lia. }
  pose proof (Z_div_mod m' (Z.pos m2) ltac:(lia)) as Hdm.
  destruct (Z.div_eucl m' (Z.pos m2)) as [q r]. cbn [fst].
  destruct Hdm as [Hq Hr]. nia.
Qed.

Lemma SFdiv_nn x y :
  sf_nn x = true → sf_plus y = true → sf_nn (SF64div x y) = true.
Proof.
  intros Hx Hy.
  destruct x as [sx|[]| |[] mx ex], y as [[]|[]| |[] my ey]; try done;
    try (by destruct sx).
  unfold SF64div, SFdiv. cbn [xorb].
  pose proof (SFdiv_core_nonneg mx ex my ey) as Hq.
  destruct (SFdiv_core_binary _ _ _ _ _ _) as [[mz ez] lz]. cbn [fst] in Hq.
  pose proof (binary_round_aux_signed prec emax false mz ez lz Hq).
  by destruct (binary_round_aux _ _ _ _ _ _) as [|[]| |[] ? ?].
Qed.

Lemma SFsub_self x :
  sf_amount x = true → SF64sub x x = S754_zero false.
Proof.
  destruct x as [[]|[]| |[] mx ex]; try done. intros _.
  unfold SF64sub, SFsub. cbn [cond_Zopp]. by rewrite Z.sub_diag.
Qed.

Lemma SFsub_lt x y :
  valid_binary x = true → valid_binary y = true →
  sf_ge0 x = true → sf_amount y = true → SFltb y x = true →
  sf_pos (SF64sub x y) = true.
Proof.
  intros Vx Vy Hx Hy Hlt.
  destruct x as [sx|[]| |[] mx ex], y as [sy|[]| |[] my ey]; try done;
    try (by destruct sx, sy); try (by destruct sx); try (by destruct sy).
  unfold SFltb in Hlt. rewrite SFcompare_finite in Hlt.
  pose proof (aligned_order_strict prec emax prec_pos mx ex my ey Vx Vy)
    as Hord.
  destruct (match (ey ?= ex)%Z with
            | Lt => Lt | Gt => Gt | Eq => Pos.compare_cont Eq my mx
            end) eqn:Hc; try done.
  specialize (Hord eq_refl).
  pose proof (bounded_emin _ _ _ _ Vx). pose proof (bounded_emin _ _ _ _ Vy).
  unfold SF64sub, SFsub. cbn [cond_Zopp].
  destruct (binary_normalize_nonneg prec emax prec_pos
              (Z.pos (fst (shl_align mx ex (Z.min ex ey))) -
               Z.pos (fst (shl_align my ey (Z.min ex ey))))
              (Z.min ex ey) ltac:(lia) ltac:(lia)) as [[_ Hz]|[Hr _]];
    [lia|].
  by destruct (binary_normalize _ _ _ _ _) as [|[]| |[] ? ?].
Qed.

(** ** The same, on the primitive numbers *)

Lemma not_negative_class x : Num.not_negative x ↔ sf_nn (Prim2SF x) = true.
Proof.
  unfold Num.not_negative. rewrite ltb_zero_class.
  by destruct (sf_nn (Prim2SF x)).
Qed.

Lemma ge0_class x : Num.ge0 x ↔ sf_ge0 (Prim2SF x) = true.
Proof. unfold Num.ge0. by rewrite leb_zero_class. Qed.

Lemma positive_class x : Num.positive x ↔ sf_pos (Prim2SF x) = true.
Proof. unfold Num.positive. by rewrite zero_ltb_class. Qed.

Lemma amount_ok_class x : Num.amount_ok x ↔ sf_amount (Prim2SF x) = true.
Proof.
  unfold Num.amount_ok. rewrite leb_zero_class, ltb_infinity_class.
  destruct (Prim2SF x) as [[]|[]| |[] ? ?]; simpl; intuition congruence.
Qed.

Lemma not_negative_add x y :
  Num.not_negative x → Num.not_negative y → Num.not_negative (x + y)%float.
Proof.
  rewrite !not_negative_class, add_spec.
  apply SFadd_nn; apply Prim2SF_valid.
Qed.

Lemma not_negative_sub x y :
  Num.not_negative x → Num.not_negative y → (x <? y)%float = false →
  Num.not_negative (x - y)%float.
Proof.
  rewrite !not_negative_class, sub_spec, FloatAxioms.ltb_spec.
  apply SFsub_nn; apply Prim2SF_valid.
Qed.

Lemma not_negative_mul x y :
  Num.not_negative x → Num.not_negative y → Num.not_negative (x * y)%float.
Proof. rewrite !not_negative_class, mul_spec. apply SFmul_nn. Qed.

Lemma positive_add_l x y : Num.positive x → Num.ge0 y → Num.positive (x + y)%float.
Proof.
  rewrite !positive_class, ge0_class, add_spec. intros Hx Hy.
  pose proof (SFadd_ge0 _ _ (Prim2SF_valid y) (Prim2SF_valid x) Hy Hx) as H.
  revert H Hx Hy. unfold SF64add.
  destruct (Prim2SF x) as [[]|[]| |[] mx ex],
    (Prim2SF y) as [[]|[]| |[] my ey]; try done.
  unfold SFadd. cbn [cond_Zopp]. by rewrite Z.add_comm, Z.min_comm.
Qed.

Lemma positive_add_r x y : Num.ge0 x → Num.positive y → Num.positive (x + y)%float.
Proof.
  rewrite !positive_class, ge0_class, add_spec.
  apply SFadd_ge0; apply Prim2SF_valid.
Qed.

Lemma ge0_sub x y :
  Num.ge0 x → Num.amount_ok y → (x <? y)%float = false → Num.ge0 (x - y)%float.
Proof.
  rewrite !ge0_class, amount_ok_class, sub_spec, FloatAxioms.ltb_spec.
  apply SFsub_ge0; apply Prim2SF_valid.
Qed.

Lemma positive_sub x y :
  Num.ge0 x → Num.amount_ok y → (y <? x)%float = true → Num.positive (x - y)%float.
Proof.
  rewrite positive_class, ge0_class, amount_ok_class, sub_spec,
    FloatAxioms.ltb_spec.
  apply SFsub_lt; apply Prim2SF_valid.
Qed.

Lemma ge0_nonzero x : Num.ge0 x → (x =? 0)%float = false → Num.positive x.
Proof.
  rewrite ge0_class, positive_class, eqb_zero_class.
  by destruct (Prim2SF x) as [[]|[]| |[] ? ?].
Qed.

Lemma sub_self_zero x : Num.amount_ok x → (x - x =? 0)%float = true.
Proof.
  rewrite amount_ok_class, eqb_zero_class, sub_spec. intros H.
  change (SFsub prec emax) with SF64sub. by rewrite SFsub_self.
Qed.

Lemma positive_ge0 x : Num.positive x → Num.ge0 x.
Proof.
  rewrite positive_class, ge0_class.
  by destruct (Prim2SF x) as [[]|[]| |[] ? ?].
Qed.

Lemma ge0_not_negative x : Num.ge0 x → Num.not_negative x.
Proof.
  rewrite not_negative_class, ge0_class.
  by destruct (Prim2SF x) as [[]|[]| |[] ? ?].
Qed.

Lemma amount_ok_ge0 x : Num.amount_ok x → Num.ge0 x.
Proof.
  rewrite amount_ok_class, ge0_class.
  by destruct (Prim2SF x) as [[]|[]| |[] ? ?].
Qed.

Lemma sf_signed_ge0 f : sf_signed false f → sf_ge0 f = true.
Proof. by destruct f as [[]|[]| |[] ? ?]. Qed.

Lemma SFadd_ge0_ge0 x y :
  valid_binary x = true → valid_binary y = true →
  sf_ge0 x = true → sf_ge0 y = true → sf_ge0 (SF64add x y) = true.
Proof.
  intros Vx Vy Hx Hy.
  destruct x as [sx|[]| |[] mx ex], y as [sy|[]| |[] my ey]; try done;
    try (by destruct sx, sy); try (by destruct sx); try (by destruct sy).
  assert (sf_pos (SF64add (S754_finite false mx ex) (S754_finite false my ey))
          = true) as H by (by apply SFadd_ge0).
  by destruct (SF64add _ _) as [|[]| |[] ? ?].
Qed.

Lemma SFmul_ge0 x y :
  sf_amount x = true → sf_amount y = true → sf_ge0 (SF64mul x y) = true.
Proof.
  intros Hx Hy.
  destruct x as [sx|[]| |[] mx ex], y as [sy|[]| |[] my ey]; try done.
  unfold SF64mul, SFmul. cbn [xorb].
  apply sf_signed_ge0.
  apply (binary_round_aux_signed prec emax false
           (Z.pos (mx * my)) (ex + ey) loc_Exact). lia.
Qed.

Lemma SFdiv_ge0 x y :
  sf_ge0 x = true → sf_amount y = true → sf_pos y = true →
  sf_ge0 (SF64div x y) = true.
Proof.
  intros Hx Hy Hp.
  destruct x as [sx|[]| |[] mx ex], y as [[]|[]| |[] my ey]; try done.
  unfold SF64div, SFdiv. cbn [xorb].
  pose proof (SFdiv_core_nonneg mx ex my ey) as Hq.
  destruct (SFdiv_core_binary _ _ _ _ _ _) as [[mz ez] lz]. cbn [fst] in Hq.
  apply sf_signed_ge0.
  apply (binary_round_aux_signed prec emax false mz ez lz Hq).
Qed.

(** Two numbers are ordered one way or the other, or are equal. *)
Lemma SFcompare_total x y :
  sf_ge0 x = true → sf_ge0 y = true →
  SFltb x y = false → SFeqb x y = false → SFltb y x = true.
Proof.
  intros Hx Hy. unfold SFltb, SFeqb.
  destruct x as [sx|[]| |[] mx ex], y as [sy|[]| |[] my ey]; try done.
  rewrite !SFcompare_finite.
  rewrite (Z.compare_antisym ex ey).
  destruct (ex ?= ey)%Z; simpl; try done.
  replace (Pos.compare_cont Eq my mx)
    with (CompOpp (Pos.compare_cont Eq mx my))
    by apply (Pos.compare_cont_antisym mx my Eq).
  by destruct (Pos.compare_cont Eq mx my).
Qed.

Lemma ge0_add x y : Num.ge0 x → Num.ge0 y → Num.ge0 (x + y)%float.
Proof.
  rewrite !ge0_class, add_spec. apply SFadd_ge0_ge0; apply Prim2SF_valid.
Qed.

Lemma ge0_mul x y :
  Num.amount_ok x → Num.amount_ok y → Num.ge0 (x * y)%float.
Proof. rewrite !amount_ok_class, ge0_class, mul_spec. apply SFmul_ge0. Qed.

Lemma ge0_div x y :
  Num.ge0 x → Num.amount_ok y → Num.positive y → Num.ge0 (x / y)%float.
Proof.
  rewrite !ge0_class, amount_ok_class, positive_class, div_spec.
  apply SFdiv_ge0.
Qed.

Lemma ltb_total x y :
  Num.ge0 x → Num.ge0 y → (x <? y)%float = false → (x =? y)%float = false →
  (y <? x)%float = true.
Proof.
  rewrite !ge0_class, !FloatAxioms.ltb_spec, FloatAxioms.eqb_spec.
  apply SFcompare_total.
Qed.

Lemma ge0_zero : Num.ge0 Num.zero.
Proof. reflexivity. Qed.

(** ** Frame rules *)

Section Frame.
Context {A : Type} (f : State → A).

Lemma preserves_ret {B} (b : B) : preserves f (ret b).
Proof. done. Qed.

Lemma preserves_throw {B} e : preserves f (@throw B e).
Proof. done. Qed.

Lemma preserves_gets {B} (g : State → B) : preserves f (gets g).
Proof. done. Qed.

Lemma preserves_deref {B} (o : option B) : preserves f (deref o).
Proof. by destruct o. Qed.

Lemma preserves_modify g : (∀ s, f (g s) = f s) → preserves f (modify g).
Proof. intros H s. apply H. Qed.

Lemma preserves_bind {B C} (m : M B) (k : B → M C) :
  preserves f m → (∀ b, preserves f (k b)) → preserves f (bind m k).
Proof.
  intros Hm Hk s. unfold bind. specialize (Hm s).
  destruct (m s) as [s1 [b|e|]]; simpl in *; [|done|done].
  by rewrite Hk.
Qed.
End Frame.

Ltac frame_step :=
  first
    [ apply preserves_bind; [|intros ?]
    | apply preserves_ret
    | apply preserves_throw
    | apply preserves_gets
    | apply preserves_deref
    | apply preserves_modify; intros []; reflexivity
    | match goal with
      | |- preserves _ (if ?b then _ else _) => destruct b
      | |- preserves _ (match ?o with Some _ => _ | None => _ end) => destruct o
      end ].

Ltac frame := repeat frame_step.

(** The helpers of the ledger never write a wallet, a user, the session, a
    PIN record or a quote. *)
Section HelperFrames.
Context {A : Type} (f : State → A).
Hypothesis f_entropy : ∀ g s, f (set_entropy g s) = f s.
Hypothesis f_notifications : ∀ g s, f (set_notifications g s) = f s.
Hypothesis f_emailLogs : ∀ g s, f (set_emailLogs g s) = f s.
Hypothesis f_adminLog : ∀ g s, f (set_adminLog g s) = f s.

Lemma generateId_preserves : preserves f generateId.
Proof. intros s. apply f_entropy. Qed.

Lemma addNotification_preserves ty a asset c :
  preserves f (addNotification ty a asset c).
Proof.
  unfold addNotification, now.
  apply preserves_bind; [apply generateId_preserves|intros ?].
  apply preserves_bind; [apply preserves_gets|intros ?].
  apply preserves_modify. intros; apply f_notifications.
Qed.

Lemma sendEmailNotification_preserves u ty :
  preserves f (sendEmailNotification u ty).
Proof.
  unfold sendEmailNotification, now.
  apply preserves_bind; [apply preserves_gets|intros us].
  destruct (find_user_by_id u us); [|apply preserves_ret].
  apply preserves_bind; [apply preserves_gets|intros ?].
  apply preserves_modify. intros; apply f_emailLogs.
Qed.

Lemma logAdminAction_preserves a : preserves f (logAdminAction a).
Proof. apply preserves_modify. intros; apply f_adminLog. Qed.

Lemma verifyTransferPin_preserves u pin :
  preserves f (verifyTransferPin u pin).
Proof.
  unfold verifyTransferPin, now.
  apply preserves_bind; [apply preserves_gets|intros ps].
  destruct (ps !! u) as [r|]; [|apply preserves_throw].
  destruct (negb (truthy_str (pinHash r))); [apply preserves_throw|].
  apply preserves_bind; [apply preserves_gets|intros ?].
  apply preserves_bind; [apply logAdminAction_preserves|intros ?].
  destruct (negb _); [|apply preserves_ret].
  apply preserves_bind; [apply sendEmailNotification_preserves|intros ?].
  apply preserves_throw.
Qed.

Lemma requirePin_preserves pin : preserves f (requirePin pin).
Proof.
  unfold requirePin.
  apply preserves_bind; [apply preserves_gets|intros cu].
  apply preserves_bind; [apply preserves_deref|intros u].
  apply preserves_bind; [apply preserves_gets|intros hp].
  destruct hp; [|apply preserves_ret].
  destruct (negb (truthy_str pin)); [apply preserves_throw|].
  apply preserves_bind; [apply verifyTransferPin_preserves|intros ?].
  apply preserves_ret.
Qed.
End HelperFrames.

Lemma alter_Some {V} (f : V → V) (k : string) (m : gmap string V) (v : V) :
  m !! k = Some v → alter f k m = <[k := f v]> m.
Proof.
  intros H. apply map_eq. intros i.
  rewrite lookup_alter, lookup_insert.
  repeat case_decide; subst; try done. by rewrite H.
Qed.

Lemma createTransaction_ok s ty asset amount cp userId meta uid :
  txOwner userId s = Some uid →
  createTransaction ty asset amount cp userId meta s =
    (logged (newTx s uid ty asset amount cp meta) s,
     Ok (newTx s uid ty asset amount cp meta)).
Proof.
  unfold txOwner, createTransaction, bind, generateId, addNotification, now,
    gets, modify, ret, deref.
  destruct (truthy_str userId) eqn:Hu.
  - intros ->. simpl. done.
  - destruct s as [[u|] ? ? ? ? ? ? ? ? ? ?]; simpl; [|done].
    intros [= <-]. done.
Qed.


Lemma bind_ok {A B} (m : M A) (k : A → M B) s s1 a :
  m s = (s1, Ok a) → bind m k s = k a s1.
Proof. intros H. unfold bind. by rewrite H. Qed.

Lemma bind_fail {A B} (m : M A) (k : A → M B) s s1 e :
  m s = (s1, Throw e) → bind m k s = (s1, Throw e).
Proof. intros H. unfold bind. by rewrite H. Qed.

Lemma bind_gets {A B} (g : State → A) (k : A → M B) s :
  bind (gets g) k s = k (g s) s.
Proof. done. Qed.

Lemma bind_modify {B} (g : State → State) (k : M B) s :
  (modify g ;;; k) s = k (g s).
Proof. done. Qed.

(** ** Transfer PIN *)

(** C10: [createPinEntry] writes a fresh record with no hash and
    [mustSetPin = true] whatever the store held for that user: an active PIN
    is dropped, the user is back in the must-set state, and neither a mail,
    a notification nor an audit entry is produced. *)
Theorem createPinEntry_overwrites (s : State) (userId pin : string) :
  let fresh := mkPin userId None (clock s) true None None in
  let s' := (createPinEntry userId s).1 in
  (createPinEntry userId s).2 = Ok fresh ∧
  pinStorage s' = <[userId := fresh]> (pinStorage s) ∧
  pinStorage s' !! userId = Some fresh ∧
  hasTransferPin userId s' = false ∧
  mustSetTransferPin userId s' = true ∧
  (verifyTransferPin userId pin s').2 = Throw (Error "Transfer PIN not set") ∧
  emailLogs s' = emailLogs s ∧
  notifications s' = notifications s ∧
  adminLog s' = adminLog s.
Proof.
  intros fresh s'.
  assert (createPinEntry userId s
          = (set_pinStorage (insert userId fresh) s, Ok fresh)) as Hrun
    by reflexivity.
  unfold s'. rewrite Hrun. cbn [fst snd].
  assert (pinStorage (set_pinStorage (insert userId fresh) s) !! userId
          = Some fresh) as Hl by apply lookup_insert_eq.
  split_and!; try done.
  - unfold hasTransferPin. by rewrite Hl.
  - unfold mustSetTransferPin. by rewrite Hl.
  - unfold verifyTransferPin, bind, gets. by rewrite Hl.
Qed.

(** ** [hashPassword] is injective *)

Local Open Scope N_scope.

Lemma b64_char_not_pad n : n < 64 → b64_char n ≠ "="%char.
Proof.
  intros Hn. destruct n as [|p]; [by vm_compute|].
  do 6 (destruct p as [p|p|]; try (by vm_compute)); exfalso; lia.
Qed.

Lemma b64_char_inj n m : n < 64 → m < 64 → b64_char n = b64_char m → n = m.
Proof.
  intros Hn Hm.
  assert (∀ k, k < 64 →
            N_of_ascii (b64_char k) =
              if k <? 26 then k + 65 else if k <? 52 then k + 71
              else if k <? 62 then k - 4 else if k =? 62 then 43 else 47)
    as Hcode.
  { intros k Hk. destruct k as [|p]; [by vm_compute|].
    do 6 (destruct p as [p|p|]; try (by vm_compute)); exfalso; lia. }
  intros Heq. apply (f_equal N_of_ascii) in Heq.
  rewrite !Hcode in Heq by done. revert Heq.
  repeat match goal with
         | |- context [?a <? ?b] => destruct (N.ltb_spec a b)
         | |- context [?a =? ?b] => destruct (N.eqb_spec a b)
         end; lia.
Qed.

Lemma sextets_decomp n :
  n = 64 * (64 * (64 * (n / 262144) + (n / 4096) mod 64) + (n / 64) mod 64)
      + n mod 64.
Proof.
  assert (n / 4096 = n / 64 / 64) as H1 by (by rewrite N.Div0.div_div).
  assert (n / 262144 = n / 4096 / 64) as H2 by (by rewrite N.Div0.div_div).
  pose proof (N.div_mod n 64). pose proof (N.div_mod (n / 64) 64).
  pose proof (N.div_mod (n / 4096) 64). lia.
Qed.

Lemma sextets_inj n m :
  n / 262144 = m / 262144 → (n / 4096) mod 64 = (m / 4096) mod 64 →
  (n / 64) mod 64 = (m / 64) mod 64 → n mod 64 = m mod 64 → n = m.
Proof.
  intros H1 H2 H3 H4.
  rewrite (sextets_decomp n), (sextets_decomp m). congruence.
Qed.

Lemma sextet_bounds n :
  n < 16777216 →
  n / 262144 < 64 ∧ (n / 4096) mod 64 < 64 ∧ (n / 64) mod 64 < 64 ∧
  n mod 64 < 64.
Proof.
  intros Hn. split_and!; try (apply N.mod_lt; lia).
  apply N.Div0.div_lt_upper_bound. lia.
Qed.

(** Equal base-64 characters come from equal 24-bit groups. *)
Lemma group_inj n m :
  n < 16777216 → m < 16777216 →
  b64_char (n / 262144) = b64_char (m / 262144) →
  b64_char ((n / 4096) mod 64) = b64_char ((m / 4096) mod 64) →
  (n / 64) mod 64 = (m / 64) mod 64 →
  n mod 64 = m mod 64 →
  n = m.
Proof.
  intros Hn Hm E1 E2 E3 E4.
  destruct (sextet_bounds n Hn) as (?&?&?&?).
  destruct (sextet_bounds m Hm) as (?&?&?&?).
  apply sextets_inj; try done; by apply b64_char_inj.
Qed.

Lemma low_sextet_one a : (a * 65536 / 64) mod 64 = 0 ∧ (a * 65536) mod 64 = 0.
Proof.
  split.
  - replace (a * 65536) with (a * 1024 * 64) by lia.
    rewrite N.div_mul by lia.
    replace (a * 1024) with (a * 16 * 64) by lia. apply N.Div0.mod_mul.
  - replace (a * 65536) with (a * 1024 * 64) by lia. apply N.Div0.mod_mul.
Qed.

Lemma low_sextet_two a b : (a * 65536 + b * 256) mod 64 = 0.
Proof.
  replace (a * 65536 + b * 256) with ((a * 1024 + b * 4) * 64) by lia.
  apply N.Div0.mod_mul.
Qed.

Lemma btoa_bytes_inj l1 l2 :
  is_bytes l1 → is_bytes l2 → btoa_bytes l1 = btoa_bytes l2 → l1 = l2.
Proof.
  remember (length l1) as k eqn:Hk. revert l1 l2 Hk.
  induction k as [k IH] using lt_wf_ind. intros l1 l2 Hk H1 H2.
  assert (∀ n, n < 16777216 → "="%char ≠ b64_char ((n / 64) mod 64))
    as Hpad3.
  { intros n Hn E. symmetry in E. revert E.
    apply b64_char_not_pad. by destruct (sextet_bounds n Hn) as (?&?&?&?). }
  assert (∀ n, n < 16777216 → "="%char ≠ b64_char (n mod 64)) as Hpad4.
  { intros n Hn E. symmetry in E. revert E.
    apply b64_char_not_pad. by destruct (sextet_bounds n Hn) as (?&?&?&?). }
  destruct l1 as [|a1 [|b1 [|c1 r1]]], l2 as [|a2 [|b2 [|c2 r2]]];
    cbn [btoa_bytes app]; intros Heq; try done;
    unfold is_bytes in *;
    repeat match goal with
           | H : Forall _ (_ :: _) |- _ => apply Forall_cons in H as [? H]
           end;
    cbv beta in *.
  - (* one byte against one byte *)
    injection Heq as E1 E2.
    destruct (low_sextet_one a1) as [L1 L1'].
    destruct (low_sextet_one a2) as [L2 L2'].
    assert (a1 * 65536 = a2 * 65536) as E; [|f_equal; lia].
    apply group_inj; try lia; try done; congruence.
  - injection Heq as _ _ E. exfalso. revert E.
    apply (Hpad3 (a2 * 65536 + b2 * 256)). lia.
  - injection Heq as _ _ E. exfalso. revert E.
    apply (Hpad3 (a2 * 65536 + b2 * 256 + c2)). lia.
  - injection Heq as _ _ E. exfalso. symmetry in E. revert E.
    apply (Hpad3 (a1 * 65536 + b1 * 256)). lia.
  - (* two bytes against two bytes *)
    injection Heq as E1 E2 E3.
    assert (a1 * 65536 + b1 * 256 = a2 * 65536 + b2 * 256) as E.
    { apply group_inj; try lia; try done.
      - assert (a1 * 65536 + b1 * 256 < 16777216) as B1 by lia.
        assert (a2 * 65536 + b2 * 256 < 16777216) as B2 by lia.
        destruct (sextet_bounds _ B1) as (?&?&?&?).
        destruct (sextet_bounds _ B2) as (?&?&?&?).
        by apply b64_char_inj.
      - by rewrite !low_sextet_two. }
    assert (a1 = a2 ∧ b1 = b2) as [-> ->] by lia. done.
  - injection Heq as _ _ _ E. exfalso. revert E.
    apply (Hpad4 (a2 * 65536 + b2 * 256 + c2)). lia.
  - injection Heq as _ _ E. exfalso. symmetry in E. revert E.
    apply (Hpad3 (a1 * 65536 + b1 * 256 + c1)). lia.
  - injection Heq as _ _ _ E. exfalso. symmetry in E. revert E.
    apply (Hpad4 (a1 * 65536 + b1 * 256 + c1)). lia.
  - (* a full group against a full group *)
    injection Heq as E1 E2 E3 E4 Erest.
    assert (a1 * 65536 + b1 * 256 + c1 < 16777216) as B1 by lia.
    assert (a2 * 65536 + b2 * 256 + c2 < 16777216) as B2 by lia.
    assert (a1 * 65536 + b1 * 256 + c1 = a2 * 65536 + b2 * 256 + c2) as E.
    { destruct (sextet_bounds _ B1) as (?&?&?&?).
      destruct (sextet_bounds _ B2) as (?&?&?&?).
      apply group_inj; try done; by apply b64_char_inj. }
    assert (a1 = a2 ∧ b1 = b2 ∧ c1 = c2) as (-> & -> & ->) by lia.
    do 3 f_equal.
    apply (IH (length r1)); try done. subst k. simpl. lia.
Qed.

Local Close Scope N_scope.

Lemma btoa_inj s1 s2 : btoa s1 = btoa s2 → s1 = s2.
Proof.
  unfold btoa. intros H.
  apply (f_equal list_ascii_of_string) in H.
  rewrite !list_ascii_of_string_of_list_ascii in H.
  apply btoa_bytes_inj in H.
  - rewrite <- (string_of_list_ascii_of_string s1),
      <- (string_of_list_ascii_of_string s2).
    f_equal. revert H.
    generalize (list_ascii_of_string s1) (list_ascii_of_string s2).
    induction l as [|c l IH]; intros [|c' l']; simpl; try done.
    intros [= Hc Hl]. f_equal; [|by apply IH].
    by rewrite <- (ascii_N_embedding c), <- (ascii_N_embedding c'), Hc.
  - apply Forall_forall. intros b Hb. apply list_elem_of_In in Hb.
    apply in_map_iff in Hb as (c & <- & _). apply N_ascii_bounded.
  - apply Forall_forall. intros b Hb. apply list_elem_of_In in Hb.
    apply in_map_iff in Hb as (c & <- & _). apply N_ascii_bounded.
Qed.

Lemma hashPassword_inj p1 p2 : hashPassword p1 = hashPassword p2 → p1 = p2.
Proof.
  unfold hashPassword. intros H.
  apply (f_equal list_ascii_of_string) in H.
  rewrite !list_ascii_of_string_of_list_ascii in H.
  apply (f_equal (@rev ascii)) in H. rewrite !rev_involutive in H.
  apply btoa_inj.
  by rewrite <- (string_of_list_ascii_of_string (btoa p1)),
    <- (string_of_list_ascii_of_string (btoa p2)), H.
Qed.

Lemma hashPassword_nonempty pin :
  pin_format_ok pin = true → hashPassword pin ≠ "".
Proof.
  intros Hok Hhash.
  assert (pin = "") as -> by (by apply hashPassword_inj).
  done.
Qed.

Lemma verifyAll_preserves {A} (f : State → A) userId attempts s :
  (∀ g s, f (set_emailLogs g s) = f s) →
  (∀ g s, f (set_adminLog g s) = f s) →
  f (verifyAll userId attempts s) = f s.
Proof.
  intros He Ha. revert s.
  induction attempts as [|pin rest IH]; intros s; simpl; [done|].
  rewrite IH. by apply verifyTransferPin_preserves.
Qed.

Lemma sendEmailNotification_returns s userId type :
  (sendEmailNotification userId type s).2 = Ok tt.
Proof.
  unfold sendEmailNotification, bind, gets, now; simpl.
  by destruct (find_user_by_id userId (users s)).
Qed.

Lemma verifyTransferPin_outcome s userId pin r h :
  pinStorage s !! userId = Some r → pinHash r = Some h → h ≠ "" →
  (verifyTransferPin userId pin s).2 =
    if bool_decide (hashPassword pin = h) then Ok true
    else Throw (Error "Invalid Transfer PIN").
Proof.
  intros Hr Hh Hne.
  unfold verifyTransferPin, bind, gets, now, logAdminAction, modify.
  rewrite Hr, Hh. simpl.
  destruct (String.eqb_spec h "") as [->|_]; [done|]. simpl.
  repeat case_bool_decide; simplify_eq; simpl; try done.
  match goal with
  | |- context [sendEmailNotification ?a ?b ?c] =>
      pose proof (sendEmailNotification_returns c a b) as He;
      destruct (sendEmailNotification a b c) as [s1 [[]|e|]]
  end; done.
Qed.

Lemma verifyTransferPin_not_set s userId pin :
  (∀ r, pinStorage s !! userId = Some r → truthy_str (pinHash r) = false) →
  verifyTransferPin userId pin s = (s, Throw (Error "Transfer PIN not set")).
Proof.
  intros H. unfold verifyTransferPin, bind, gets.
  destruct (pinStorage s !! userId) as [r|]; [|done].
  by rewrite (H r eq_refl).
Qed.

Lemma withTransferPinHash_pinStorage userId h s :
  pinStorage (withTransferPinHash userId h s) = pinStorage s.
Proof.
  unfold withTransferPinHash. by destruct (find_user_by_id userId (users s)).
Qed.

Lemma setTransferPin_ok s0 s userId pin0 b :
  setTransferPin userId pin0 s0 = (s, Ok b) →
  pin_format_ok pin0 = true ∧
  ∃ r, pinStorage s !! userId = Some r ∧
       pinHash r = Some (hashPassword pin0) ∧ mustSetPin r = false.
Proof.
  unfold setTransferPin.
  destruct (pin_format_ok pin0); [|done]. cbn [negb].
  rewrite bind_gets. destruct (pinStorage s0 !! userId) as [r0|]; [|done].
  unfold now. rewrite bind_gets, bind_modify. unfold writeUser.
  rewrite bind_modify. unfold bind.
  match goal with
  | |- context [sendEmailNotification ?u ?t ?s1] =>
      pose proof (sendEmailNotification_preserves pinStorage
                    (λ _ _, eq_refl) u t s1) as Hps;
      destruct (sendEmailNotification u t s1) as [s2 [[]|e|]]
  end; [|done|done].
  unfold ret. intros [= <- _]. split; [done|].
  simpl in Hps. rewrite Hps, withTransferPinHash_pinStorage. simpl.
  rewrite lookup_insert_eq. by eexists.
Qed.

(** C8: whatever PINs were tried before, a call to [verifyTransferPin]
    leaves the PIN records and the wallets as they were.  It returns [true]
    when the hash of the PIN is the stored hash and throws 'Invalid Transfer
    PIN' when it is not; when the record comes from [setTransferPin], that
    is: it returns [true] for the PIN that was set and throws for any other.
    It throws 'Transfer PIN not set' when no hash is stored. *)
Theorem verifyTransferPin_idempotent (s : State) (userId pin : string)
    (attempts : list string) :
  let outcome := verifyTransferPin userId pin (verifyAll userId attempts s) in
  pinStorage outcome.1 = pinStorage s ∧
  wallets outcome.1 = wallets s ∧
  (∀ r h, pinStorage s !! userId = Some r → mustSetPin r = false →
          pinHash r = Some h → h ≠ "" → hashPassword pin = h →
          outcome.2 = Ok true) ∧
  (∀ r h, pinStorage s !! userId = Some r → pinHash r = Some h → h ≠ "" →
          hashPassword pin ≠ h →
          outcome.2 = Throw (Error "Invalid Transfer PIN")) ∧
  (∀ s0 pin0, setTransferPin userId pin0 s0 = (s, Ok true) →
              (pin = pin0 → outcome.2 = Ok true) ∧
              (pin ≠ pin0 →
               outcome.2 = Throw (Error "Invalid Transfer PIN"))) ∧
  ((∀ r, pinStorage s !! userId = Some r → truthy_str (pinHash r) = false) →
   outcome.2 = Throw (Error "Transfer PIN not set")).
Proof.
  intros outcome. unfold outcome.
  assert (pinStorage (verifyAll userId attempts s) = pinStorage s) as Hpins
    by (by apply verifyAll_preserves).
  assert (∀ r h, pinStorage s !! userId = Some r → pinHash r = Some h →
                 h ≠ "" →
                 (verifyTransferPin userId pin
                    (verifyAll userId attempts s)).2 =
                   if bool_decide (hashPassword pin = h) then Ok true
                   else Throw (Error "Invalid Transfer PIN")) as Hout.
  { intros r h Hr Hh Hne.
    apply (verifyTransferPin_outcome _ _ _ r h); by rewrite ?Hpins. }
  split_and!.
  - by rewrite verifyTransferPin_preserves.
  - rewrite verifyTransferPin_preserves by done.
    by apply verifyAll_preserves.
  - intros r h Hr _ Hh Hne Hpin.
    by rewrite (Hout r h), bool_decide_eq_true_2.
  - intros r h Hr Hh Hne Hpin.
    by rewrite (Hout r h), bool_decide_eq_false_2.
  - intros s0 pin0 Hset.
    destruct (setTransferPin_ok _ _ _ _ _ Hset) as (Hfmt & r & Hr & Hh & _).
    pose proof (hashPassword_nonempty pin0 Hfmt) as Hne.
    rewrite (Hout r _ Hr Hh Hne). split.
    + intros ->. by rewrite bool_decide_eq_true_2.
    + intros Hpin. rewrite bool_decide_eq_false_2; [done|].
      intros Heq. by apply Hpin, hashPassword_inj.
  - intros Hnone. rewrite verifyTransferPin_not_set; [done|].
    by rewrite Hpins.
Qed.

(** After two wrong attempts and a right one, 1234 is still accepted and
    4321 still refused. *)
Lemma verifyTransferPin_idempotent_witness :
  (verifyTransferPin "u1" "1234"
     (verifyAll "u1" ["0000"; "1234"; "9999"] Demo.with_pin)).2 = Ok true ∧
  (verifyTransferPin "u1" "4321"
     (verifyAll "u1" ["0000"; "1234"; "9999"] Demo.with_pin)).2
    = Throw (Error "Invalid Transfer PIN").
Proof.
  split.
  - refine (proj1 (proj1 (proj2 (proj2 (proj2 (proj2
      (verifyTransferPin_idempotent Demo.with_pin "u1" "1234"
         ["0000"; "1234"; "9999"])))))
      (createPinEntry "u1" Demo.start).1 "1234" _) _); reflexivity.
  - refine (proj2 (proj1 (proj2 (proj2 (proj2 (proj2
      (verifyTransferPin_idempotent Demo.with_pin "u1" "4321"
         ["0000"; "1234"; "9999"])))))
      (createPinEntry "u1" Demo.start).1 "1234" _) _);
      [reflexivity|discriminate].
Defined.

(** ** The PIN gate *)

Lemma requirePin_unconfigured s u pin :
  currentUser s = Some u → hasTransferPin (user_id u) s = false →
  requirePin pin s = (s, Ok tt).
Proof.
  intros Hu Hp. unfold requirePin, bind, gets, deref. rewrite Hu. simpl.
  by rewrite Hp.
Qed.

Lemma requirePin_missing s u pin :
  currentUser s = Some u → hasTransferPin (user_id u) s = true →
  truthy_str pin = false →
  requirePin pin s =
    (s, Throw (Error "Transfer PIN required for this transaction")).
Proof.
  intros Hu Hp Hpin. unfold requirePin, bind, gets, deref. rewrite Hu. simpl.
  by rewrite Hp, Hpin.
Qed.

Lemma requirePin_verifies s u pin :
  currentUser s = Some u → hasTransferPin (user_id u) s = true →
  truthy_str pin = true →
  requirePin pin s =
    match verifyTransferPin (user_id u) (default "" pin) s with
    | (s1, Ok _) => (s1, Ok tt)
    | (s1, Throw e) => (s1, Throw e)
    | (s1, Escapes) => (s1, Escapes)
    end.
Proof.
  intros Hu Hp Hpin. unfold requirePin, bind, gets, deref. rewrite Hu. simpl.
  rewrite Hp, Hpin. simpl.
  by destruct (verifyTransferPin _ _ s) as [s1 [b|e|]].
Qed.

(** C7: when the sender has a transfer PIN, [sendMoney] without a PIN throws
    'Transfer PIN required for this transaction' and changes nothing; with a
    PIN it runs [verifyTransferPin] first, hands on the error of a failed
    verification, and starts the transfer only after a successful one, no
    wallet having changed until then; when the sender has no transfer PIN
    the transfer runs directly, whatever [pin] is. *)
Theorem sendMoney_pin_gate (s : State) (u : User) (recipientUsername : string)
    (amount : num) (assetId : string) (pin : option string) :
  currentUser s = Some u →
  (hasTransferPin (user_id u) s = true → truthy_str pin = false →
   sendMoney recipientUsername amount assetId pin s =
     (s, Throw (Error "Transfer PIN required for this transaction"))) ∧
  (hasTransferPin (user_id u) s = true → truthy_str pin = true →
   ∀ s1 r, verifyTransferPin (user_id u) (default "" pin) s = (s1, r) →
     wallets s1 = wallets s ∧ transactions s1 = transactions s ∧
     sendMoney recipientUsername amount assetId pin s =
       match r with
       | Ok _ => sendMoney_transfer recipientUsername amount assetId s1
       | Throw e => (s1, Throw e)
       | Escapes => (s1, Escapes)
       end) ∧
  (hasTransferPin (user_id u) s = false →
   sendMoney recipientUsername amount assetId pin s =
     sendMoney_transfer recipientUsername amount assetId s).
Proof.
  intros Hu. split_and!.
  - intros Hp Hpin. unfold sendMoney, bind.
    by rewrite (requirePin_missing s u).
  - intros Hp Hpin s1 r Hv.
    pose proof (verifyTransferPin_preserves wallets (λ _ _, eq_refl)
                  (λ _ _, eq_refl) (user_id u) (default "" pin) s) as Hw.
    pose proof (verifyTransferPin_preserves transactions (λ _ _, eq_refl)
                  (λ _ _, eq_refl) (user_id u) (default "" pin) s) as Ht.
    rewrite Hv in Hw, Ht. simpl in Hw, Ht. split_and!; [done..|].
    unfold sendMoney, bind. rewrite (requirePin_verifies s u) by done.
    rewrite Hv. by destruct r.
  - intros Hp. unfold sendMoney, bind.
    by rewrite (requirePin_unconfigured s u).
Qed.

(** ** Running the wallet code *)

Lemma getWallet_own s userId (w : Wallet) :
  getWallet userId s = Some w ↔ wallets s !! targetUserId userId s = Some w.
Proof.
  unfold getWallet, walletAt.
  destruct (wallets s !! targetUserId userId s) as [w'|].
  - split; intros [= ->]; done.
  - split; [|done]. by destruct (inherited_key _).
Qed.

Lemma assetsOf_run s userId :
  assetsOf userId s =
    match getWallet userId s with
    | Some (OwnWallet _) => (s, Ok (targetUserId userId s))
    | _ => (s, Throw TypeError)
    end.
Proof. done. Qed.

Lemma dollarOf_run s userId :
  dollarOf userId s =
    match getWallet userId s with
    | Some (OwnWallet _) => (s, Ok (targetUserId userId s))
    | Some BuiltInWallet => (s, Escapes)
    | None => (s, Throw TypeError)
    end.
Proof. done. Qed.

Lemma assetsOf_ok s userId (w : Wallet) :
  getWallet userId s = Some w →
  assetsOf userId s = (s, Ok (targetUserId userId s)).
Proof. intros H. by rewrite assetsOf_run, H. Qed.

Lemma dollarOf_ok s userId (w : Wallet) :
  getWallet userId s = Some w →
  dollarOf userId s = (s, Ok (targetUserId userId s)).
Proof. intros H. by rewrite dollarOf_run, H. Qed.

Lemma bind_esc {A B} (m : M A) (k : A → M B) s s1 :
  m s = (s1, Escapes) → bind m k s = (s1, Escapes).
Proof. intros H. unfold bind. by rewrite H. Qed.

Lemma readWallet_ok s k w :
  wallets s !! k = Some w → readWallet k s = (s, Ok w).
Proof. intros H. unfold readWallet, bind, gets. by rewrite H. Qed.

Lemma readWallet_null s k :
  wallets s !! k = None → readWallet k s = (s, Throw TypeError).
Proof. intros H. unfold readWallet, bind, gets. by rewrite H. Qed.

Lemma updWallet_ok s k f w :
  wallets s !! k = Some w →
  updWallet k f s = (set_wallets (insert k (f w)) s, Ok tt).
Proof.
  intros H. unfold updWallet, modify, set_wallets.
  by rewrite (alter_Some _ _ _ w).
Qed.

Lemma wallets_set_insert s k w :
  wallets (set_wallets (insert k w) s) !! k = Some w.
Proof. simpl. apply lookup_insert_eq. Qed.

Lemma set_wallets_twice s k w1 w2 :
  set_wallets (insert k w2) (set_wallets (insert k w1) s)
  = set_wallets (insert k w2) s.
Proof. unfold set_wallets; simpl. by rewrite insert_insert_eq. Qed.

(** A write of an existing wallet, followed by the rest of the method. *)
Lemma updWallet_seq {B} s k f (m : M B) w :
  wallets s !! k = Some w →
  (updWallet k f ;;; m) s = m (set_wallets (insert k (f w)) s).
Proof. intros H. by rewrite (bind_ok _ _ _ _ _ (updWallet_ok s k f w H)). Qed.

Lemma positionOf_run s k a w :
  wallets s !! k = Some w →
  positionOf k a s =
    (s, match positionAt a w with
        | Some (OwnPosition _) => Ok tt
        | Some BuiltInPosition => Escapes
        | None => Throw TypeError
        end).
Proof.
  intros H. unfold positionOf.
  rewrite (bind_ok _ _ _ _ _ (readWallet_ok _ _ _ H)).
  by destruct (positionAt a w) as [[]|].
Qed.

Lemma positionAt_dollar a f w :
  positionAt a (set_dollarBalance f w) = positionAt a w.
Proof. done. Qed.

Lemma ensurePosition_builtIn a w :
  builtInPosition a w = true → ensurePosition a w = w.
Proof.
  unfold builtInPosition, ensurePosition.
  by destruct (positionAt a w) as [[]|].
Qed.

Lemma positionAt_builtIn a w :
  positionAt a w = Some BuiltInPosition ↔ builtInPosition a w = true.
Proof.
  unfold builtInPosition. destruct (positionAt a w) as [[]|]; naive_solver.
Qed.

(** After the [if (!wallet.assets[a])], [wallet.assets[a]] is the built-in
    object or a position. *)
Lemma positionAt_ensure a w :
  positionAt a (ensurePosition a w) =
    if builtInPosition a w then Some BuiltInPosition
    else OwnPosition <$> assets (ensurePosition a w) !! a.
Proof.
  unfold builtInPosition, ensurePosition.
  destruct (positionAt a w) as [[p|]|] eqn:Hp; [|done|].
  - rewrite Hp. unfold positionAt in Hp.
    destruct (assets w !! a); [by simplify_eq|].
    by destruct (inherited_key a).
  - unfold positionAt. simpl. by rewrite lookup_insert_eq.
Qed.

Lemma ensurePosition_is_Some a w :
  builtInPosition a w = false → is_Some (assets (ensurePosition a w) !! a).
Proof.
  unfold builtInPosition, ensurePosition.
  destruct (positionAt a w) as [[p|]|] eqn:Hp; [|done|]; intros _.
  - unfold positionAt in Hp.
    destruct (assets w !! a); [done|]. by destruct (inherited_key a).
  - simpl. by rewrite lookup_insert_eq.
Qed.

(** The access to the position that follows the [if (!wallet.assets[a])]. *)
Lemma ensure_then_access {B} s k a (m : M B) w :
  wallets s !! k = Some w →
  (updWallet k (ensurePosition a) ;;; positionOf k a ;;; m) s =
    if builtInPosition a w then (s, Escapes)
    else m (set_wallets (insert k (ensurePosition a w)) s).
Proof.
  intros H. rewrite (updWallet_seq _ _ _ _ w H).
  unfold bind at 1.
  rewrite (positionOf_run _ k a _ (wallets_set_insert _ _ _)).
  rewrite positionAt_ensure.
  destruct (builtInPosition a w) eqn:Hb.
  - rewrite (ensurePosition_builtIn _ _ Hb).
    f_equal. destruct s; unfold set_wallets; simpl in *; f_equal.
    by apply insert_id.
  - by destruct (ensurePosition_is_Some a w Hb) as [p ->].
Qed.

Lemma buyAsset_run s assetId amount price :
  buyAsset assetId amount price s =
    match getWallet None s with
    | None => (s, Throw TypeError)
    | Some BuiltInWallet => (s, Escapes)
    | Some (OwnWallet w) =>
        let cost := (unitPrice price assetId s * amount)%num in
        let k := targetUserId None s in
        if (dollarBalance w <? cost)%num
        then (s, Throw (Error "Insufficient USD balance"))
        else if builtInPosition assetId w
        then (set_wallets
                (insert k (set_dollarBalance (λ b, b - cost)%num w)) s,
              Escapes)
        else createTransaction buy assetId amount None None
               (MetaBuy cost (cost / amount)%num)
               (set_wallets (insert k (bought assetId amount cost w)) s)
    end.
Proof.
  unfold buyAsset. rewrite bind_gets. unfold bind at 1.
  rewrite dollarOf_run.
  destruct (getWallet None s) as [[w|]|] eqn:Hw; [|done..].
  apply getWallet_own in Hw.
  rewrite (bind_ok _ _ _ _ _ (readWallet_ok _ _ _ Hw)). cbn zeta.
  destruct (_ <? _)%num; [done|].
  rewrite (updWallet_seq _ _ _ _ w Hw).
  rewrite (ensure_then_access _ _ _ _ _ (wallets_set_insert _ _ _)).
  change (builtInPosition assetId (set_dollarBalance _ w))
    with (builtInPosition assetId w).
  destruct (builtInPosition assetId w); [done|].
  rewrite set_wallets_twice.
  rewrite (updWallet_seq _ _ _ _ _ (wallets_set_insert _ _ _)), set_wallets_twice.
  done.
Qed.

Lemma sellAsset_run s assetId amount price :
  sellAsset assetId amount price s =
    match getWallet None s with
    | Some (OwnWallet w) =>
        match positionAt assetId w with
        | None => (s, Throw (Error "Insufficient asset balance"))
        | Some BuiltInPosition => (s, Escapes)
        | Some (OwnPosition asset) =>
            if (balance asset <? amount)%num
            then (s, Throw (Error "Insufficient asset balance"))
            else
              let salePrice := unitPrice price assetId s in
              let proceeds := (salePrice * amount)%num in
              createTransaction sell assetId amount None None
                (MetaSell proceeds salePrice)
                (set_wallets
                   (insert (targetUserId None s)
                      (sold assetId amount proceeds w)) s)
        end
    | _ => (s, Throw TypeError)
    end.
Proof.
  unfold sellAsset. unfold bind at 1. rewrite assetsOf_run.
  destruct (getWallet None s) as [[w|]|] eqn:Hw; [|done..].
  apply getWallet_own in Hw.
  rewrite (bind_ok _ _ _ _ _ (readWallet_ok _ _ _ Hw)).
  destruct (positionAt assetId w) as [[asset|]|]; [|done..].
  destruct (_ <? _)%num; [done|].
  rewrite bind_gets.
  rewrite (updWallet_seq _ _ _ _ w Hw).
  rewrite (updWallet_seq _ _ _ _ _ (wallets_set_insert _ _ _)), set_wallets_twice.
  rewrite (updWallet_seq _ _ _ _ _ (wallets_set_insert _ _ _)), set_wallets_twice.
  done.
Qed.

Lemma swapAssets_exchange_run s fromAssetId toAssetId amount :
  swapAssets_exchange fromAssetId toAssetId amount s =
    match getWallet None s with
    | Some (OwnWallet w) =>
        match positionAt fromAssetId w with
        | None => (s, Throw (Error "Insufficient source asset balance"))
        | Some BuiltInPosition => (s, Escapes)
        | Some (OwnPosition fromAsset) =>
            if (balance fromAsset <? amount)%num
            then (s, Throw (Error "Insufficient source asset balance"))
            else
              let fromPrice := num_or0 (marketPrice fromAssetId s) in
              let toPrice := num_or0 (marketPrice toAssetId s) in
              let toAmount := swapAmount fromAssetId toAssetId amount s in
              let k := targetUserId None s in
              let w1 := updPosition fromAssetId
                          (set_balance (λ b, b - amount)%num) w in
              if builtInPosition toAssetId w1
              then (set_wallets (insert k w1) s, Escapes)
              else createTransaction swap fromAssetId amount None None
                     (MetaSwap toAssetId toAmount (fromPrice / toPrice)%num)
                     (set_wallets
                        (insert k
                           (swapped fromAssetId toAssetId amount toAmount w))
                        s)
        end
    | _ => (s, Throw TypeError)
    end.
Proof.
  unfold swapAssets_exchange. unfold bind at 1. rewrite assetsOf_run.
  destruct (getWallet None s) as [[w|]|] eqn:Hw; [|done..].
  apply getWallet_own in Hw.
  rewrite (bind_ok _ _ _ _ _ (readWallet_ok _ _ _ Hw)).
  destruct (positionAt fromAssetId w) as [[asset|]|]; [|done..].
  destruct (_ <? _)%num; [done|].
  rewrite !bind_gets. cbn zeta.
  rewrite (updWallet_seq _ _ _ _ w Hw).
  rewrite (ensure_then_access _ _ _ _ _ (wallets_set_insert _ _ _)).
  destruct (builtInPosition toAssetId _); [done|].
  rewrite set_wallets_twice.
  rewrite (updWallet_seq _ _ _ _ _ (wallets_set_insert _ _ _)), set_wallets_twice.
  rewrite (updWallet_seq _ _ _ _ _ (wallets_set_insert _ _ _)), set_wallets_twice.
  done.
Qed.

Lemma addMoney_run s amount :
  addMoney amount s =
    match getWallet None s with
    | None => (s, Throw TypeError)
    | Some BuiltInWallet => (s, Escapes)
    | Some (OwnWallet w) =>
        createTransaction add_money "USD" amount (Some "Noble Chain Support")
          None MetaNone
          (set_wallets
             (insert (targetUserId None s)
                (set_dollarBalance (λ b, b + amount)%num w)) s)
    end.
Proof.
  unfold addMoney. unfold bind at 1. rewrite dollarOf_run.
  destruct (getWallet None s) as [[w|]|] eqn:Hw; [|done..].
  apply getWallet_own in Hw.
  by rewrite (updWallet_seq _ _ _ _ w Hw).
Qed.

Lemma receiveMoney_run s amount assetId :
  receiveMoney amount assetId s =
    match getWallet None s with
    | None => (s, Throw TypeError)
    | Some BuiltInWallet =>
        (s, if String.eqb assetId "USD" then Escapes else Throw TypeError)
    | Some (OwnWallet w) =>
        if negb (String.eqb assetId "USD") && builtInPosition assetId w
        then (s, Escapes)
        else
          createTransaction receive assetId amount (Some "Internal Transfer")
            None MetaNone
            (set_wallets
               (insert (targetUserId None s) (credited assetId amount w)) s)
    end.
Proof.
  unfold receiveMoney, credited. unfold bind at 1.
  destruct (String.eqb assetId "USD"); cbn [negb andb].
  - unfold bind at 1. rewrite dollarOf_run.
    destruct (getWallet None s) as [[w|]|] eqn:Hw; [|done..].
    apply getWallet_own in Hw.
    by rewrite (updWallet_ok _ _ _ w Hw).
  - unfold bind at 1. rewrite assetsOf_run.
    destruct (getWallet None s) as [[w|]|] eqn:Hw; [|done..].
    apply getWallet_own in Hw.
    rewrite (ensure_then_access _ _ _ _ _ Hw).
    destruct (builtInPosition assetId w); [done|].
    rewrite (updWallet_ok _ _ _ _ (wallets_set_insert _ _ _)).
    by rewrite set_wallets_twice.
Qed.

Lemma updateUserBalance_run s userId assetId newBalance :
  updateUserBalance userId assetId newBalance s =
    match getWallet userId s with
    | None => (s, Throw TypeError)
    | Some BuiltInWallet =>
        (s, if String.eqb assetId "USD" then Escapes else Throw TypeError)
    | Some (OwnWallet w) =>
        if negb (String.eqb assetId "USD") && builtInPosition assetId w
        then (s, Escapes)
        else
          (set_wallets
             (insert (targetUserId userId s)
                (if String.eqb assetId "USD"
                 then set_dollarBalance (λ _, newBalance) w
                 else updPosition assetId (set_balance (λ _, newBalance))
                        (ensurePosition assetId w))) s,
           Ok tt)
    end.
Proof.
  unfold updateUserBalance.
  destruct (String.eqb assetId "USD"); cbn [negb andb].
  - unfold bind at 1. rewrite dollarOf_run.
    destruct (getWallet userId s) as [[w|]|] eqn:Hw; [|done..].
    apply getWallet_own in Hw.
    by rewrite (updWallet_ok _ _ _ w Hw).
  - unfold bind at 1. rewrite assetsOf_run.
    destruct (getWallet userId s) as [[w|]|] eqn:Hw; [|done..].
    apply getWallet_own in Hw.
    rewrite (ensure_then_access _ _ _ _ _ Hw).
    destruct (builtInPosition assetId w); [done|].
    rewrite (updWallet_ok _ _ _ _ (wallets_set_insert _ _ _)).
    by rewrite set_wallets_twice.
Qed.

Lemma walletAt_own s k (w : Wallet) :
  walletAt k s = Some w ↔ wallets s !! k = Some w.
Proof.
  unfold walletAt. destruct (wallets s !! k) as [w'|].
  - split; intros [= ->]; done.
  - split; [|done]. by destruct (inherited_key k).
Qed.

Lemma sendMoney_transfer_run s recipientUsername amount assetId :
  sendMoney_transfer recipientUsername amount assetId s =
    match find_user_by_username recipientUsername (users s) with
    | None => (s, Throw (Error "Recipient not found"))
    | Some recipient =>
        let k := targetUserId None s in
        let rid := user_id recipient in
        if String.eqb assetId "USD" then
          match getWallet None s with
          | None => (s, Throw TypeError)
          | Some BuiltInWallet => (s, Escapes)
          | Some (OwnWallet w) =>
              if (dollarBalance w <? amount)%num
              then (s, Throw (Error "Insufficient balance"))
              else
                let s1 := set_wallets
                            (insert k (debited assetId amount w)) s in
                match walletAt rid s1 with
                | None => (s1, Throw TypeError)
                | Some BuiltInWallet => (s1, Escapes)
                | Some (OwnWallet wr) =>
                    sendMoney_record recipient amount assetId
                      (set_wallets
                         (insert rid (credited assetId amount wr)) s1)
                end
          end
        else
          match getWallet None s with
          | Some (OwnWallet w) =>
              match positionAt assetId w with
              | None => (s, Throw (Error "Insufficient asset balance"))
              | Some BuiltInPosition => (s, Escapes)
              | Some (OwnPosition asset) =>
                  if (balance asset <? amount)%num
                  then (s, Throw (Error "Insufficient asset balance"))
                  else
                    let s1 := set_wallets
                                (insert k (debited assetId amount w)) s in
                    match walletAt rid s1 with
                    | Some (OwnWallet wr) =>
                        if builtInPosition assetId wr then (s1, Escapes)
                        else
                          sendMoney_record recipient amount assetId
                            (set_wallets
                               (insert rid (credited assetId amount wr)) s1)
                    | _ => (s1, Throw TypeError)
                    end
              end
          | _ => (s, Throw TypeError)
          end
    end.
Proof.
  unfold sendMoney_transfer. rewrite bind_gets.
  destruct (find_user_by_username _ _) as [recipient|]; [|done].
  unfold debited, credited. cbn zeta. unfold bind at 1.
  destruct (String.eqb assetId "USD").
  - unfold bind at 1. rewrite dollarOf_run.
    destruct (getWallet None s) as [[w|]|] eqn:Hw; [|done..].
    apply getWallet_own in Hw.
    rewrite (bind_ok _ _ _ _ _ (readWallet_ok _ _ _ Hw)).
    destruct (_ <? _)%num; [done|].
    rewrite (updWallet_seq _ _ _ _ w Hw).
    unfold bind at 1. unfold dollarAt.
    destruct (walletAt (user_id recipient) _) as [[wr|]|] eqn:Hr; [|done..].
    apply walletAt_own in Hr.
    by rewrite (updWallet_ok _ _ _ _ Hr).
  - unfold bind at 1. rewrite assetsOf_run.
    destruct (getWallet None s) as [[w|]|] eqn:Hw; [|done..].
    apply getWallet_own in Hw.
    rewrite (bind_ok _ _ _ _ _ (readWallet_ok _ _ _ Hw)).
    destruct (positionAt assetId w) as [[asset|]|]; [|done..].
    destruct (_ <? _)%num; [done|].
    rewrite (updWallet_seq _ _ _ _ w Hw).
    unfold bind at 1. unfold assetsAt.
    destruct (walletAt (user_id recipient) _) as [[wr|]|] eqn:Hr; [|done..].
    apply walletAt_own in Hr.
    rewrite (ensure_then_access _ _ _ _ _ Hr).
    destruct (builtInPosition assetId wr); [done|].
    rewrite (updWallet_ok _ _ _ _ (wallets_set_insert _ _ _)).
    by rewrite set_wallets_twice.
Qed.

Lemma sendMoney_record_ok s u recipient amount assetId :
  currentUser s = Some u →
  let tx1 := newTx s (user_id u) send assetId amount
               (Some (user_username recipient)) MetaNone in
  let tx2 := newTx (logged tx1 s)
               (if truthy_str (Some (user_id recipient))
                then user_id recipient else user_id u)
               receive assetId amount (Some (user_username u)) MetaNone in
  let r := sendMoney_record recipient amount assetId s in
  r.2 = Ok (tx1, tx2) ∧
  wallets r.1 = wallets s ∧
  transactions r.1 = transactions s ++ [tx1; tx2] ∧
  users r.1 = users s ∧ currentUser r.1 = currentUser s ∧
  pinStorage r.1 = pinStorage s ∧ marketData r.1 = marketData s.
Proof.
  intros Hu tx1 tx2 r. unfold r, sendMoney_record.
  assert (txOwner None s = Some (user_id u)) as Ho1
    by (unfold txOwner; simpl; by rewrite Hu).
  rewrite (bind_ok _ _ _ _ _ (createTransaction_ok s _ _ _ _ _ _ _ Ho1)).
  fold tx1.
  rewrite bind_gets. change (currentUser (logged tx1 s)) with (currentUser s).
  rewrite Hu. simpl deref.
  rewrite (bind_ok _ _ _ (logged tx1 s) u) by done.
  assert (txOwner (Some (user_id recipient)) (logged tx1 s)
          = Some (if truthy_str (Some (user_id recipient))
                  then user_id recipient else user_id u)) as Ho2
    by (unfold txOwner; destruct (truthy_str _); simpl; by rewrite ?Hu).
  rewrite (bind_ok _ _ _ _ _ (createTransaction_ok _ _ _ _ _ _ _ _ Ho2)).
  fold tx2.
  set (s2 := logged tx2 (logged tx1 s)).
  pose proof (sendEmailNotification_returns s2 (user_id u) "transfer_sent") as He1.
  destruct (sendEmailNotification (user_id u) "transfer_sent" s2)
    as [s3 [[]|e|]] eqn:Hs3; [|done..].
  rewrite (bind_ok _ _ _ _ _ Hs3).
  pose proof (sendEmailNotification_returns s3 (user_id recipient)
                "transfer_received") as He2.
  destruct (sendEmailNotification (user_id recipient) "transfer_received" s3)
    as [s4 [[]|e|]] eqn:Hs4; [|done..].
  rewrite (bind_ok _ _ _ _ _ Hs4). cbn [ret fst snd].
  assert (∀ {A} (f : State → A),
            (∀ g s, f (set_emailLogs g s) = f s) → f s4 = f s2) as Hframe.
  { intros A f Hf.
    pose proof (sendEmailNotification_preserves f Hf (user_id u)
                  "transfer_sent" s2) as H1.
    pose proof (sendEmailNotification_preserves f Hf (user_id recipient)
                  "transfer_received" s3) as H2.
    rewrite Hs3 in H1. rewrite Hs4 in H2. simpl in *. congruence. }
  split_and!; [done|rewrite Hframe by done..]; try done.
  simpl. by rewrite <- app_assoc.
Qed.

(** ** Deposits *)

(** C5, as the code has it: [addMoney] does not look at the sign of the
    amount.  Whatever the amount, when the current user has a wallet the call
    returns, the fiat balance becomes the sum of the balance and the amount,
    computed as JS computes it on doubles, and exactly one [add_money]
    transaction, with the counterparty 'Noble Chain Support', is appended. *)
Theorem addMoney_credits (s : State) (amount : num) (u : User) (w : Wallet) :
  currentUser s = Some u →
  wallets s !! user_id u = Some w →
  let r := addMoney amount s in
  let tx := newTx s (user_id u) add_money "USD" amount
              (Some "Noble Chain Support") MetaNone in
  r.2 = Ok tx ∧
  transactions r.1 = transactions s ++ [tx] ∧
  wallets r.1 =
    <[user_id u := set_dollarBalance (λ b, b + amount)%num w]> (wallets s) ∧
  holdingOf r.1 (user_id u) "USD" = (holdingOf s (user_id u) "USD" + amount)%num.
Proof.
  intros Hu Hw r tx. unfold r. rewrite addMoney_run.
  assert (targetUserId None s = user_id u) as Hk
    by (unfold targetUserId; simpl; by rewrite Hu).
  rewrite (proj2 (getWallet_own s None w)) by (by rewrite Hk).
  rewrite Hk.
  rewrite (createTransaction_ok _ _ _ _ _ _ _ (user_id u))
    by (unfold txOwner; simpl; by rewrite Hu).
  split_and!; try done.
  unfold holdingOf. simpl. by rewrite lookup_insert_eq, Hw.
Qed.

(** A deposit of 250 on a balance of 1000. *)
Lemma addMoney_credits_witness :
  (addMoney (Num.of_Z 250) Demo.start).2 =
    Ok (newTx Demo.start "u1" add_money "USD" (Num.of_Z 250)
          (Some "Noble Chain Support") MetaNone) ∧
  holdingOf (addMoney (Num.of_Z 250) Demo.start).1 "u1" "USD"
    = Num.of_Z 1250.
Proof.
  destruct (addMoney_credits Demo.start (Num.of_Z 250) Demo.alice
              (mkWallet "u1" (Num.of_Z 1000) (<["BTC" := Demo.btc10]> ∅)
                 Num.zero) eq_refl eq_refl) as (Hr & _ & _ & Hh).
  split; [exact Hr|]. etrans; [exact Hh|]. vm_compute. reflexivity.
Defined.

(** [addMoney(-5)] and [addMoney(0)] return; the first lowers the balance
    from 1000 to 995.  And a credit is not always exact: on a balance of
    2^53, [addMoney(1)] returns and leaves the balance at 2^53. *)
Lemma addMoney_accepts_nonpositive :
  succeeded (addMoney (Num.of_Z (-5)) Demo.start).2 = true ∧
  holdingOf (addMoney (Num.of_Z (-5)) Demo.start).1 "u1" "USD" = Num.of_Z 995 ∧
  succeeded (addMoney Num.zero Demo.start).2 = true ∧
  let rich :=
    (updateUserBalance (Some "u1") "USD" (Num.of_Z (2 ^ 53)) Demo.start).1 in
  succeeded (addMoney (Num.of_Z 1) rich).2 = true ∧
  holdingOf (addMoney (Num.of_Z 1) rich).1 "u1" "USD" = Num.of_Z (2 ^ 53).
Proof. vm_compute. done. Qed.

(** Alice has a PIN: a transfer without it is refused and nothing changes. *)
Lemma sendMoney_pin_gate_witness :
  sendMoney "bob" (Num.of_Z 5) "USD" None Demo.with_pin =
    (Demo.with_pin, Throw (Error "Transfer PIN required for this transaction")).
Proof.
  apply (proj1 (sendMoney_pin_gate Demo.with_pin
                  (set_transferPinHash (Some (hashPassword "1234")) Demo.alice)
                  "bob" (Num.of_Z 5) "USD" None eq_refl));
    vm_compute; reflexivity.
Defined.

(** ** Positions of a wallet *)

Lemma createTransaction_preserves {A} (f : State → A) ty asset a c u m :
  (∀ g s, f (set_entropy g s) = f s) →
  (∀ g s, f (set_notifications g s) = f s) →
  (∀ g s, f (set_transactions g s) = f s) →
  preserves f (createTransaction ty asset a c u m).
Proof.
  intros He Hn Ht. unfold createTransaction, now.
  apply preserves_bind; [by apply generateId_preserves|intros ?].
  apply preserves_bind; [frame|intros ?].
  apply preserves_bind; [frame|intros ?].
  apply preserves_bind; [apply preserves_modify; intros; apply Ht|intros ?].
  apply preserves_bind; [by apply addNotification_preserves|intros ?].
  frame.
Qed.

Lemma builtInPosition_own a w p :
  assets w !! a = Some p → builtInPosition a w = false.
Proof. intros H. unfold builtInPosition, positionAt. by rewrite H. Qed.

Lemma builtInPosition_ordinary a w :
  inherited_key a = false → builtInPosition a w = false.
Proof.
  intros H. unfold builtInPosition, positionAt. rewrite H.
  by destruct (assets w !! a).
Qed.

Lemma positionAt_own a w p :
  positionAt a w = Some (OwnPosition p) ↔ assets w !! a = Some p.
Proof.
  unfold positionAt. destruct (assets w !! a) as [q|].
  - split; intros [= ->]; done.
  - split; [|done]. by destruct (inherited_key a).
Qed.

Lemma ensurePosition_lookup a w :
  builtInPosition a w = false →
  assets (ensurePosition a w) !! a
  = Some (default emptyPosition (assets w !! a)).
Proof.
  unfold builtInPosition, ensurePosition, positionAt.
  destruct (assets w !! a) as [p|] eqn:H; simpl; [done|].
  destruct (inherited_key a); [done|]. intros _. apply lookup_insert_eq.
Qed.

Lemma ensurePosition_lookup_ne a a' w :
  a' ≠ a → assets (ensurePosition a w) !! a' = assets w !! a'.
Proof.
  intros Hne. unfold ensurePosition.
  destruct (positionAt a w); simpl; [done|].
  by apply lookup_insert_ne.
Qed.

Lemma ensurePosition_dollar a w :
  dollarBalance (ensurePosition a w) = dollarBalance w.
Proof. unfold ensurePosition. by destruct (positionAt a w). Qed.

Lemma updPosition_lookup a f w :
  assets (updPosition a f w) !! a = f <$> assets w !! a.
Proof. simpl. apply lookup_alter_eq. Qed.

Lemma updPosition_lookup_ne a a' f w :
  a' ≠ a → assets (updPosition a f w) !! a' = assets w !! a'.
Proof. intros Hne. simpl. by apply lookup_alter_ne. Qed.

Lemma dropIfEmpty_lookup a w :
  assets (dropIfEmpty a w) !! a =
    match assets w !! a with
    | Some p => if (balance p === 0)%num then None else Some p
    | None => None
    end.
Proof.
  unfold dropIfEmpty. destruct (assets w !! a) as [p|] eqn:H; [|done].
  destruct (_ === _)%num; [|done]. simpl. apply lookup_delete_eq.
Qed.

Lemma dropIfEmpty_lookup_ne a a' w :
  a' ≠ a → assets (dropIfEmpty a w) !! a' = assets w !! a'.
Proof.
  intros Hne. unfold dropIfEmpty. destruct (assets w !! a) as [p|]; [|done].
  destruct (_ === _)%num; [|done]. simpl. by apply lookup_delete_ne.
Qed.

Lemma dropIfEmpty_dollar a w :
  dollarBalance (dropIfEmpty a w) = dollarBalance w.
Proof.
  unfold dropIfEmpty. destruct (assets w !! a) as [p|]; [|done].
  by destruct (_ === _)%num.
Qed.

(** ** Buying *)






(** ** Transfers *)

Lemma sendMoney_record_wallets recipient amount assetId :
  preserves wallets (sendMoney_record recipient amount assetId).
Proof.
  unfold sendMoney_record.
  apply preserves_bind; [by apply createTransaction_preserves|intros tx1].
  apply preserves_bind; [apply preserves_gets|intros cu].
  apply preserves_bind; [apply preserves_deref|intros u].
  apply preserves_bind; [by apply createTransaction_preserves|intros tx2].
  apply preserves_bind; [by apply sendEmailNotification_preserves|intros ?].
  apply preserves_bind; [by apply sendEmailNotification_preserves|intros ?].
  apply preserves_ret.
Qed.


Lemma holding_credited assetId amount w :
  String.eqb assetId "USD" = true ∨ builtInPosition assetId w = false →
  holding assetId (credited assetId amount w)
  = (holding assetId w + amount)%num.
Proof.
  unfold holding, credited.
  destruct (String.eqb assetId "USD"); [done|]. intros [?|Hb]; [done|].
  rewrite updPosition_lookup, ensurePosition_lookup by done.
  by destruct (assets w !! assetId).
Qed.






(** ** The PIN check leaves the ledger alone *)

Lemma requirePin_same_ledger s pin :
  same_ledger s (requirePin pin s).1.
Proof.
  unfold same_ledger. split_and!; by apply requirePin_preserves.
Qed.

Lemma same_ledger_getWallet s s' userId :
  same_ledger s s' → getWallet userId s' = getWallet userId s.
Proof.
  intros (Hw & _ & _ & Hcu & _). unfold getWallet, walletAt, targetUserId.
  by rewrite Hw, Hcu.
Qed.

Lemma same_ledger_targetUserId s s' userId :
  same_ledger s s' → targetUserId userId s' = targetUserId userId s.
Proof. intros (_ & _ & _ & Hcu & _). unfold targetUserId. by rewrite Hcu. Qed.

Lemma same_ledger_marketPrice s s' a :
  same_ledger s s' → marketPrice a s' = marketPrice a s.
Proof. intros (_ & _ & _ & _ & _ & Hm). unfold marketPrice. by rewrite Hm. Qed.

Lemma same_ledger_trans s1 s2 s3 :
  same_ledger s1 s2 → same_ledger s2 s3 → same_ledger s1 s3.
Proof. unfold same_ledger. intuition congruence. Qed.

(** ** Swapping *)

Lemma builtInPosition_updPosition t a f w :
  builtInPosition t (updPosition a f w) = builtInPosition t w.
Proof.
  unfold builtInPosition, positionAt, updPosition. simpl.
  destruct (decide (t = a)) as [->|Hne].
  - rewrite lookup_alter_eq. by destruct (assets w !! a).
  - by rewrite lookup_alter_ne.
Qed.

Lemma swapped_from fromAssetId toAssetId amount toAmount w p :
  fromAssetId ≠ toAssetId → assets w !! fromAssetId = Some p →
  assets (swapped fromAssetId toAssetId amount toAmount w) !! fromAssetId =
    if (balance p - amount === 0)%num then None
    else Some (mkAsset (balance p - amount) (averageCost p)).
Proof.
  intros Hne Hp. unfold swapped.
  rewrite dropIfEmpty_lookup, updPosition_lookup_ne by done.
  rewrite ensurePosition_lookup_ne, updPosition_lookup, Hp by done.
  done.
Qed.

Lemma swapped_to fromAssetId toAssetId amount toAmount w :
  fromAssetId ≠ toAssetId → builtInPosition toAssetId w = false →
  assets (swapped fromAssetId toAssetId amount toAmount w) !! toAssetId =
    Some (mkAsset
            (balance (default emptyPosition (assets w !! toAssetId)) + toAmount)
            (averageCost (default emptyPosition (assets w !! toAssetId)))).
Proof.
  intros Hne Hb. unfold swapped.
  rewrite dropIfEmpty_lookup_ne, updPosition_lookup by done.
  rewrite ensurePosition_lookup, updPosition_lookup_ne by
    (by rewrite ?builtInPosition_updPosition).
  done.
Qed.

Lemma swapped_same a amount toAmount w p :
  assets w !! a = Some p →
  assets (swapped a a amount toAmount w) !! a =
    if (balance p - amount + toAmount === 0)%num then None
    else Some (mkAsset (balance p - amount + toAmount) (averageCost p)).
Proof.
  intros Hp. unfold swapped.
  rewrite dropIfEmpty_lookup, updPosition_lookup, ensurePosition_lookup.
  - rewrite updPosition_lookup, Hp. done.
  - rewrite builtInPosition_updPosition. by eapply builtInPosition_own.
Qed.

Lemma swapped_other fromAssetId toAssetId amount toAmount w a :
  a ≠ fromAssetId → a ≠ toAssetId →
  assets (swapped fromAssetId toAssetId amount toAmount w) !! a
  = assets w !! a.
Proof.
  intros H1 H2. unfold swapped.
  rewrite dropIfEmpty_lookup_ne, updPosition_lookup_ne by done.
  by rewrite ensurePosition_lookup_ne, updPosition_lookup_ne.
Qed.

Lemma swapped_dollar fromAssetId toAssetId amount toAmount w :
  dollarBalance (swapped fromAssetId toAssetId amount toAmount w)
  = dollarBalance w.
Proof.
  unfold swapped. rewrite dropIfEmpty_dollar. simpl.
  by rewrite ensurePosition_dollar.
Qed.

Lemma swapAssets_outcome (s : State) (fromAssetId toAssetId : string)
    (amount : num) (pin : option string) (w : Wallet)
    (fromAsset : AssetPosition) :
  getWallet None s = Some w →
  assets w !! fromAssetId = Some fromAsset →
  let fromPrice := num_or0 (marketPrice fromAssetId s) in
  let toPrice := num_or0 (marketPrice toAssetId s) in
  let toAmount := swapAmount fromAssetId toAssetId amount s in
  let r := swapAssets fromAssetId toAssetId amount pin s in
  (succeeded (requirePin pin s).2 = true →
   (balance fromAsset <? amount)%num = false →
   builtInPosition toAssetId w = false →
   succeeded r.2 = true) ∧
  (succeeded r.2 = true →
   (balance fromAsset <? amount)%num = false ∧
   builtInPosition toAssetId w = false ∧
   getWallet None r.1
     = Some (swapped fromAssetId toAssetId amount toAmount w) ∧
   ∃ tx, r.2 = Ok tx ∧ tx_type tx = swap ∧ tx_asset tx = fromAssetId ∧
         tx_amount tx = amount ∧
         tx_metadata tx = MetaSwap toAssetId toAmount (fromPrice / toPrice)).
Proof.
  intros Hw Hfrom fromPrice toPrice toAmount r.
  set (w' := swapped fromAssetId toAssetId amount toAmount w).
  pose proof (requirePin_same_ledger s pin) as Hsame.
  assert (r = match requirePin pin s with
              | (s1, Ok _) =>
                  if (balance fromAsset <? amount)%num
                  then (s1, Throw (Error "Insufficient source asset balance"))
                  else if builtInPosition toAssetId w
                  then (set_wallets
                          (insert (targetUserId None s)
                             (updPosition fromAssetId
                                (set_balance (λ b, b - amount)%num) w)) s1,
                        Escapes)
                  else createTransaction swap fromAssetId amount None None
                         (MetaSwap toAssetId toAmount (fromPrice / toPrice))
                         (set_wallets (insert (targetUserId None s) w') s1)
              | (s1, Throw e) => (s1, Throw e)
              | (s1, Escapes) => (s1, Escapes)
              end) as Hr.
  { unfold r, swapAssets, bind.
    destruct (requirePin pin s) as [s1 [[]|e|]]; [|done..]. simpl in Hsame.
    rewrite swapAssets_exchange_run.
    rewrite (same_ledger_getWallet s s1), Hw by done.
    rewrite (proj2 (positionAt_own _ _ _) Hfrom). cbn zeta.
    rewrite builtInPosition_updPosition.
    unfold swapAmount.
    rewrite !(same_ledger_marketPrice s s1) by done.
    by rewrite (same_ledger_targetUserId s s1). }
  assert (is_Some (currentUser s) →
          ∀ s1, same_ledger s s1 →
          let r1 := createTransaction swap fromAssetId amount None None
                      (MetaSwap toAssetId toAmount (fromPrice / toPrice))
                      (set_wallets (insert (targetUserId None s) w') s1) in
          getWallet None r1.1 = Some (OwnWallet w') ∧
          ∃ tx, r1.2 = Ok tx ∧ tx_type tx = swap ∧ tx_asset tx = fromAssetId ∧
                tx_amount tx = amount ∧
                tx_metadata tx
                  = MetaSwap toAssetId toAmount (fromPrice / toPrice))
    as Hcreate.
  { intros [u Hu] s1 Hs1 r1. unfold r1.
    destruct Hs1 as (Hw1 & _ & _ & Hcu1 & _).
    rewrite (createTransaction_ok _ _ _ _ _ _ _ (user_id u))
      by (unfold txOwner; simpl; by rewrite Hcu1, Hu).
    split; [|by eexists].
    apply getWallet_own. unfold targetUserId. simpl. rewrite Hcu1, Hu.
    apply lookup_insert_eq. }
  assert (∀ s1 u, requirePin pin s = (s1, Ok u) → is_Some (currentUser s))
    as Hcu.
  { intros s1 u Hreq. unfold requirePin, bind, gets, deref in Hreq.
    destruct (currentUser s); [by eauto|done]. }
  split.
  - intros Hpin Hlt Hb. rewrite Hr.
    destruct (requirePin pin s) as [s1 [[]|e|]] eqn:Hreq; [|done..].
    rewrite Hlt, Hb.
    destruct (Hcreate (Hcu _ _ eq_refl) s1 Hsame) as (_ & tx & -> & _). done.
  - intros Hok. rewrite Hr in Hok |- *.
    destruct (requirePin pin s) as [s1 [[]|e|]] eqn:Hreq; [|done..].
    destruct (balance fromAsset <? amount)%num eqn:Hlt; [done|].
    destruct (builtInPosition toAssetId w) eqn:Hb; [done|].
    split; [done|]. split; [done|].
    exact (Hcreate (Hcu _ _ eq_refl) s1 Hsame).
Qed.

(** C9, as the code has it: a swap from a position that covers the amount
    returns whenever the PIN check passes and the target is a position or an
    identifier of no built-in property, whatever the quotes are, a missing
    or zero quote included.  A swap that succeeds credits
    [toAmount = (amount * priceOf(from)) / priceOf(to)]: the balance of the
    source position becomes [balance - amount] and the position is removed
    when that is zero, the balance of the target position becomes
    [balance + toAmount] and the position keeps its average cost, which is
    [0] when the position is created; every operation is the one of
    doubles.  The fiat balance and the other positions are as before, and
    the transaction records the target, [toAmount] and the rate. *)
Theorem swapAssets_conversion (s : State) (fromAssetId toAssetId : string)
    (amount : num) (pin : option string) (w : Wallet)
    (fromAsset : AssetPosition) :
  getWallet None s = Some w →
  assets w !! fromAssetId = Some fromAsset →
  let fromPrice := num_or0 (marketPrice fromAssetId s) in
  let toPrice := num_or0 (marketPrice toAssetId s) in
  let toAmount := ((amount * fromPrice) / toPrice)%num in
  let oldTo := default emptyPosition (assets w !! toAssetId) in
  let r := swapAssets fromAssetId toAssetId amount pin s in
  let w' := swapped fromAssetId toAssetId amount toAmount w in
  (succeeded (requirePin pin s).2 = true →
   (balance fromAsset <? amount)%num = false →
   is_Some (assets w !! toAssetId) ∨ inherited_key toAssetId = false →
   succeeded r.2 = true) ∧
  (succeeded r.2 = true →
   getWallet None r.1 = Some w' ∧
   dollarBalance w' = dollarBalance w ∧
   (fromAssetId ≠ toAssetId →
    assets w' !! fromAssetId =
      (if (balance fromAsset - amount === 0)%num then None
       else Some (mkAsset (balance fromAsset - amount)
                    (averageCost fromAsset))) ∧
    assets w' !! toAssetId =
      Some (mkAsset (balance oldTo + toAmount) (averageCost oldTo))) ∧
   (fromAssetId = toAssetId →
    assets w' !! toAssetId =
      (if (balance fromAsset - amount + toAmount === 0)%num then None
       else Some (mkAsset (balance fromAsset - amount + toAmount)
                    (averageCost fromAsset)))) ∧
   (∀ a, a ≠ fromAssetId → a ≠ toAssetId → assets w' !! a = assets w !! a) ∧
   ∃ tx, r.2 = Ok tx ∧ tx_type tx = swap ∧ tx_asset tx = fromAssetId ∧
         tx_amount tx = amount ∧
         tx_metadata tx = MetaSwap toAssetId toAmount (fromPrice / toPrice)).
Proof.
  intros Hw Hfrom fromPrice toPrice toAmount oldTo r w'.
  destruct (swapAssets_outcome s fromAssetId toAssetId amount pin w fromAsset
              Hw Hfrom) as [Htotal Hpost].
  split.
  { intros Hpin Hlt Hto. apply Htotal; [done..|].
    destruct Hto as [[p Hp]|Hk].
    - by eapply builtInPosition_own.
    - by apply builtInPosition_ordinary. }
  intros Hok. destruct (Hpost Hok) as (_ & Hb & Hget & Htx).
  split_and!; try done.
  - apply swapped_dollar.
  - intros Hne. split; [by apply swapped_from | by apply swapped_to].
  - intros <-. by apply swapped_same.
  - intros a H1 H2. by apply swapped_other.
Qed.

(** Alice swaps 4 BTC for an asset that has no quote: the call returns and
    credits [+Infinity]. *)
Lemma swapAssets_conversion_witness :
  let r := swapAssets "BTC" "DOGE" (Num.of_Z 4) None Demo.start in
  succeeded r.2 = true ∧
  ∃ w' : Wallet,
    getWallet None r.1 = Some w' ∧
    assets w' !! "BTC" = Some (mkAsset (Num.of_Z 6) (Num.of_Z 100)) ∧
    assets w' !! "DOGE" = Some (mkAsset infinity Num.zero).
Proof.
  intros r.
  destruct (swapAssets_conversion Demo.start "BTC" "DOGE" (Num.of_Z 4) None
              (mkWallet "u1" (Num.of_Z 1000) (<["BTC" := Demo.btc10]> ∅)
                 Num.zero) Demo.btc10 eq_refl eq_refl) as [Htotal Hpost].
  pose proof (Htotal eq_refl eq_refl (or_intror eq_refl)) as Hok.
  destruct (Hpost Hok) as (Hget & _ & Hne & _).
  destruct (Hne ltac:(discriminate)) as [Hfrom Hto].
  split; [exact Hok|]. eexists. split; [exact Hget|].
  split; [etrans; [exact Hfrom|]|etrans; [exact Hto|]];
    vm_compute; reflexivity.
Defined.

(** The debit and the credit of a swap are rounded: with 10^16 BTC, Alice
    swaps 1 BTC for ETH; the call succeeds and credits 15 ETH, and her BTC
    balance is 10^16 as before, not 1 less. *)
Lemma swapAssets_rounds :
  let big := Num.of_Z (10 ^ 16) in
  let s := (updateUserBalance (Some "u1") "BTC" big Demo.start).1 in
  let r := swapAssets "BTC" "ETH" (Num.of_Z 1) None s in
  succeeded r.2 = true ∧
  holdingOf s "u1" "BTC" = big ∧
  holdingOf r.1 "u1" "BTC" = big ∧
  holdingOf r.1 "u1" "ETH" = Num.of_Z 15 ∧
  (big - Num.of_Z 1 === big)%num = true.
Proof. vm_compute. done. Qed.

(** ** Failure leaves the ledger as it was *)

Lemma same_ledger_refl s : same_ledger s s.
Proof. by unfold same_ledger. Qed.

Lemma well_formed_same_ledger s s' :
  same_ledger s s' → well_formed s → well_formed s'.
Proof.
  intros (Hw & _ & Hu & Hcu & _) [H1 H2]. unfold well_formed.
  rewrite Hw, Hu, Hcu. done.
Qed.

Lemma well_formed_owner s (w : Wallet) :
  well_formed s → getWallet None s = Some w → is_Some (currentUser s).
Proof.
  intros [_ Hundef] Hw. apply getWallet_own in Hw. revert Hw.
  unfold targetUserId. simpl truthy_str.
  cbv iota. destruct (currentUser s) as [u|]; [by eauto|].
  rewrite Hundef; done.
Qed.

Lemma createTransaction_current s g ty asset a c m u :
  currentUser s = Some u →
  succeeded (createTransaction ty asset a c None m (set_wallets g s)).2 = true.
Proof.
  intros Hu.
  by rewrite (createTransaction_ok _ _ _ _ _ _ _ (user_id u))
    by (unfold txOwner; simpl; by rewrite Hu).
Qed.

(** A call that ends in [createTransaction] for the current user does not
    throw. *)
Ltac no_throw Hu :=
  intros Hrun;
  match type of Hrun with
  | createTransaction ?ty ?a ?n ?c None ?m (set_wallets ?g ?s) = _ =>
      pose proof (createTransaction_current s g ty a n c m _ Hu) as Hok;
      by rewrite Hrun in Hok
  end.

Ltac unchanged := intros [= <- _]; apply same_ledger_refl.

Lemma buyAsset_atomic s s' e assetId amount price :
  well_formed s →
  buyAsset assetId amount price s = (s', Throw e) → same_ledger s s'.
Proof.
  intros Hwf. rewrite buyAsset_run.
  destruct (getWallet None s) as [[w|]|] eqn:Hw; [|done|unchanged].
  cbn zeta. destruct (_ <? _)%num; [unchanged|].
  destruct (builtInPosition assetId w); [done|].
  destruct (well_formed_owner s w Hwf Hw) as [u Hu]. no_throw Hu.
Qed.

Lemma sellAsset_atomic s s' e assetId amount price :
  well_formed s →
  sellAsset assetId amount price s = (s', Throw e) → same_ledger s s'.
Proof.
  intros Hwf. rewrite sellAsset_run.
  destruct (getWallet None s) as [[w|]|] eqn:Hw; [|unchanged..].
  destruct (positionAt assetId w) as [[asset|]|]; [|done|unchanged].
  destruct (_ <? _)%num; [unchanged|].
  destruct (well_formed_owner s w Hwf Hw) as [u Hu]. cbn zeta. no_throw Hu.
Qed.

Lemma swapAssets_exchange_atomic s s' e fromAssetId toAssetId amount :
  well_formed s →
  swapAssets_exchange fromAssetId toAssetId amount s = (s', Throw e) →
  same_ledger s s'.
Proof.
  intros Hwf. rewrite swapAssets_exchange_run.
  destruct (getWallet None s) as [[w|]|] eqn:Hw; [|unchanged..].
  destruct (positionAt fromAssetId w) as [[asset|]|]; [|done|unchanged].
  destruct (_ <? _)%num; [unchanged|]. cbn zeta.
  destruct (builtInPosition toAssetId _); [done|].
  destruct (well_formed_owner s w Hwf Hw) as [u Hu]. no_throw Hu.
Qed.

Lemma find_user_by_username_elem name l u :
  find_user_by_username name l = Some u → u ∈ l.
Proof.
  unfold find_user_by_username. intros H.
  apply find_some in H as [H _]. by apply list_elem_of_In.
Qed.

Lemma walletAt_after_write s k w0 rid :
  is_Some (wallets s !! rid) →
  ∃ wr : Wallet, walletAt rid (set_wallets (insert k w0) s) = Some wr.
Proof.
  intros [wr0 Hwr0]. unfold walletAt. simpl. rewrite lookup_insert.
  case_decide; [by eexists|]. rewrite Hwr0. by eexists.
Qed.

Lemma sendMoney_transfer_atomic s s' e recipientUsername amount assetId :
  well_formed s →
  sendMoney_transfer recipientUsername amount assetId s = (s', Throw e) →
  same_ledger s s'.
Proof.
  intros Hwf. rewrite sendMoney_transfer_run.
  destruct (find_user_by_username _ _) as [recipient|] eqn:Hfind;
    [|unchanged].
  cbn zeta.
  assert (∀ (w : Wallet) s2,
            getWallet None s = Some w →
            sendMoney_record recipient amount assetId s2 = (s', Throw e) →
            currentUser s2 = currentUser s → same_ledger s s') as Hrecord.
  { intros w s2 Hw Hrun Hcu.
    destruct (well_formed_owner s w Hwf Hw) as [u Hu].
    rewrite <- Hcu in Hu.
    pose proof (sendMoney_record_ok s2 u recipient amount assetId Hu)
      as Hrec.
    cbn zeta in Hrec. destruct Hrec as (Hr & _).
    rewrite Hrun in Hr. done. }
  pose proof (proj1 Hwf recipient (find_user_by_username_elem _ _ _ Hfind))
    as Hrw.
  destruct (String.eqb assetId "USD").
  - destruct (getWallet None s) as [[w|]|] eqn:Hw; [|done|unchanged].
    destruct (_ <? _)%num; [unchanged|].
    destruct (walletAt_after_write s (targetUserId None s)
                (debited assetId amount w) _ Hrw) as [wr Hwr].
    rewrite Hwr. intros Hrun. by eapply Hrecord.
  - destruct (getWallet None s) as [[w|]|] eqn:Hw; [|unchanged..].
    destruct (positionAt assetId w) as [[asset|]|]; [|done|unchanged].
    destruct (_ <? _)%num; [unchanged|].
    destruct (walletAt_after_write s (targetUserId None s)
                (debited assetId amount w) _ Hrw) as [wr Hwr].
    rewrite Hwr.
    destruct (builtInPosition assetId wr); [done|].
    intros Hrun. by eapply Hrecord.
Qed.

(** C4: on a state in which every user has a wallet, a [sendMoney],
    [buyAsset], [sellAsset] or [swapAssets] that throws, whatever the error,
    leaves every wallet and the transaction history as they were before the
    call (and with them the users, the session, the PIN records and the
    quotes). *)
Theorem ledger_operations_atomic (s s' : State) (e : exn) :
  well_formed s →
  (∀ recipientUsername amount assetId pin,
     sendMoney recipientUsername amount assetId pin s = (s', Throw e) →
     same_ledger s s') ∧
  (∀ assetId amount price,
     buyAsset assetId amount price s = (s', Throw e) → same_ledger s s') ∧
  (∀ assetId amount price,
     sellAsset assetId amount price s = (s', Throw e) → same_ledger s s') ∧
  (∀ fromAssetId toAssetId amount pin,
     swapAssets fromAssetId toAssetId amount pin s = (s', Throw e) →
     same_ledger s s').
Proof.
  intros Hwf. split_and!.
  - intros r a asset pin. unfold sendMoney, bind.
    pose proof (requirePin_same_ledger s pin) as Hsame.
    destruct (requirePin pin s) as [s1 [[]|e1|]]; simpl in Hsame.
    + intros Hrun. eapply same_ledger_trans; [exact Hsame|].
      eapply sendMoney_transfer_atomic; [|exact Hrun].
      by eapply well_formed_same_ledger.
    + by intros [= <- _].
    + done.
  - intros asset a p. by apply buyAsset_atomic.
  - intros asset a p. by apply sellAsset_atomic.
  - intros f t a pin. unfold swapAssets, bind.
    pose proof (requirePin_same_ledger s pin) as Hsame.
    destruct (requirePin pin s) as [s1 [[]|e1|]]; simpl in Hsame.
    + intros Hrun. eapply same_ledger_trans; [exact Hsame|].
      eapply swapAssets_exchange_atomic; [|exact Hrun].
      by eapply well_formed_same_ledger.
    + by intros [= <- _].
    + done.
Qed.

Lemma demo_well_formed : well_formed Demo.start.
Proof.
  split; [|done]. intros u Hu.
  apply elem_of_cons in Hu as [->|Hu]; [by eexists|].
  apply elem_of_cons in Hu as [->|Hu]; [by eexists|].
  by apply elem_of_nil in Hu.
Qed.

(** A transfer and a purchase that Alice cannot afford. *)
Lemma ledger_operations_atomic_witness :
  same_ledger Demo.start
    (sendMoney "bob" (Num.of_Z 5000) "USD" None Demo.start).1 ∧
  same_ledger Demo.start
    (buyAsset "BTC" (Num.of_Z 1) None Demo.start).1.
Proof.
  split.
  - apply (proj1 (ledger_operations_atomic Demo.start
                    (sendMoney "bob" (Num.of_Z 5000) "USD" None Demo.start).1
                    (Error "Insufficient balance") demo_well_formed)
             "bob" (Num.of_Z 5000) "USD" None).
    vm_compute. reflexivity.
  - apply (proj1 (proj2 (ledger_operations_atomic Demo.start
                    (buyAsset "BTC" (Num.of_Z 1) None Demo.start).1
                    (Error "Insufficient USD balance") demo_well_formed))
             "BTC" (Num.of_Z 1) None).
    vm_compute. reflexivity.
Defined.

(** ** What an operation writes in the wallets *)

Lemma ensurePosition_lookup_gen a w :
  assets (ensurePosition a w) !! a =
    if builtInPosition a w then None
    else Some (default emptyPosition (assets w !! a)).
Proof.
  destruct (builtInPosition a w) eqn:Hb.
  - rewrite ensurePosition_builtIn by done.
    unfold builtInPosition, positionAt in Hb.
    by destruct (assets w !! a).
  - by apply ensurePosition_lookup.
Qed.

Lemma sold_lookup assetId amount proceeds w :
  assets (sold assetId amount proceeds w) !! assetId =
    match assets w !! assetId with
    | Some p =>
        if (balance p - amount === 0)%num then None
        else Some (mkAsset (balance p - amount) (averageCost p))
    | None => None
    end.
Proof.
  unfold sold. rewrite dropIfEmpty_lookup. simpl.
  rewrite lookup_alter_eq. by destruct (assets w !! assetId).
Qed.

Lemma sold_lookup_ne assetId amount proceeds w a :
  a ≠ assetId → assets (sold assetId amount proceeds w) !! a = assets w !! a.
Proof.
  intros Hne. unfold sold. rewrite dropIfEmpty_lookup_ne by done. simpl.
  by rewrite lookup_alter_ne.
Qed.

Lemma sold_dollar assetId amount proceeds w :
  dollarBalance (sold assetId amount proceeds w)
  = (dollarBalance w + proceeds)%num.
Proof. unfold sold. by rewrite dropIfEmpty_dollar. Qed.

Lemma addMoney_wallets s amount :
  completes (addMoney amount s).2 →
  wallets (addMoney amount s).1 = wallets s ∨
  ∃ w : Wallet,
    getWallet None s = Some w ∧
    wallets (addMoney amount s).1 =
      <[targetUserId None s :=
         set_dollarBalance (λ b, b + amount)%num w]> (wallets s).
Proof.
  rewrite addMoney_run.
  destruct (getWallet None s) as [[w|]|]; [|done|by left]. intros _.
  right. exists w. split; [done|]. by rewrite createTransaction_preserves.
Qed.

Lemma receiveMoney_wallets s amount assetId :
  completes (receiveMoney amount assetId s).2 →
  wallets (receiveMoney amount assetId s).1 = wallets s ∨
  ∃ w : Wallet,
    getWallet None s = Some w ∧
    wallets (receiveMoney amount assetId s).1 =
      <[targetUserId None s := credited assetId amount w]> (wallets s).
Proof.
  rewrite receiveMoney_run.
  destruct (getWallet None s) as [[w|]|]; [|by left..].
  destruct (_ && _); [done|]. intros _.
  right. exists w. split; [done|]. by rewrite createTransaction_preserves.
Qed.

Lemma updateUserBalance_wallets s userId assetId newBalance :
  completes (updateUserBalance userId assetId newBalance s).2 →
  wallets (updateUserBalance userId assetId newBalance s).1 = wallets s ∨
  ∃ w : Wallet,
    getWallet userId s = Some w ∧
    wallets (updateUserBalance userId assetId newBalance s).1 =
      <[targetUserId userId s :=
         if String.eqb assetId "USD"
         then set_dollarBalance (λ _, newBalance) w
         else updPosition assetId (set_balance (λ _, newBalance))
                (ensurePosition assetId w)]> (wallets s).
Proof.
  rewrite updateUserBalance_run.
  destruct (getWallet userId s) as [[w|]|]; [|by left..].
  destruct (_ && _); [done|]. intros _.
  right. by exists w.
Qed.

Lemma buyAsset_wallets s assetId amount price :
  completes (buyAsset assetId amount price s).2 →
  wallets (buyAsset assetId amount price s).1 = wallets s ∨
  ∃ w : Wallet,
    getWallet None s = Some w ∧
    (dollarBalance w <? unitPrice price assetId s * amount)%num = false ∧
    wallets (buyAsset assetId amount price s).1 =
      <[targetUserId None s :=
         bought assetId amount (unitPrice price assetId s * amount) w]>
        (wallets s).
Proof.
  rewrite buyAsset_run.
  destruct (getWallet None s) as [[w|]|]; [|done|by left].
  cbn zeta. destruct (_ <? _)%num eqn:Hlt; [by left|].
  destruct (builtInPosition assetId w); [done|]. intros _.
  right. exists w. split_and!; [done..|].
  by rewrite createTransaction_preserves.
Qed.

Lemma sellAsset_wallets s assetId amount price :
  completes (sellAsset assetId amount price s).2 →
  wallets (sellAsset assetId amount price s).1 = wallets s ∨
  ∃ (w : Wallet) p,
    getWallet None s = Some w ∧ assets w !! assetId = Some p ∧
    (balance p <? amount)%num = false ∧
    wallets (sellAsset assetId amount price s).1 =
      <[targetUserId None s :=
         sold assetId amount (unitPrice price assetId s * amount) w]>
        (wallets s).
Proof.
  rewrite sellAsset_run.
  destruct (getWallet None s) as [[w|]|]; [|by left..].
  destruct (positionAt assetId w) as [[p|]|] eqn:Hp; [|done|by left].
  apply positionAt_own in Hp.
  destruct (_ <? _)%num eqn:Hlt; [by left|]. intros _.
  right. exists w, p. split_and!; [done..|]. cbn zeta.
  by rewrite createTransaction_preserves.
Qed.

Lemma swapAssets_wallets s fromAssetId toAssetId amount pin :
  completes (swapAssets fromAssetId toAssetId amount pin s).2 →
  wallets (swapAssets fromAssetId toAssetId amount pin s).1 = wallets s ∨
  ∃ (w : Wallet) p,
    getWallet None s = Some w ∧ assets w !! fromAssetId = Some p ∧
    (balance p <? amount)%num = false ∧
    wallets (swapAssets fromAssetId toAssetId amount pin s).1 =
      <[targetUserId None s :=
         swapped fromAssetId toAssetId amount
           (swapAmount fromAssetId toAssetId amount s) w]> (wallets s).
Proof.
  unfold swapAssets, bind.
  pose proof (requirePin_same_ledger s pin) as Hsame.
  destruct (requirePin pin s) as [s1 [[]|e|]]; simpl in Hsame;
    [|left; by destruct Hsame..].
  rewrite swapAssets_exchange_run.
  rewrite (same_ledger_getWallet s s1) by done.
  replace (swapAmount fromAssetId toAssetId amount s1)
    with (swapAmount fromAssetId toAssetId amount s)
    by (unfold swapAmount; by rewrite !(same_ledger_marketPrice s s1)).
  rewrite (same_ledger_targetUserId s s1) by done.
  destruct Hsame as (Hws & _).
  destruct (getWallet None s) as [[w|]|]; [|by left..].
  destruct (positionAt fromAssetId w) as [[p|]|] eqn:Hp; [|done|by left].
  apply positionAt_own in Hp.
  destruct (_ <? _)%num eqn:Hlt; [by left|]. cbn zeta.
  destruct (builtInPosition toAssetId _); [done|]. intros _.
  right. exists w, p. split_and!; [done..|].
  rewrite createTransaction_preserves by done. simpl. by rewrite Hws.
Qed.

Lemma sendMoney_wallets s recipientUsername amount assetId pin :
  completes (sendMoney recipientUsername amount assetId pin s).2 →
  wallets (sendMoney recipientUsername amount assetId pin s).1 = wallets s ∨
  ∃ recipient (w : Wallet),
    find_user_by_username recipientUsername (users s) = Some recipient ∧
    getWallet None s = Some w ∧
    (String.eqb assetId "USD" = true ∨ is_Some (assets w !! assetId)) ∧
    (holding assetId w <? amount)%num = false ∧
    let ws1 := <[targetUserId None s := debited assetId amount w]> (wallets s) in
    (wallets (sendMoney recipientUsername amount assetId pin s).1 = ws1 ∨
     ∃ wr, ws1 !! user_id recipient = Some wr ∧
           wallets (sendMoney recipientUsername amount assetId pin s).1 =
             <[user_id recipient := credited assetId amount wr]> ws1).
Proof.
  unfold sendMoney, bind.
  pose proof (requirePin_same_ledger s pin) as Hsame.
  destruct (requirePin pin s) as [s1 [[]|e|]]; simpl in Hsame;
    [|left; by destruct Hsame..].
  rewrite sendMoney_transfer_run.
  rewrite (same_ledger_getWallet s s1), (same_ledger_targetUserId s s1)
    by done.
  destruct Hsame as (Hws & _ & Hus & _). rewrite Hus.
  destruct (find_user_by_username _ _) as [recipient|]; [|by left].
  cbn zeta.
  destruct (getWallet None s) as [[w|]|];
    [|destruct (String.eqb assetId "USD"); (done || by left)..].
  assert (∀ r : State * result (Transaction * Transaction),
    completes r.2 →
    (r = match walletAt (user_id recipient)
                 (set_wallets
                    (insert (targetUserId None s) (debited assetId amount w))
                    s1) with
         | Some (OwnWallet wr) =>
             if negb (String.eqb assetId "USD") && builtInPosition assetId wr
             then (set_wallets
                     (insert (targetUserId None s)
                        (debited assetId amount w)) s1, Escapes)
             else sendMoney_record recipient amount assetId
                    (set_wallets
                       (insert (user_id recipient)
                          (credited assetId amount wr))
                       (set_wallets
                          (insert (targetUserId None s)
                             (debited assetId amount w)) s1))
         | Some BuiltInWallet =>
             (set_wallets
                (insert (targetUserId None s) (debited assetId amount w)) s1,
              if String.eqb assetId "USD" then Escapes else Throw TypeError)
         | None =>
             (set_wallets
                (insert (targetUserId None s) (debited assetId amount w)) s1,
              Throw TypeError)
         end) →
    let ws1 := <[targetUserId None s := debited assetId amount w]> (wallets s) in
    wallets r.1 = ws1 ∨
    ∃ wr, ws1 !! user_id recipient = Some wr ∧
          wallets r.1 = <[user_id recipient := credited assetId amount wr]> ws1)
    as Hafter.
  { intros r Hc -> ws1. revert Hc.
    destruct (walletAt _ _) as [[wr|]|] eqn:Hwr.
    - apply walletAt_own in Hwr. simpl in Hwr. rewrite Hws in Hwr.
      destruct (_ && _); [done|]. intros _. right. exists wr. split; [done|].
      rewrite sendMoney_record_wallets. simpl. by rewrite Hws.
    - intros _. left. simpl. by rewrite Hws.
    - intros _. left. simpl. by rewrite Hws. }
  destruct (String.eqb assetId "USD") eqn:Husd.
  - destruct (_ <? _)%num eqn:Hlt; [by left|]. intros Hc.
    right. exists recipient, w. split_and!; try done; [by left| |].
    + unfold holding. by rewrite Husd.
    + apply Hafter; [done|]. cbn [negb andb].
      by destruct (walletAt _ _) as [[wr|]|].
  - destruct (positionAt assetId w) as [[p|]|] eqn:Hp; [|done|by left].
    apply positionAt_own in Hp.
    destruct (_ <? _)%num eqn:Hlt; [by left|]. intros Hc.
    right. exists recipient, w. split_and!; try done; [by right| |].
    + unfold holding. by rewrite Husd, Hp.
    + apply Hafter; [done|]. cbn [negb andb].
      by destruct (walletAt _ _) as [[wr|]|].
Qed.

(** ** Non-negativity *)

Lemma getWallet_nonneg s userId (w : Wallet) :
  balances_nonneg s → getWallet userId s = Some w → wallet_nonneg w.
Proof.
  intros H Hw. apply getWallet_own in Hw.
  by apply (map_Forall_lookup_1 _ _ _ _ H Hw).
Qed.

Lemma old_position_ge0 w a :
  map_Forall (λ _ p, Num.ge0 (balance p)) (assets w) →
  Num.ge0 (balance (default emptyPosition (assets w !! a))).
Proof.
  intros Ha. destruct (assets w !! a) as [p0|] eqn:Hp0; simpl.
  - by apply (map_Forall_lookup_1 _ _ _ _ Ha Hp0).
  - apply ge0_zero.
Qed.

Lemma credited_nonneg assetId amount w :
  wallet_nonneg w → Num.ge0 amount →
  wallet_nonneg (credited assetId amount w).
Proof.
  intros [Hd Ha] Hamt. unfold credited.
  destruct (String.eqb assetId "USD").
  - split; [by apply ge0_add|done].
  - split; [simpl; by rewrite ensurePosition_dollar|].
    apply map_Forall_lookup. intros a p.
    destruct (decide (a = assetId)) as [->|Hne].
    + rewrite updPosition_lookup, ensurePosition_lookup_gen.
      destruct (builtInPosition assetId w); [done|]. intros [= <-].
      simpl. apply ge0_add; [|done]. by apply old_position_ge0.
    + rewrite updPosition_lookup_ne, ensurePosition_lookup_ne by done.
      intros Hp. by apply (map_Forall_lookup_1 _ _ _ _ Ha Hp).
Qed.

Lemma debited_nonneg assetId amount w :
  wallet_nonneg w → Num.amount_ok amount →
  (holding assetId w <? amount)%num = false →
  wallet_nonneg (debited assetId amount w).
Proof.
  intros [Hd Ha] Hamt. unfold holding, debited.
  destruct (String.eqb assetId "USD").
  - intros Hlt. split; [by apply ge0_sub|done].
  - intros Hlt. split; [done|].
    apply map_Forall_lookup. intros a p.
    destruct (decide (a = assetId)) as [->|Hne].
    + rewrite updPosition_lookup.
      destruct (assets w !! assetId) as [p0|] eqn:Hp0; [|done].
      intros [= <-]. simpl.
      apply ge0_sub; [|done..].
      by apply (map_Forall_lookup_1 _ _ _ _ Ha Hp0).
    + rewrite updPosition_lookup_ne by done.
      intros Hp. by apply (map_Forall_lookup_1 _ _ _ _ Ha Hp).
Qed.

Lemma bought_nonneg assetId amount cost w :
  wallet_nonneg w → Num.amount_ok amount → Num.amount_ok cost →
  (dollarBalance w <? cost)%num = false →
  wallet_nonneg (bought assetId amount cost w).
Proof.
  intros [Hd Ha] Hamt Hcost Hlt. unfold bought. split.
  - simpl. rewrite ensurePosition_dollar. by apply ge0_sub.
  - apply map_Forall_lookup. intros a p.
    destruct (decide (a = assetId)) as [->|Hne].
    + rewrite updPosition_lookup, ensurePosition_lookup_gen.
      destruct (builtInPosition _ _); [done|]. intros [= <-].
      simpl. apply ge0_add; [|by apply amount_ok_ge0].
      by apply (old_position_ge0 w).
    + rewrite updPosition_lookup_ne, ensurePosition_lookup_ne by done.
      intros Hp. by apply (map_Forall_lookup_1 _ _ _ _ Ha Hp).
Qed.

Lemma sold_nonneg assetId amount proceeds w p :
  wallet_nonneg w → Num.amount_ok amount → Num.ge0 proceeds →
  assets w !! assetId = Some p → (balance p <? amount)%num = false →
  wallet_nonneg (sold assetId amount proceeds w).
Proof.
  intros [Hd Ha] Hamt Hpr Hp Hlt. split.
  - rewrite sold_dollar. by apply ge0_add.
  - apply map_Forall_lookup. intros a q.
    destruct (decide (a = assetId)) as [->|Hne].
    + rewrite sold_lookup, Hp. destruct (_ === _)%num; [done|].
      intros [= <-]. simpl. apply ge0_sub; [|done..].
      by apply (map_Forall_lookup_1 _ _ _ _ Ha Hp).
    + rewrite sold_lookup_ne by done.
      intros Hq. by apply (map_Forall_lookup_1 _ _ _ _ Ha Hq).
Qed.

Lemma swapped_nonneg fromAssetId toAssetId amount toAmount w p :
  wallet_nonneg w → Num.amount_ok amount → Num.ge0 toAmount →
  assets w !! fromAssetId = Some p → (balance p <? amount)%num = false →
  wallet_nonneg (swapped fromAssetId toAssetId amount toAmount w).
Proof.
  intros [Hd Ha] Hamt Hton Hp Hlt.
  pose proof (map_Forall_lookup_1 _ _ _ _ Ha Hp) as Hpn. simpl in Hpn.
  pose proof (ge0_sub _ _ Hpn Hamt Hlt) as Hrest.
  split.
  - by rewrite swapped_dollar.
  - apply map_Forall_lookup. intros a q.
    destruct (decide (fromAssetId = toAssetId)) as [<-|Hft].
    + destruct (decide (a = fromAssetId)) as [->|Hne].
      * rewrite (swapped_same _ _ _ _ p Hp). destruct (_ === _)%num; [done|].
        intros [= <-]. simpl. by apply ge0_add.
      * rewrite swapped_other by done.
        intros Hq. by apply (map_Forall_lookup_1 _ _ _ _ Ha Hq).
    + destruct (decide (a = fromAssetId)) as [->|Hne1].
      * rewrite (swapped_from _ _ _ _ _ p Hft Hp).
        destruct (_ === _)%num; [done|]. by intros [= <-].
      * destruct (decide (a = toAssetId)) as [->|Hne2].
        -- unfold swapped.
           rewrite dropIfEmpty_lookup_ne, updPosition_lookup by done.
           rewrite ensurePosition_lookup_gen.
           destruct (builtInPosition _ _); [done|].
           rewrite updPosition_lookup_ne by done. intros [= <-]. simpl.
           apply ge0_add; [|done]. by apply old_position_ge0.
        -- rewrite swapped_other by done.
           intros Hq. by apply (map_Forall_lookup_1 _ _ _ _ Ha Hq).
Qed.

Lemma forced_nonneg assetId newBalance w :
  wallet_nonneg w → Num.amount_ok newBalance →
  wallet_nonneg
    (if String.eqb assetId "USD"
     then set_dollarBalance (λ _, newBalance) w
     else updPosition assetId (set_balance (λ _, newBalance))
            (ensurePosition assetId w)).
Proof.
  intros [Hd Ha] Hb. apply amount_ok_ge0 in Hb.
  destruct (String.eqb assetId "USD"); [by split|].
  split; [simpl; by rewrite ensurePosition_dollar|].
  apply map_Forall_lookup. intros a p.
  destruct (decide (a = assetId)) as [->|Hne].
  - rewrite updPosition_lookup, ensurePosition_lookup_gen.
    destruct (builtInPosition _ _); [done|]. by intros [= <-].
  - rewrite updPosition_lookup_ne, ensurePosition_lookup_ne by done.
    intros Hp. by apply (map_Forall_lookup_1 _ _ _ _ Ha Hp).
Qed.

Lemma exec_unfold op s :
  exec op s =
    match op with
    | OpAddMoney a => (addMoney a ;;; ret tt) s
    | OpReceiveMoney a asset => (receiveMoney a asset ;;; ret tt) s
    | OpSendMoney r a asset pin => (sendMoney r a asset pin ;;; ret tt) s
    | OpBuyAsset asset a p => (buyAsset asset a p ;;; ret tt) s
    | OpSellAsset asset a p => (sellAsset asset a p ;;; ret tt) s
    | OpSwapAssets f t a pin => (swapAssets f t a pin ;;; ret tt) s
    | OpUpdateUserBalance u asset b => updateUserBalance u asset b s
    end.
Proof. by destruct op. Qed.

Lemma then_ret_state {A} (m : M A) s : ((m ;;; ret tt) s).1 = (m s).1.
Proof. unfold bind, ret. by destruct (m s) as [? [?|?|]]. Qed.

Lemma then_ret_completes {A} (m : M A) s :
  completes ((m ;;; ret tt) s).2 ↔ completes (m s).2.
Proof. unfold bind, ret. by destruct (m s) as [? [?|?|]]. Qed.

Lemma then_ret_succeeded {A} (m : M A) s :
  succeeded ((m ;;; ret tt) s).2 = succeeded (m s).2.
Proof. unfold bind, ret. by destruct (m s) as [? [?|?|]]. Qed.

Lemma step_unfold op s :
  step op s =
    match op with
    | OpAddMoney a => (addMoney a s).1
    | OpReceiveMoney a asset => (receiveMoney a asset s).1
    | OpSendMoney r a asset pin => (sendMoney r a asset pin s).1
    | OpBuyAsset asset a p => (buyAsset asset a p s).1
    | OpSellAsset asset a p => (sellAsset asset a p s).1
    | OpSwapAssets f t a pin => (swapAssets f t a pin s).1
    | OpUpdateUserBalance u asset b => (updateUserBalance u asset b s).1
    end.
Proof.
  unfold step. rewrite exec_unfold.
  destruct op; try done; apply then_ret_state.
Qed.

Lemma completes_unfold op s :
  completes (exec op s).2 ↔
    match op with
    | OpAddMoney a => completes (addMoney a s).2
    | OpReceiveMoney a asset => completes (receiveMoney a asset s).2
    | OpSendMoney r a asset pin => completes (sendMoney r a asset pin s).2
    | OpBuyAsset asset a p => completes (buyAsset asset a p s).2
    | OpSellAsset asset a p => completes (sellAsset asset a p s).2
    | OpSwapAssets f t a pin => completes (swapAssets f t a pin s).2
    | OpUpdateUserBalance u asset b =>
        completes (updateUserBalance u asset b s).2
    end.
Proof.
  rewrite exec_unfold. destruct op; try done; apply then_ret_completes.
Qed.

Lemma step_nonneg s op :
  balances_nonneg s → nonneg_args s op → completes (exec op s).2 →
  balances_nonneg (step op s).
Proof.
  intros Hs Hargs Hc. apply completes_unfold in Hc.
  unfold balances_nonneg. rewrite step_unfold.
  destruct op as [a|a asset|r a asset pin|asset a p|asset a p|f t a pin
                 |u asset b]; simpl in Hargs.
  - destruct (addMoney_wallets s a Hc) as [->|(w & Hw & ->)]; [done|].
    apply map_Forall_insert_2; [|done].
    destruct (getWallet_nonneg s None w Hs Hw) as [Hd Ha].
    split; [|done]. simpl.
    apply ge0_add; [done|by apply amount_ok_ge0].
  - destruct (receiveMoney_wallets s a asset Hc) as [->|(w & Hw & ->)];
      [done|].
    apply map_Forall_insert_2; [|done].
    apply credited_nonneg; [by eapply getWallet_nonneg|].
    by apply amount_ok_ge0.
  - destruct (sendMoney_wallets s r a asset pin Hc)
      as [->|(rc & w & _ & Hw & Hb & Hlt & Hcases)]; [done|].
    cbn zeta in Hcases.
    assert (map_Forall (λ _ w, wallet_nonneg w)
              (<[targetUserId None s := debited asset a w]> (wallets s)))
      as Hdeb.
    { apply map_Forall_insert_2; [|done].
      apply debited_nonneg; try done.
      by eapply getWallet_nonneg. }
    destruct Hcases as [->|(wr & Hwr & ->)]; [done|].
    apply map_Forall_insert_2; [|done].
    apply credited_nonneg; [|by apply amount_ok_ge0].
    by apply (map_Forall_lookup_1 _ _ _ _ Hdeb Hwr).
  - destruct Hargs as (Ha & Hp & Hcost).
    destruct (buyAsset_wallets s asset a p Hc) as [->|(w & Hw & Hlt & ->)];
      [done|].
    apply map_Forall_insert_2; [|done].
    apply bought_nonneg; try done. by eapply getWallet_nonneg.
  - destruct Hargs as [Ha Hp].
    destruct (sellAsset_wallets s asset a p Hc)
      as [->|(w & q & Hw & Hq & Hlt & ->)]; [done|].
    apply map_Forall_insert_2; [|done].
    apply (sold_nonneg _ _ _ _ q); try done; [by eapply getWallet_nonneg|].
    by apply ge0_mul.
  - destruct Hargs as (Ha & Hf & Ht & Htp).
    destruct (swapAssets_wallets s f t a pin Hc)
      as [->|(w & q & Hw & Hq & Hlt & ->)]; [done|].
    apply map_Forall_insert_2; [|done].
    apply (swapped_nonneg _ _ _ _ _ q); try done;
      [by eapply getWallet_nonneg|].
    apply ge0_div; [|done..].
    by apply ge0_mul.
  - destruct (updateUserBalance_wallets s u asset b Hc)
      as [->|(w & Hw & ->)]; [done|].
    apply map_Forall_insert_2; [|done].
    apply forced_nonneg; [by eapply getWallet_nonneg|done].
Qed.

(** C1, as the code has it: starting from non-negative balances, every state
    reached by operations whose amounts, prices and forced balances are
    finite and not negative, a purchase having a finite cost and a swap
    buying only an asset with a positive quote, has every fiat balance and
    every position balance [>= 0]. *)
Theorem nonneg_invariant (s0 s : State) :
  balances_nonneg s0 →
  reachable nonneg_args s0 s →
  balances_nonneg s.
Proof.
  intros H0 Hreach. induction Hreach as [|s op _ IH Hop Hc|s s' _ IH Heq].
  - done.
  - by apply step_nonneg.
  - unfold balances_nonneg. by rewrite Heq.
Qed.

Lemma demo_nonneg : balances_nonneg Demo.start.
Proof.
  unfold balances_nonneg, Demo.start. simpl.
  apply map_Forall_insert_2.
  - split; [by vm_compute|]. simpl. apply map_Forall_insert_2; [by vm_compute|].
    apply map_Forall_empty.
  - apply map_Forall_insert_2; [|apply map_Forall_empty].
    split; [by vm_compute|apply map_Forall_empty].
Qed.

(** Alice sends her 1000 dollars to Bob, then swaps 4 BTC for ETH. *)
Lemma nonneg_invariant_witness :
  balances_nonneg
    (step (OpSwapAssets "BTC" "ETH" (Num.of_Z 4) None)
       (step (OpSendMoney "bob" (Num.of_Z 1000) "USD" None) Demo.start)).
Proof.
  apply (nonneg_invariant Demo.start); [exact demo_nonneg|].
  apply reach_op; [apply reach_op; [apply reach_start| |]| |].
  - by vm_compute.
  - by vm_compute.
  - vm_compute. split_and!; done.
  - by vm_compute.
Defined.

(** [addMoney(-5000)] on a balance of 1000 leaves -4000.  And amounts and
    prices that are not negative do not suffice: Alice sells her 10 BTC at
    10^308 a unit, which makes her balance [Infinity], then buys 10 BTC at
    the same price, which leaves [Infinity - Infinity], a [NaN] that is not
    [>= 0]. *)
Lemma negative_balance_reachable :
  ¬ (∀ s0 s, balances_nonneg s0 → reachable (λ _ _, True) s0 s →
             balances_nonneg s) ∧
  let price := Some (Num.of_Z (10 ^ 308)) in
  let s1 := step (OpSellAsset "BTC" (Num.of_Z 10) price) Demo.start in
  let s2 := step (OpBuyAsset "BTC" (Num.of_Z 10) price) s1 in
  holdingOf s1 "u1" "USD" = infinity ∧
  succeeded (exec (OpBuyAsset "BTC" (Num.of_Z 10) price) s1).2 = true ∧
  is_nan (holdingOf s2 "u1" "USD") = true ∧
  ¬ Num.ge0 (holdingOf s2 "u1" "USD").
Proof.
  split.
  - intros H.
    specialize (H Demo.start
                  (step (OpAddMoney (Num.of_Z (-5000))) Demo.start)
                  demo_nonneg).
    assert (reachable (λ _ _, True) Demo.start
              (step (OpAddMoney (Num.of_Z (-5000))) Demo.start)) as Hr
      by (by apply reach_op; [apply reach_start| |vm_compute]).
    specialize (H Hr).
    assert (wallets (step (OpAddMoney (Num.of_Z (-5000))) Demo.start) !! "u1"
            = Some (mkWallet "u1" (Num.of_Z (-4000))
                      (<["BTC" := Demo.btc10]> ∅) Num.zero)) as Hw
      by (vm_compute; reflexivity).
    destruct (map_Forall_lookup_1 _ _ _ _ H Hw) as [Hd _].
    by vm_compute in Hd.
  - vm_compute. split_and!; try done.
Qed.

(** ** Presence of positions *)

Lemma old_position_positive_ge0 w a :
  positions_positive w →
  Num.ge0 (balance (default emptyPosition (assets w !! a))).
Proof.
  intros Ha. destruct (assets w !! a) as [p0|] eqn:Hp0; simpl.
  - apply positive_ge0. by apply (map_Forall_lookup_1 _ _ _ _ Ha Hp0).
  - apply ge0_zero.
Qed.

Lemma credited_positive assetId amount w :
  positions_positive w →
  assetId = "USD" ∨ Num.positive amount →
  positions_positive (credited assetId amount w).
Proof.
  intros Hpos Hamt. unfold credited.
  destruct (String.eqb_spec assetId "USD") as [->|Hne]; [done|].
  destruct Hamt as [?|Hamt]; [done|].
  apply map_Forall_lookup. intros a p.
  destruct (decide (a = assetId)) as [->|Hna].
  - rewrite updPosition_lookup, ensurePosition_lookup_gen.
    destruct (builtInPosition assetId w); [done|]. intros [= <-].
    simpl. apply positive_add_r; [|done].
    by apply old_position_positive_ge0.
  - rewrite updPosition_lookup_ne, ensurePosition_lookup_ne by done.
    intros Hp. by apply (map_Forall_lookup_1 _ _ _ _ Hpos Hp).
Qed.

Lemma forced_positive assetId newBalance w :
  positions_positive w →
  assetId = "USD" ∨ Num.positive newBalance →
  positions_positive
    (if String.eqb assetId "USD"
     then set_dollarBalance (λ _, newBalance) w
     else updPosition assetId (set_balance (λ _, newBalance))
            (ensurePosition assetId w)).
Proof.
  intros Hpos Hamt.
  destruct (String.eqb_spec assetId "USD") as [->|Hne]; [done|].
  destruct Hamt as [?|Hamt]; [done|].
  apply map_Forall_lookup. intros a p.
  destruct (decide (a = assetId)) as [->|Hna].
  - rewrite updPosition_lookup, ensurePosition_lookup_gen.
    destruct (builtInPosition assetId w); [done|]. by intros [= <-].
  - rewrite updPosition_lookup_ne, ensurePosition_lookup_ne by done.
    intros Hp. by apply (map_Forall_lookup_1 _ _ _ _ Hpos Hp).
Qed.

Lemma bought_positive assetId amount cost w :
  positions_positive w → Num.positive amount →
  positions_positive (bought assetId amount cost w).
Proof.
  intros Hpos Hamt. unfold bought.
  apply map_Forall_lookup. intros a p.
  destruct (decide (a = assetId)) as [->|Hna].
  - rewrite updPosition_lookup, ensurePosition_lookup_gen.
    destruct (builtInPosition _ _); [done|]. intros [= <-].
    simpl. apply positive_add_r; [|done].
    by apply (old_position_positive_ge0 w).
  - rewrite updPosition_lookup_ne, ensurePosition_lookup_ne by done.
    intros Hp. by apply (map_Forall_lookup_1 _ _ _ _ Hpos Hp).
Qed.

Lemma debited_positive assetId amount w :
  positions_positive w →
  assetId = "USD" ∨
    (Num.amount_ok amount ∧ (holding assetId w === amount)%num = false) →
  (holding assetId w <? amount)%num = false →
  positions_positive (debited assetId amount w).
Proof.
  intros Hpos Hamt. unfold holding, debited.
  destruct (String.eqb_spec assetId "USD") as [->|Hne]; [done|].
  destruct Hamt as [?|[Hamt Hneq]]; [done|]. intros Hlt.
  apply map_Forall_lookup. intros a p.
  destruct (decide (a = assetId)) as [->|Hna].
  - rewrite updPosition_lookup.
    destruct (assets w !! assetId) as [p0|] eqn:Hp0; [|done].
    intros [= <-]. simpl.
    pose proof (map_Forall_lookup_1 _ _ _ _ Hpos Hp0) as Hp. simpl in Hp.
    apply positive_ge0 in Hp.
    apply positive_sub; [done..|].
    apply ltb_total; [done|by apply amount_ok_ge0|exact Hlt|].
    unfold holding in Hneq.
    by rewrite (proj2 (String.eqb_neq _ _) Hne), Hp0 in Hneq.
  - rewrite updPosition_lookup_ne by done.
    intros Hp. by apply (map_Forall_lookup_1 _ _ _ _ Hpos Hp).
Qed.

Lemma sold_positive assetId amount proceeds w p :
  positions_positive w → Num.amount_ok amount →
  assets w !! assetId = Some p → (balance p <? amount)%num = false →
  positions_positive (sold assetId amount proceeds w).
Proof.
  intros Hpos Hamt Hp Hlt. apply map_Forall_lookup. intros a q.
  destruct (decide (a = assetId)) as [->|Hne].
  - rewrite sold_lookup, Hp.
    destruct (_ === _)%num eqn:Hz; [done|]. intros [= <-]. simpl.
    apply ge0_nonzero; [|done].
    apply ge0_sub; [|done..].
    apply positive_ge0.
    by apply (map_Forall_lookup_1 _ _ _ _ Hpos Hp).
  - rewrite sold_lookup_ne by done.
    intros Hq. by apply (map_Forall_lookup_1 _ _ _ _ Hpos Hq).
Qed.

Lemma swapped_positive fromAssetId toAssetId amount toAmount w p :
  positions_positive w → Num.amount_ok amount → Num.positive toAmount →
  assets w !! fromAssetId = Some p → (balance p <? amount)%num = false →
  positions_positive (swapped fromAssetId toAssetId amount toAmount w).
Proof.
  intros Hpos Hamt Hto Hp Hlt.
  pose proof (map_Forall_lookup_1 _ _ _ _ Hpos Hp) as Hpp. simpl in Hpp.
  pose proof (ge0_sub _ _ (positive_ge0 _ Hpp) Hamt Hlt) as Hrest.
  apply map_Forall_lookup. intros a q.
  destruct (decide (fromAssetId = toAssetId)) as [<-|Hft].
  - destruct (decide (a = fromAssetId)) as [->|Hne].
    + rewrite (swapped_same _ _ _ _ p Hp). destruct (_ === _)%num; [done|].
      intros [= <-]. simpl. by apply positive_add_r.
    + rewrite swapped_other by done.
      intros Hq. by apply (map_Forall_lookup_1 _ _ _ _ Hpos Hq).
  - destruct (decide (a = fromAssetId)) as [->|Hne1].
    + rewrite (swapped_from _ _ _ _ _ p Hft Hp).
      destruct (_ === _)%num eqn:Hz; [done|]. intros [= <-]. simpl.
      by apply ge0_nonzero.
    + destruct (decide (a = toAssetId)) as [->|Hne2].
      * unfold swapped.
        rewrite dropIfEmpty_lookup_ne, updPosition_lookup by done.
        rewrite ensurePosition_lookup_gen.
        destruct (builtInPosition _ _); [done|].
        rewrite updPosition_lookup_ne by done. intros [= <-]. simpl.
        apply positive_add_r; [|done].
        by apply old_position_positive_ge0.
      * rewrite swapped_other by done.
        intros Hq. by apply (map_Forall_lookup_1 _ _ _ _ Hpos Hq).
Qed.

Lemma sellAsset_outcome s assetId amount price (w : Wallet) p :
  getWallet None s = Some w → assets w !! assetId = Some p →
  succeeded (sellAsset assetId amount price s).2 = true →
  (balance p <? amount)%num = false ∧
  getWallet None (sellAsset assetId amount price s).1
    = Some (OwnWallet
              (sold assetId amount (unitPrice price assetId s * amount) w)).
Proof.
  intros Hw Hp. rewrite sellAsset_run, Hw.
  rewrite (proj2 (positionAt_own _ _ _) Hp).
  destruct (_ <? _)%num; [done|]. cbn zeta. intros _. split; [done|].
  apply getWallet_own. unfold targetUserId.
  rewrite (createTransaction_preserves wallets),
    (createTransaction_preserves currentUser) by done.
  apply lookup_insert_eq.
Qed.

Lemma holdingOf_owner s userId (w : Wallet) assetId :
  getWallet userId s = Some w →
  holdingOf s (targetUserId userId s) assetId = holding assetId w.
Proof.
  intros Hw. apply getWallet_own in Hw. unfold holdingOf. by rewrite Hw.
Qed.

Lemma getWallet_positive s userId (w : Wallet) :
  all_positions_positive s → getWallet userId s = Some w →
  positions_positive w.
Proof.
  intros H Hw. apply getWallet_own in Hw.
  by apply (map_Forall_lookup_1 _ _ _ _ H Hw).
Qed.

Lemma step_positive s op :
  all_positions_positive s → cleanup_args s op → completes (exec op s).2 →
  all_positions_positive (step op s).
Proof.
  intros Hs Hargs Hc. apply completes_unfold in Hc.
  unfold all_positions_positive. rewrite step_unfold.
  destruct op as [a|a asset|r a asset pin|asset a p|asset a p|f t a pin
                 |u asset b]; simpl in Hargs.
  - destruct (addMoney_wallets s a Hc) as [->|(w & Hw & ->)]; [done|].
    apply map_Forall_insert_2; [|done].
    by apply (getWallet_positive s None w).
  - destruct (receiveMoney_wallets s a asset Hc) as [->|(w & Hw & ->)];
      [done|].
    apply map_Forall_insert_2; [|done].
    apply credited_positive; [by eapply getWallet_positive|done].
  - destruct (sendMoney_wallets s r a asset pin Hc)
      as [->|(rc & w & _ & Hw & Hb & Hlt & Hcases)]; [done|].
    cbn zeta in Hcases.
    assert (map_Forall (λ _ w, positions_positive w)
              (<[targetUserId None s := debited asset a w]> (wallets s)))
      as Hdeb.
    { apply map_Forall_insert_2; [|done].
      apply debited_positive; [by eapply getWallet_positive| |done].
      destruct Hargs as [->|(_ & Hok & Hne)]; [by left|right].
      split; [done|]. by rewrite <- (holdingOf_owner s None w). }
    destruct Hcases as [->|(wr & Hwr & ->)]; [done|].
    apply map_Forall_insert_2; [|done].
    apply credited_positive.
    + by apply (map_Forall_lookup_1 _ _ _ _ Hdeb Hwr).
    + destruct Hargs as [->|(Hp & _)]; [by left|by right].
  - destruct (buyAsset_wallets s asset a p Hc) as [->|(w & Hw & Hlt & ->)];
      [done|].
    apply map_Forall_insert_2; [|done].
    apply bought_positive; [by eapply getWallet_positive|done].
  - destruct (sellAsset_wallets s asset a p Hc)
      as [->|(w & q & Hw & Hq & Hlt & ->)]; [done|].
    apply map_Forall_insert_2; [|done].
    apply (sold_positive _ _ _ _ q); try done.
    by eapply getWallet_positive.
  - destruct Hargs as (Ha & Hto).
    destruct (swapAssets_wallets s f t a pin Hc)
      as [->|(w & q & Hw & Hq & Hlt & ->)]; [done|].
    apply map_Forall_insert_2; [|done].
    apply (swapped_positive _ _ _ _ _ q); try done.
    by eapply getWallet_positive.
  - destruct (updateUserBalance_wallets s u asset b Hc)
      as [->|(w & Hw & ->)]; [done|].
    apply map_Forall_insert_2; [|done].
    apply forced_positive; [by eapply getWallet_positive|done].
Qed.

(** C3, as the code has it: an operation keeps the positions of the wallets
    strictly positive when what it credits to a position is strictly
    positive, what it debits is finite and not negative, and, for a
    transfer, is not the whole of the position.  From a state in which every
    position is strictly positive, such a call that completes leaves every
    position strictly positive; and when a [sellAsset], or a [swapAssets]
    into another asset, succeeds on the entire holding of the asset, the
    position is removed from the map. *)
Theorem cleanup_keeps_positions (s : State) (op : Op) :
  all_positions_positive s →
  cleanup_args s op →
  completes (exec op s).2 →
  all_positions_positive (step op s) ∧
  ∀ (w : Wallet) p,
    getWallet None s = Some w →
    succeeded (exec op s).2 = true →
    match op with
    | OpSellAsset assetId amount _ =>
        assets w !! assetId = Some p → amount = balance p →
        ∃ w' : Wallet, getWallet None (step op s) = Some w' ∧
                       assets w' !! assetId = None
    | OpSwapAssets fromAssetId toAssetId amount _ =>
        assets w !! fromAssetId = Some p → amount = balance p →
        fromAssetId ≠ toAssetId →
        ∃ w' : Wallet, getWallet None (step op s) = Some w' ∧
                       assets w' !! fromAssetId = None
    | _ => True
    end.
Proof.
  intros Hs Hargs Hc. split; [by apply step_positive|].
  destruct op as [a|a asset|r a asset pin|asset a pr|asset a pr|f t a pin
                 |u asset b]; try done; simpl in Hargs.
  - intros w p Hw Hok Hp ->.
    assert (succeeded (sellAsset asset (balance p) pr s).2 = true) as Hok'
      by (by rewrite <- then_ret_succeeded).
    destruct (sellAsset_outcome s asset (balance p) pr w p Hw Hp Hok')
      as [_ Hget].
    eexists. split.
    + rewrite step_unfold. exact Hget.
    + rewrite sold_lookup, Hp.
      change (balance p - balance p === 0)%num
        with (balance p - balance p =? 0)%float.
      by rewrite sub_self_zero.
  - destruct Hargs as (Ha & Hto).
    intros w p Hw Hok Hp -> Hne.
    assert (succeeded (swapAssets f t (balance p) pin s).2 = true) as Hok'
      by (by rewrite <- then_ret_succeeded).
    destruct (swapAssets_outcome s f t (balance p) pin w p Hw Hp)
      as [_ Hpost].
    destruct (Hpost Hok') as (_ & _ & Hget & _).
    eexists. split.
    + rewrite step_unfold. exact Hget.
    + rewrite (swapped_from _ _ _ _ _ p Hne Hp).
      change (balance p - balance p === 0)%num
        with (balance p - balance p =? 0)%float.
      by rewrite sub_self_zero.
Qed.

Lemma demo_positions : all_positions_positive Demo.start.
Proof.
  unfold all_positions_positive, Demo.start. simpl.
  apply map_Forall_insert_2.
  - unfold positions_positive. simpl.
    apply map_Forall_insert_2; [by vm_compute|apply map_Forall_empty].
  - apply map_Forall_insert_2; [|apply map_Forall_empty].
    apply map_Forall_empty.
Qed.

(** Alice sells her 10 BTC: the position is gone. *)
Lemma cleanup_keeps_positions_witness :
  all_positions_positive
    (step (OpSellAsset "BTC" (Num.of_Z 10) None) Demo.start) ∧
  ∃ w' : Wallet,
    getWallet None
      (step (OpSellAsset "BTC" (Num.of_Z 10) None) Demo.start) = Some w' ∧
    assets w' !! "BTC" = None.
Proof.
  assert (cleanup_args Demo.start (OpSellAsset "BTC" (Num.of_Z 10) None))
    as Hargs by (by vm_compute).
  assert (completes
            (exec (OpSellAsset "BTC" (Num.of_Z 10) None) Demo.start).2)
    as Hc by (by vm_compute).
  destruct (cleanup_keeps_positions Demo.start
              (OpSellAsset "BTC" (Num.of_Z 10) None) demo_positions Hargs Hc)
    as [Hinv Hgone].
  split; [exact Hinv|].
  exact (Hgone (mkWallet "u1" (Num.of_Z 1000) (<["BTC" := Demo.btc10]> ∅)
                  Num.zero) Demo.btc10 eq_refl eq_refl eq_refl eq_refl).
Defined.

(** Three ways to a position whose balance is zero: Alice sends her 10 BTC
    to Bob; an administrator sets Bob's ETH balance to 0; and Alice, holding
    1 ETH and no BTC, swaps the smallest positive double of ETH for BTC, for
    which the amount credited underflows to 0. *)
Lemma zero_balance_position_remains :
  all_positions_positive Demo.start ∧
  (let r := sendMoney "bob" (Num.of_Z 10) "BTC" None Demo.start in
   succeeded r.2 = true ∧
   wallets r.1 !! "u1" =
     Some (mkWallet "u1" (Num.of_Z 1000)
             (<["BTC" := mkAsset Num.zero (Num.of_Z 100)]> ∅) Num.zero) ∧
   ¬ all_positions_positive r.1) ∧
  (let r := updateUserBalance (Some "u2") "ETH" Num.zero Demo.start in
   succeeded r.2 = true ∧
   wallets r.1 !! "u2" =
     Some (mkWallet "u2" Num.zero
             (<["ETH" := mkAsset Num.zero Num.zero]> ∅) Num.zero) ∧
   ¬ all_positions_positive r.1) ∧
  (let s1 := step (OpSellAsset "BTC" (Num.of_Z 10) None) Demo.start in
   let s2 := step (OpUpdateUserBalance (Some "u1") "ETH" (Num.of_Z 1)) s1 in
   let r := swapAssets "ETH" "BTC" 0x1p-1074%float None s2 in
   all_positions_positive s2 ∧ Num.positive 0x1p-1074%float ∧
   succeeded r.2 = true ∧
   holdingOf r.1 "u1" "ETH" = Num.of_Z 1 ∧
   (wallets r.1 !! "u1") ≫= (λ w, assets w !! "BTC")
     = Some (mkAsset Num.zero Num.zero) ∧
   ¬ all_positions_positive r.1).
Proof.
  split; [exact demo_positions|].
  assert (¬ positions_positive
              (mkWallet "u1" (Num.of_Z 1000)
                 (<["BTC" := mkAsset Num.zero (Num.of_Z 100)]> ∅) Num.zero))
    as Hbtc.
  { intros H.
    pose proof (map_Forall_lookup_1 _ _ "BTC" _ H (lookup_insert_eq _ _ _))
      as Hp.
    by vm_compute in Hp. }
  assert (¬ positions_positive
              (mkWallet "u2" Num.zero
                 (<["ETH" := mkAsset Num.zero Num.zero]> ∅) Num.zero))
    as Heth.
  { intros H.
    pose proof (map_Forall_lookup_1 _ _ "ETH" _ H (lookup_insert_eq _ _ _))
      as Hp.
    by vm_compute in Hp. }
  split_and!.
  - intros r.
    assert (wallets r.1 !! "u1" =
              Some (mkWallet "u1" (Num.of_Z 1000)
                      (<["BTC" := mkAsset Num.zero (Num.of_Z 100)]> ∅)
                      Num.zero)) as Hw by (vm_compute; reflexivity).
    split_and!; [by vm_compute|exact Hw|].
    intros H. exact (Hbtc (map_Forall_lookup_1 _ _ _ _ H Hw)).
  - intros r.
    assert (wallets r.1 !! "u2" =
              Some (mkWallet "u2" Num.zero
                      (<["ETH" := mkAsset Num.zero Num.zero]> ∅) Num.zero))
      as Hw by (vm_compute; reflexivity).
    split_and!; [by vm_compute|exact Hw|].
    intros H. exact (Heth (map_Forall_lookup_1 _ _ _ _ H Hw)).
  - intros s1 s2 r.
    assert (all_positions_positive s2) as Hs2.
    { apply step_positive; [apply step_positive|..].
      - exact demo_positions.
      - by vm_compute.
      - by vm_compute.
      - right. by vm_compute.
      - by vm_compute. }
    destruct (wallets r.1 !! "u1") as [w|] eqn:Hw; [|by vm_compute in Hw].
    assert ((wallets r.1 !! "u1") ≫= (λ w, assets w !! "BTC")
            = Some (mkAsset Num.zero Num.zero)) as Hb
      by (vm_compute; reflexivity).
    assert (holdingOf r.1 "u1" "ETH" = Num.of_Z 1) as He
      by (vm_compute; reflexivity).
    rewrite Hw in Hb. simpl in Hb.
    split_and!; [exact Hs2|by vm_compute|by vm_compute|exact He|exact Hb|].
    intros H.
    pose proof (map_Forall_lookup_1 _ _ _ _
                  (map_Forall_lookup_1 _ _ _ _ H Hw) Hb) as Hp.
    by vm_compute in Hp.
Qed.

(** ** The shape of the state is kept *)

Lemma sendMoney_record_preserves {A} (f : State → A) recipient amount assetId :
  (∀ g s, f (set_entropy g s) = f s) →
  (∀ g s, f (set_notifications g s) = f s) →
  (∀ g s, f (set_transactions g s) = f s) →
  (∀ g s, f (set_emailLogs g s) = f s) →
  preserves f (sendMoney_record recipient amount assetId).
Proof.
  intros He Hn Ht Hm. unfold sendMoney_record.
  apply preserves_bind; [by apply createTransaction_preserves|intros tx1].
  apply preserves_bind; [apply preserves_gets|intros cu].
  apply preserves_bind; [apply preserves_deref|intros u].
  apply preserves_bind; [by apply createTransaction_preserves|intros tx2].
  apply preserves_bind; [by apply sendEmailNotification_preserves|intros ?].
  apply preserves_bind; [by apply sendEmailNotification_preserves|intros ?].
  apply preserves_ret.
Qed.

Lemma preserves_escape {A B} (f : State → A) : preserves f (@escape B).
Proof. done. Qed.

(** What no operation of the engine writes: a component of the state that
    does not change when a wallet that exists is rewritten, nor with the
    history and the logs. *)
Section StepFrame.
Context {A : Type} (f : State → A).
Hypothesis f_alter : ∀ g k s, f (set_wallets (alter g k) s) = f s.
Hypothesis f_entropy : ∀ g s, f (set_entropy g s) = f s.
Hypothesis f_notifications : ∀ g s, f (set_notifications g s) = f s.
Hypothesis f_transactions : ∀ g s, f (set_transactions g s) = f s.
Hypothesis f_emailLogs : ∀ g s, f (set_emailLogs g s) = f s.
Hypothesis f_adminLog : ∀ g s, f (set_adminLog g s) = f s.

Lemma updWallet_preserves k g : preserves f (updWallet k g).
Proof. intros s. apply f_alter. Qed.

Lemma assetsAt_preserves k : preserves f (assetsAt k).
Proof. intros s. unfold assetsAt. by destruct (walletAt k s) as [[]|]. Qed.

Lemma dollarAt_preserves k : preserves f (dollarAt k).
Proof. intros s. unfold dollarAt. by destruct (walletAt k s) as [[]|]. Qed.

Lemma assetsOf_preserves u : preserves f (assetsOf u).
Proof.
  apply preserves_bind; [apply preserves_gets|intros ?].
  apply assetsAt_preserves.
Qed.

Lemma dollarOf_preserves u : preserves f (dollarOf u).
Proof.
  apply preserves_bind; [apply preserves_gets|intros ?].
  apply dollarAt_preserves.
Qed.

Lemma readWallet_preserves k : preserves f (readWallet k).
Proof.
  apply preserves_bind; [apply preserves_gets|intros ?].
  apply preserves_deref.
Qed.

Lemma positionOf_preserves k a : preserves f (positionOf k a).
Proof.
  apply preserves_bind; [apply readWallet_preserves|intros w].
  destruct (positionAt a w) as [[]|]; done.
Qed.

Ltac wallet_frame :=
  repeat
    lazymatch goal with
    | |- preserves _ (bind _ _) => apply preserves_bind; [|intros ?]
    | |- preserves _ (ret _) => apply preserves_ret
    | |- preserves _ (throw _) => apply preserves_throw
    | |- preserves _ escape => apply preserves_escape
    | |- preserves _ (gets _) => apply preserves_gets
    | |- preserves _ (updWallet _ _) => apply updWallet_preserves
    | |- preserves _ (assetsOf _) => apply assetsOf_preserves
    | |- preserves _ (dollarOf _) => apply dollarOf_preserves
    | |- preserves _ (assetsAt _) => apply assetsAt_preserves
    | |- preserves _ (dollarAt _) => apply dollarAt_preserves
    | |- preserves _ (readWallet _) => apply readWallet_preserves
    | |- preserves _ (positionOf _ _) => apply positionOf_preserves
    | |- preserves _ (createTransaction _ _ _ _ _ _) =>
        apply createTransaction_preserves; assumption
    | |- preserves _ (sendMoney_record _ _ _) =>
        apply sendMoney_record_preserves; assumption
    | |- preserves _ (requirePin _) => apply requirePin_preserves; assumption
    | |- preserves _ (if ?b then _ else _) => destruct b
    | |- preserves _ (match ?o with Some _ => _ | None => _ end) =>
        destruct o
    | |- preserves _ (match ?v with
                      | OwnPosition _ => _ | BuiltInPosition => _ end) =>
        destruct v
    end.

Lemma addMoney_preserves a : preserves f (addMoney a).
Proof. unfold addMoney. wallet_frame. Qed.

Lemma receiveMoney_preserves a asset : preserves f (receiveMoney a asset).
Proof. unfold receiveMoney. wallet_frame. Qed.

Lemma sendMoney_preserves r a asset pin :
  preserves f (sendMoney r a asset pin).
Proof. unfold sendMoney, sendMoney_transfer. wallet_frame. Qed.

Lemma buyAsset_preserves asset a p : preserves f (buyAsset asset a p).
Proof. unfold buyAsset. wallet_frame. Qed.

Lemma sellAsset_preserves asset a p : preserves f (sellAsset asset a p).
Proof. unfold sellAsset. wallet_frame. Qed.

Lemma swapAssets_preserves t0 t a pin :
  preserves f (swapAssets t0 t a pin).
Proof. unfold swapAssets, swapAssets_exchange. wallet_frame. Qed.

Lemma updateUserBalance_preserves u asset b :
  preserves f (updateUserBalance u asset b).
Proof. unfold updateUserBalance. wallet_frame. Qed.

Lemma addAsset_preserves u asset : preserves f (addAsset u asset).
Proof. unfold addAsset. wallet_frame. Qed.

Lemma step_preserves op s : f (step op s) = f s.
Proof.
  rewrite step_unfold.
  destruct op as [a|a asset|r a asset pin|asset a p|asset a p|t0 t a pin
                 |u asset b].
  - apply addMoney_preserves.
  - apply receiveMoney_preserves.
  - apply sendMoney_preserves.
  - apply buyAsset_preserves.
  - apply sellAsset_preserves.
  - apply swapAssets_preserves.
  - apply updateUserBalance_preserves.
Qed.
End StepFrame.

(** An operation only rewrites wallets that exist. *)
Lemma step_wallet_dom op s : dom (wallets (step op s)) = dom (wallets s).
Proof.
  apply (step_preserves (λ s, dom (wallets s))); try done.
  intros g k s0. simpl. apply dom_alter_L.
Qed.

Lemma step_wallet_keys op s k :
  is_Some (wallets (step op s) !! k) ↔ is_Some (wallets s !! k).
Proof. by rewrite <- !elem_of_dom, step_wallet_dom. Qed.

(** The shape that [signup] gives to the state is kept by every operation. *)
Lemma step_well_formed op s : well_formed s → well_formed (step op s).
Proof.
  intros [Hu Hn]. split.
  - rewrite (step_preserves users) by done.
    intros u Hin. apply step_wallet_keys. by apply Hu.
  - rewrite (step_preserves currentUser) by done.
    intros Hcu. apply eq_None_not_Some. rewrite step_wallet_keys.
    rewrite Hn by done. by intros [? ?].
Qed.

(** * Further properties of the code *)

(** ** Transfer PIN: setting and resetting *)

(** X1: [setTransferPin] throws only for a PIN that is not 4 to 6 digits or for
    a user without a PIN entry, and then leaves the whole state as it was. *)
Theorem setTransferPin_failure_atomic (s s' : State) (userId pin : string)
    (e : exn) :
  setTransferPin userId pin s = (s', Throw e) →
  s' = s ∧
  ((e = Error "PIN must be 4-6 digits" ∧ pin_format_ok pin = false) ∨
   (e = Error "PIN setup required" ∧ pin_format_ok pin = true ∧
    pinStorage s !! userId = None)).
Proof.
  unfold setTransferPin.
  destruct (pin_format_ok pin) eqn:Hfmt; cbn [negb].
  2: { intros [= <- <-]. split; [done|]. by left. }
  rewrite bind_gets. destruct (pinStorage s !! userId) as [r|] eqn:Hr.
  2: { intros [= <- <-]. split; [done|]. by right. }
  unfold now, writeUser. rewrite bind_gets, !bind_modify. unfold bind.
  match goal with
  | |- context [sendEmailNotification ?u ?t ?s1] =>
      pose proof (sendEmailNotification_returns s1 u t) as Hm;
      destruct (sendEmailNotification u t s1) as [s2 [[]|e2|]]
  end; done.
Qed.

Lemma setTransferPin_failure_atomic_witness :
  setTransferPin "u1" "12ab" Demo.with_pin
    = (Demo.with_pin, Throw (Error "PIN must be 4-6 digits")) ∧
  setTransferPin "u2" "1234" Demo.with_pin
    = (Demo.with_pin, Throw (Error "PIN setup required")).
Proof.
  split.
  - destruct (setTransferPin "u1" "12ab" Demo.with_pin) as [s' [b|e|]] eqn:Hrun;
      [by vm_compute in Hrun| |by vm_compute in Hrun].
    destruct (setTransferPin_failure_atomic _ _ _ _ _ Hrun)
      as [-> [[-> _]|[_ [Hfmt _]]]]; [done|by vm_compute in Hfmt].
  - destruct (setTransferPin "u2" "1234" Demo.with_pin) as [s' [b|e|]] eqn:Hrun;
      [by vm_compute in Hrun| |by vm_compute in Hrun].
    destruct (setTransferPin_failure_atomic _ _ _ _ _ Hrun)
      as [-> [[_ Hfmt]|[-> _]]]; [by vm_compute in Hfmt|done].
Defined.

Lemma withTransferPinHash_frame {A} (f : State → A) userId h s :
  (∀ g s, f (set_users g s) = f s) →
  (∀ g s, f (set_currentUser g s) = f s) →
  f (withTransferPinHash userId h s) = f s.
Proof.
  intros Hu Hc. unfold withTransferPinHash.
  destruct (find_user_by_id userId (users s)); [|done].
  by rewrite Hc, Hu.
Qed.

Lemma withTransferPinHash_users userId h s :
  users (withTransferPinHash userId h s)
  = write_first userId (set_transferPinHash h) (users s).
Proof.
  unfold withTransferPinHash.
  destruct (find_user_by_id userId (users s)) eqn:Hf; [done|].
  unfold find_user_by_id in Hf.
  induction (users s) as [|u l IH]; [done|]. simpl in *.
  destruct (String.eqb (user_id u) userId); [done|]. by rewrite <- IH.
Qed.

(** The user that [find] returns is the one that is written. *)
Lemma write_first_find userId f l :
  (∀ u, user_id (f u) = user_id u) →
  find_user_by_id userId (write_first userId f l)
  = f <$> find_user_by_id userId l.
Proof.
  intros Hid. unfold find_user_by_id.
  induction l as [|u l IH]; [done|]. simpl.
  destruct (String.eqb (user_id u) userId) eqn:Hu; simpl.
  - by rewrite Hid, Hu.
  - by rewrite Hu.
Qed.

Lemma write_first_other userId f l v :
  user_id v ≠ userId → v ∈ l → v ∈ write_first userId f l.
Proof.
  intros Hv. induction l as [|u l IH]; [done|]. simpl.
  intros Hin. apply elem_of_cons in Hin as [->|Hin].
  - destruct (String.eqb_spec (user_id u) userId); [done|]. by left.
  - destruct (String.eqb (user_id u) userId); right; [done|by apply IH].
Qed.

(** X2: A [setTransferPin] that returns activates the PIN of that user: the PIN
    is 4 to 6 digits, [hasTransferPin] becomes true and [mustSetTransferPin]
    false, and the creation date of the entry is kept.  The hash of the PIN
    is also written on the user: the first user with that id carries it in
    [transferPinHash] afterwards, the other users being as before.  Neither
    the PIN entries of other users, nor the wallets, the history or the
    audit log change. *)
Theorem setTransferPin_activates (s s' : State) (userId pin : string)
    (b : bool) :
  setTransferPin userId pin s = (s', Ok b) →
  b = true ∧ pin_format_ok pin = true ∧
  hasTransferPin userId s' = true ∧
  mustSetTransferPin userId s' = false ∧
  createdAt <$> pinStorage s' !! userId = createdAt <$> pinStorage s !! userId ∧
  (∀ other, other ≠ userId → pinStorage s' !! other = pinStorage s !! other) ∧
  wallets s' = wallets s ∧ transactions s' = transactions s ∧
  adminLog s' = adminLog s ∧
  users s' =
    write_first userId (set_transferPinHash (Some (hashPassword pin)))
      (users s) ∧
  find_user_by_id userId (users s') =
    set_transferPinHash (Some (hashPassword pin))
      <$> find_user_by_id userId (users s) ∧
  (∀ u, u ∈ users s → user_id u ≠ userId → u ∈ users s').
Proof.
  intros Hrun.
  destruct (setTransferPin_ok _ _ _ _ _ Hrun) as (Hfmt & r & Hr & Hh & Hm).
  revert Hrun. unfold setTransferPin. rewrite Hfmt. cbn [negb].
  rewrite bind_gets. destruct (pinStorage s !! userId) as [r0|] eqn:Hr0;
    [|done].
  unfold now, writeUser. rewrite bind_gets, !bind_modify. unfold bind.
  match goal with
  | |- context [sendEmailNotification ?u ?t ?s1] =>
      pose proof (λ A (f : State → A) H,
                    sendEmailNotification_preserves f H u t s1) as Hframe;
      destruct (sendEmailNotification u t s1) as [s2 [[]|e2|]]
  end; [|done..].
  unfold ret. intros [= <- <-]. simpl in Hframe.
  assert (users s2 =
            write_first userId (set_transferPinHash (Some (hashPassword pin)))
              (users s)) as Hus
    by (by rewrite (Hframe _ users), withTransferPinHash_users).
  split_and!; try done.
  - unfold hasTransferPin. rewrite Hr, Hh, Hm. simpl.
    pose proof (hashPassword_nonempty pin Hfmt) as Hne.
    by destruct (String.eqb_spec (hashPassword pin) "").
  - unfold mustSetTransferPin. by rewrite Hr, Hm.
  - rewrite (Hframe _ pinStorage), withTransferPinHash_pinStorage by done.
    simpl. by rewrite lookup_insert_eq.
  - intros other Hne.
    rewrite (Hframe _ pinStorage), withTransferPinHash_pinStorage by done.
    simpl. by rewrite lookup_insert_ne.
  - by rewrite (Hframe _ wallets), withTransferPinHash_frame.
  - by rewrite (Hframe _ transactions), withTransferPinHash_frame.
  - by rewrite (Hframe _ adminLog), withTransferPinHash_frame.
  - rewrite Hus. by apply write_first_find.
  - intros u Hin Hne. rewrite Hus. by apply write_first_other.
Qed.

Lemma setTransferPin_activates_witness :
  hasTransferPin "u1" Demo.with_pin = true ∧
  mustSetTransferPin "u1" Demo.with_pin = false ∧
  wallets Demo.with_pin = wallets Demo.start ∧
  users Demo.with_pin =
    [set_transferPinHash (Some (hashPassword "1234")) Demo.alice; Demo.bob] ∧
  currentUser Demo.with_pin =
    Some (set_transferPinHash (Some (hashPassword "1234")) Demo.alice).
Proof.
  destruct (setTransferPin_activates (createPinEntry "u1" Demo.start).1
              Demo.with_pin "u1" "1234" true eq_refl)
    as (_ & _ & Hhas & Hmust & _ & _ & Hw & _ & _ & Hus & _).
  split_and!; [exact Hhas|exact Hmust| | |].
  - rewrite Hw. reflexivity.
  - rewrite Hus. reflexivity.
  - reflexivity.
Defined.

Lemma resetTransferPin_outcome (s : State) (userId adminId : string) :
  let r := resetTransferPin userId adminId s in
  r.2 = Ok true ∧
  hasTransferPin userId r.1 = false ∧
  (∀ pin, (verifyTransferPin userId pin r.1).2
          = Throw (Error "Transfer PIN not set")) ∧
  (is_Some (pinStorage s !! userId) →
   mustSetTransferPin userId r.1 = true ∧
   resetBy <$> pinStorage r.1 !! userId = Some (Some adminId)) ∧
  (pinStorage s !! userId = None → pinStorage r.1 = pinStorage s) ∧
  (∀ other, other ≠ userId → pinStorage r.1 !! other = pinStorage s !! other) ∧
  adminLog r.1 =
    adminLog s ++ [mkAdminAction "pin_reset" userId None (Some adminId)
                     (clock s)] ∧
  wallets r.1 = wallets s ∧ transactions r.1 = transactions s.
Proof.
  intros r. unfold r, resetTransferPin, now. rewrite !bind_gets.
  set (s1 := match pinStorage s !! userId with
             | Some r0 =>
                 set_pinStorage (insert userId
                   (mkPin (pin_userId r0) None (createdAt r0) true
                      (Some (clock s)) (Some adminId))) s
             | None => s
             end).
  assert ((match pinStorage s !! userId with
           | Some r0 =>
               modify (set_pinStorage (insert userId
                 (mkPin (pin_userId r0) None (createdAt r0) true
                    (Some (clock s)) (Some adminId))))
           | None => ret tt
           end) s = (s1, Ok tt)) as Hfirst
    by (unfold s1; by destruct (pinStorage s !! userId)).
  rewrite (bind_ok _ _ _ _ _ Hfirst).
  unfold logAdminAction, writeUser. rewrite !bind_modify. unfold bind.
  match goal with
  | |- context [sendEmailNotification ?u ?t ?s2] =>
      pose proof (λ A (f : State → A) H,
                    sendEmailNotification_preserves f H u t s2) as Hframe;
      pose proof (sendEmailNotification_returns s2 u t) as Hret;
      destruct (sendEmailNotification u t s2) as [s3 [[]|e2|]]
  end; [|done..].
  simpl in Hframe. cbn [ret fst snd].
  assert (pinStorage s3 = pinStorage s1) as Hp.
  { rewrite (Hframe _ pinStorage) by done. cbn [pinStorage set_adminLog].
    apply withTransferPinHash_pinStorage. }
  assert (pinStorage s3 !! userId =
            (λ r0, mkPin (pin_userId r0) None (createdAt r0) true
                     (Some (clock s)) (Some adminId))
              <$> pinStorage s !! userId) as Hl.
  { rewrite Hp. unfold s1.
    destruct (pinStorage s !! userId) as [r0|] eqn:Hr0; simpl.
    - apply lookup_insert_eq.
    - done. }
  split_and!.
  - done.
  - unfold hasTransferPin. rewrite Hl.
    by destruct (pinStorage s !! userId).
  - intros pin. rewrite verifyTransferPin_not_set; [done|].
    intros r0. rewrite Hl. destruct (pinStorage s !! userId); [|done].
    by intros [= <-].
  - intros [r0 Hr0]. unfold mustSetTransferPin. by rewrite Hl, Hr0.
  - intros Hnone. rewrite Hp. unfold s1. by rewrite Hnone.
  - intros other Hne. rewrite Hp. unfold s1.
    destruct (pinStorage s !! userId); [|done]. simpl.
    by rewrite lookup_insert_ne.
  - rewrite (Hframe _ adminLog) by done. cbn [adminLog set_adminLog].
    rewrite withTransferPinHash_frame by done. unfold s1.
    by destruct (pinStorage s !! userId).
  - rewrite (Hframe _ wallets) by done. cbn [wallets set_adminLog].
    rewrite withTransferPinHash_frame by done. unfold s1.
    by destruct (pinStorage s !! userId).
  - rewrite (Hframe _ transactions) by done. cbn [transactions set_adminLog].
    rewrite withTransferPinHash_frame by done. unfold s1.
    by destruct (pinStorage s !! userId).
Qed.

(** X3: [resetTransferPin] always returns [true] and appends one ['pin_reset']
    audit entry.  Afterwards the user has no transfer PIN and every
    verification throws 'Transfer PIN not set'; an existing entry is put back
    in the must-set state and names the administrator, a missing entry is
    not created; the entries of other users and the wallets are untouched. *)
Theorem resetTransferPin_effect (s : State) (userId adminId : string) :
  let r := resetTransferPin userId adminId s in
  r.2 = Ok true ∧
  hasTransferPin userId r.1 = false ∧
  (∀ pin, (verifyTransferPin userId pin r.1).2
          = Throw (Error "Transfer PIN not set")) ∧
  (is_Some (pinStorage s !! userId) →
   mustSetTransferPin userId r.1 = true ∧
   resetBy <$> pinStorage r.1 !! userId = Some (Some adminId)) ∧
  (pinStorage s !! userId = None → pinStorage r.1 = pinStorage s) ∧
  (∀ other, other ≠ userId → pinStorage r.1 !! other = pinStorage s !! other) ∧
  adminLog r.1 =
    adminLog s ++ [mkAdminAction "pin_reset" userId None (Some adminId)
                     (clock s)] ∧
  wallets r.1 = wallets s ∧ transactions r.1 = transactions s.
Proof. apply resetTransferPin_outcome. Qed.

Lemma resetTransferPin_effect_witness :
  mustSetTransferPin "u1" (resetTransferPin "u1" "root" Demo.with_pin).1
    = true ∧
  pinStorage (resetTransferPin "u2" "root" Demo.with_pin).1
    = pinStorage Demo.with_pin.
Proof.
  destruct (resetTransferPin_effect Demo.with_pin "u1" "root")
    as (_ & _ & _ & Hsome & _).
  destruct (resetTransferPin_effect Demo.with_pin "u2" "root")
    as (_ & _ & _ & _ & Hnone & _).
  split.
  - apply Hsome. vm_compute. by eexists.
  - apply Hnone. reflexivity.
Defined.

(** X4: Two different passwords, or PINs, never have the same hash. *)
Theorem hashPassword_injective (p1 p2 : string) :
  p1 ≠ p2 → hashPassword p1 ≠ hashPassword p2.
Proof. intros Hne Heq. by apply Hne, hashPassword_inj. Qed.

Lemma hashPassword_injective_witness :
  hashPassword "1234" ≠ hashPassword "1243".
Proof. apply hashPassword_injective. discriminate. Defined.

(** The session keeps naming the same user when a PIN hash is written. *)
Lemma withTransferPinHash_current userId h s u :
  currentUser s = Some u →
  ∃ u', currentUser (withTransferPinHash userId h s) = Some u' ∧
        user_id u' = user_id u.
Proof.
  intros Hu. unfold withTransferPinHash.
  destruct (find_user_by_id userId (users s)) as [user|]; [|by exists u].
  simpl. rewrite Hu. case_bool_decide as Heq.
  - injection Heq as ->. by eexists.
  - by exists u.
Qed.

Lemma withTransferPinHash_set_pinStorage userId h g s :
  withTransferPinHash userId h (set_pinStorage g s)
  = set_pinStorage g (withTransferPinHash userId h s).
Proof.
  unfold withTransferPinHash. simpl.
  by destruct (find_user_by_id userId (users s)).
Qed.

(** [resetTransferPin] and [setTransferPin], seen from a component of the
    state that is neither the PIN records nor a log. *)
Lemma resetTransferPin_frame {A} (f : State → A) userId adminId s :
  (∀ g s, f (set_pinStorage g s) = f s) →
  (∀ g s, f (set_adminLog g s) = f s) →
  (∀ g s, f (set_emailLogs g s) = f s) →
  f (resetTransferPin userId adminId s).1
  = f (withTransferPinHash userId None s).
Proof.
  intros Hp Ha He. unfold resetTransferPin, now. rewrite !bind_gets.
  unfold logAdminAction, writeUser.
  destruct (pinStorage s !! userId) as [r0|].
  - rewrite !bind_modify. unfold bind.
    match goal with
    | |- context [sendEmailNotification ?u ?t ?s2] =>
        pose proof (sendEmailNotification_preserves f He u t s2) as Hframe;
        destruct (sendEmailNotification u t s2) as [s3 [[]|e2|]]
    end; simpl in *; rewrite Hframe, Ha, withTransferPinHash_set_pinStorage;
      apply Hp.
  - unfold bind at 1. unfold ret at 1. rewrite !bind_modify. unfold bind.
    match goal with
    | |- context [sendEmailNotification ?u ?t ?s2] =>
        pose proof (sendEmailNotification_preserves f He u t s2) as Hframe;
        destruct (sendEmailNotification u t s2) as [s3 [[]|e2|]]
    end; simpl in *; rewrite Hframe; apply Ha.
Qed.

(** ** The PIN gate of swaps, and when the gate is open *)

(** X5: [swapAssets] has the gate of [sendMoney]: with a transfer PIN configured
    a swap without a PIN throws 'Transfer PIN required for this transaction'
    and changes nothing; with a PIN the verification runs first, its error
    is handed on, and the exchange starts only after it, no wallet having
    changed until then; without a configured PIN the exchange runs directly. *)
Theorem swapAssets_pin_gate (s : State) (u : User)
    (fromAssetId toAssetId : string) (amount : num) (pin : option string) :
  currentUser s = Some u →
  (hasTransferPin (user_id u) s = true → truthy_str pin = false →
   swapAssets fromAssetId toAssetId amount pin s =
     (s, Throw (Error "Transfer PIN required for this transaction"))) ∧
  (hasTransferPin (user_id u) s = true → truthy_str pin = true →
   ∀ s1 r, verifyTransferPin (user_id u) (default "" pin) s = (s1, r) →
     wallets s1 = wallets s ∧ transactions s1 = transactions s ∧
     swapAssets fromAssetId toAssetId amount pin s =
       match r with
       | Ok _ => swapAssets_exchange fromAssetId toAssetId amount s1
       | Throw e => (s1, Throw e)
       | Escapes => (s1, Escapes)
       end) ∧
  (hasTransferPin (user_id u) s = false →
   swapAssets fromAssetId toAssetId amount pin s =
     swapAssets_exchange fromAssetId toAssetId amount s).
Proof.
  intros Hu. split_and!.
  - intros Hp Hpin. unfold swapAssets, bind.
    by rewrite (requirePin_missing s u).
  - intros Hp Hpin s1 r Hv.
    pose proof (verifyTransferPin_preserves wallets (λ _ _, eq_refl)
                  (λ _ _, eq_refl) (user_id u) (default "" pin) s) as Hw.
    pose proof (verifyTransferPin_preserves transactions (λ _ _, eq_refl)
                  (λ _ _, eq_refl) (user_id u) (default "" pin) s) as Ht.
    rewrite Hv in Hw, Ht. simpl in Hw, Ht. split_and!; [done..|].
    unfold swapAssets, bind. rewrite (requirePin_verifies s u) by done.
    rewrite Hv. by destruct r.
  - intros Hp. unfold swapAssets, bind.
    by rewrite (requirePin_unconfigured s u).
Qed.

Lemma swapAssets_pin_gate_witness :
  swapAssets "BTC" "ETH" (Num.of_Z 1) (Some "") Demo.with_pin =
    (Demo.with_pin, Throw (Error "Transfer PIN required for this transaction")).
Proof.
  apply (proj1 (swapAssets_pin_gate Demo.with_pin
                  (set_transferPinHash (Some (hashPassword "1234")) Demo.alice)
                  "BTC" "ETH" (Num.of_Z 1) (Some "") eq_refl));
    vm_compute; reflexivity.
Defined.

(** X6: The gate is open for a user who has not chosen a PIN: right after
    [createPinEntry] (the state of a new account) and right after an
    administrator's [resetTransferPin], [sendMoney] and [swapAssets] of that
    user run without any PIN check, whatever [pin] is. *)
Theorem transfers_ungated_without_pin (s : State) (u : User)
    (adminId : string) (s' : State) :
  currentUser s = Some u →
  s' = (createPinEntry (user_id u) s).1 ∨
  s' = (resetTransferPin (user_id u) adminId s).1 →
  ∀ recipientUsername fromAssetId toAssetId amount assetId pin,
    sendMoney recipientUsername amount assetId pin s' =
      sendMoney_transfer recipientUsername amount assetId s' ∧
    swapAssets fromAssetId toAssetId amount pin s' =
      swapAssets_exchange fromAssetId toAssetId amount s'.
Proof.
  intros Hu Hs'.
  assert (∃ u', currentUser s' = Some u' ∧ user_id u' = user_id u ∧
                hasTransferPin (user_id u) s' = false)
    as (u' & Hu' & Hid & Hno).
  { destruct Hs' as [-> | ->].
    - exists u. split_and!; [done..|]. unfold hasTransferPin. simpl.
      by rewrite lookup_insert_eq.
    - destruct (withTransferPinHash_current (user_id u) None s u Hu)
        as (u' & Hu' & Hid).
      exists u'. split_and!; [|done|].
      + by rewrite resetTransferPin_frame.
      + by destruct (resetTransferPin_outcome s (user_id u) adminId)
          as (_ & Hh & _). }
  intros r f t a asset pin. unfold sendMoney, swapAssets, bind.
  rewrite <- Hid in Hno.
  by rewrite (requirePin_unconfigured s' u').
Qed.

Lemma transfers_ungated_without_pin_witness :
  succeeded
    (sendMoney "bob" (Num.of_Z 5) "USD" None
       (resetTransferPin "u1" "root" Demo.with_pin).1).2 = true.
Proof.
  rewrite (proj1 (transfers_ungated_without_pin Demo.with_pin
                    (set_transferPinHash (Some (hashPassword "1234"))
                       Demo.alice)
                    "root" (resetTransferPin "u1" "root" Demo.with_pin).1
                    eq_refl (or_intror eq_refl)
                    "bob" "BTC" "ETH" (Num.of_Z 5) "USD" None)).
  vm_compute. reflexivity.
Defined.

(** ** Signing up *)

Lemma find_user_by_email_None mail l :
  find_user_by_email mail l = None ↔ mail ∉ (user_email <$> l).
Proof.
  unfold find_user_by_email. induction l as [|u l IH]; simpl.
  - split; [intros _; apply not_elem_of_nil|done].
  - destruct (String.eqb_spec (user_email u) mail) as [->|Hne].
    + split; [done|]. intros H. exfalso. apply H. by left.
    + rewrite not_elem_of_cons, IH. split; [by intros ?|by intros [_ ?]].
Qed.

Lemma find_user_by_username_None name l :
  find_user_by_username name l = None ↔ name ∉ (user_username <$> l).
Proof.
  unfold find_user_by_username. induction l as [|u l IH]; simpl.
  - split; [intros _; apply not_elem_of_nil|done].
  - destruct (String.eqb_spec (user_username u) name) as [->|Hne].
    + split; [done|]. intros H. exfalso. apply H. by left.
    + rewrite not_elem_of_cons, IH. split; [by intros ?|by intros [_ ?]].
Qed.

Lemma find_user_by_username_last name l u :
  find_user_by_username name l = None → user_username u = name →
  find_user_by_username name (l ++ [u]) = Some u.
Proof.
  unfold find_user_by_username. intros Hnone Hname.
  induction l as [|v l IH]; simpl in *.
  - by rewrite Hname, String.eqb_refl.
  - destruct (String.eqb (user_username v) name); [done|]. by apply IH.
Qed.

Lemma signup_run s email password username :
  signup email password username s =
    match find_user_by_email email (users s) with
    | Some _ => (s, Throw (Error "Email already registered"))
    | None =>
        match find_user_by_username username (users s) with
        | Some _ => (s, Throw (Error "Username already taken"))
        | None =>
            let i := String.append (pretty (clock s)) (pretty (entropy s)) in
            let user := mkUser i email username (hashPassword password) None in
            (set_pinStorage
               (insert i (mkPin i None (clock s) true None None))
               (set_wallets (insert i (mkWallet i Num.zero ∅ Num.zero))
                  (set_users (λ l, l ++ [user]) (set_entropy N.succ s))),
             Ok user)
        end
    end.
Proof.
  unfold signup. rewrite bind_gets.
  destruct (find_user_by_email email (users s)); [done|].
  destruct (find_user_by_username username (users s)); done.
Qed.



(** X8: A [signup] that returns appends exactly the returned user, with the
    given email and username, stores for it an empty wallet with a zero
    balance and a PIN entry in the must-set state, and does not log the user
    in; the new username is found by the lookup that [sendMoney] uses; the
    history, the quotes and the logs are untouched. *)
Theorem signup_creates_account (s s' : State)
    (email password username : string) (user : User) :
  signup email password username s = (s', Ok user) →
  user_email user = email ∧ user_username user = username ∧
  users s' = users s ++ [user] ∧
  wallets s' =
    <[user_id user := mkWallet (user_id user) Num.zero ∅ Num.zero]>
      (wallets s) ∧
  (∀ assetId, holdingOf s' (user_id user) assetId = Num.zero) ∧
  hasTransferPin (user_id user) s' = false ∧
  mustSetTransferPin (user_id user) s' = true ∧
  find_user_by_username username (users s') = Some user ∧
  currentUser s' = currentUser s ∧ transactions s' = transactions s ∧
  marketData s' = marketData s ∧ emailLogs s' = emailLogs s.
Proof.
  rewrite signup_run.
  destruct (find_user_by_email email (users s)) as [u|] eqn:He; [done|].
  destruct (find_user_by_username username (users s)) as [u|] eqn:Hn;
    [done|].
  cbn zeta. intros [= <- <-]. simpl.
  split_and!; try done.
  - intros assetId. unfold holdingOf, holding. simpl.
    rewrite lookup_insert_eq. simpl. by destruct (String.eqb assetId "USD").
  - unfold hasTransferPin. simpl. by rewrite lookup_insert_eq.
  - unfold mustSetTransferPin. simpl. by rewrite lookup_insert_eq.
  - by apply find_user_by_username_last.
Qed.

Lemma signup_creates_account_witness :
  let r := signup "carol@noble.io" "pw" "carol" Demo.start in
  length (users r.1) = 3%nat ∧
  find_user_by_username "carol" (users r.1)
    = Some (mkUser "10000" "carol@noble.io" "carol" (hashPassword "pw") None).
Proof.
  intros r.
  destruct (signup_creates_account Demo.start r.1 "carol@noble.io" "pw"
              "carol"
              (mkUser "10000" "carol@noble.io" "carol" (hashPassword "pw")
                 None) eq_refl)
    as (_ & _ & Hus & _ & _ & _ & _ & Hfind & _).
  split; [by rewrite Hus|exact Hfind].
Defined.

(** X9: [signup] keeps the accounts apart and funded with a wallet: when no two
    users share an email or a username, and every user has a wallet, the
    same holds after the call, whether it returns or throws. *)
Theorem signup_keeps_accounts (s : State) (email password username : string) :
  unique_accounts s → users_have_wallets s →
  unique_accounts (signup email password username s).1 ∧
  users_have_wallets (signup email password username s).1.
Proof.
  intros [Hemails Hnames] Hwallets. rewrite signup_run.
  destruct (find_user_by_email email (users s)) as [u|] eqn:He; [done|].
  destruct (find_user_by_username username (users s)) as [u|] eqn:Hn;
    [done|].
  apply find_user_by_email_None in He.
  apply find_user_by_username_None in Hn.
  cbn zeta. split; [split|]; simpl.
  - rewrite fmap_app. apply NoDup_app. split_and!; [done| |apply NoDup_singleton].
    intros x Hx Hx'. apply list_elem_of_singleton in Hx'. by subst.
  - rewrite fmap_app. apply NoDup_app. split_and!; [done| |apply NoDup_singleton].
    intros x Hx Hx'. apply list_elem_of_singleton in Hx'. by subst.
  - intros v Hv. simpl in Hv. simpl.
    apply elem_of_app in Hv as [Hv|Hv].
    + rewrite lookup_insert. case_decide; [by eauto|]. by apply Hwallets.
    + apply list_elem_of_singleton in Hv as ->. simpl.
      rewrite lookup_insert_eq. by eauto.
Qed.

Lemma signup_keeps_accounts_witness :
  unique_accounts (signup "carol@noble.io" "pw" "carol" Demo.start).1 ∧
  users_have_wallets (signup "carol@noble.io" "pw" "carol" Demo.start).1.
Proof.
  apply signup_keeps_accounts.
  - split; simpl; apply NoDup_cons;
      (split; [rewrite list_elem_of_singleton; discriminate
              |apply NoDup_singleton]).
  - intros u Hu. simpl in Hu.
    apply elem_of_cons in Hu as [->|Hu]; [by eexists|].
    apply list_elem_of_singleton in Hu as ->. by eexists.
Defined.

(** ** Receiving and selling *)

Lemma holding_credited_ne assetId other amount w :
  other ≠ assetId →
  holding other (credited assetId amount w) = holding other w.
Proof.
  intros Hne. unfold holding, credited.
  destruct (String.eqb_spec assetId "USD") as [->|Ha].
  - destruct (String.eqb_spec other "USD"); done.
  - destruct (String.eqb_spec other "USD").
    + simpl. by rewrite ensurePosition_dollar.
    + by rewrite updPosition_lookup_ne, ensurePosition_lookup_ne.
Qed.

(** X10: [receiveMoney] validates nothing: when the current user has a wallet
    and the asset is a position of it or an identifier of no built-in
    property, it returns, adds the amount to what the user holds of the asset
    (the sum of doubles; a missing position being created with average cost
    [0]), leaves the other holdings alone and appends exactly one [receive]
    transaction with the counterparty 'Internal Transfer'. *)
Theorem receiveMoney_credits (s : State) (amount : num) (assetId : string)
    (u : User) (w : Wallet) :
  currentUser s = Some u →
  wallets s !! user_id u = Some w →
  is_Some (assets w !! assetId) ∨ inherited_key assetId = false →
  let r := receiveMoney amount assetId s in
  let tx := newTx s (user_id u) receive assetId amount
              (Some "Internal Transfer") MetaNone in
  r.2 = Ok tx ∧
  transactions r.1 = transactions s ++ [tx] ∧
  holdingOf r.1 (user_id u) assetId
    = (holdingOf s (user_id u) assetId + amount)%num ∧
  (∀ other, other ≠ assetId →
     holdingOf r.1 (user_id u) other = holdingOf s (user_id u) other) ∧
  (assetId ≠ "USD" → assets w !! assetId = None →
   ∃ w', wallets r.1 !! user_id u = Some w' ∧
         assets w' !! assetId = Some (mkAsset (0 + amount) 0)%num).
Proof.
  intros Hu Hw Hkey r tx. unfold r. rewrite receiveMoney_run.
  assert (targetUserId None s = user_id u) as Hk
    by (unfold targetUserId; simpl; by rewrite Hu).
  rewrite (proj2 (getWallet_own s None w)) by (by rewrite Hk).
  rewrite Hk.
  assert (builtInPosition assetId w = false) as Hb.
  { destruct Hkey as [[p Hp]|Hkey].
    - by eapply builtInPosition_own.
    - by apply builtInPosition_ordinary. }
  rewrite Hb, andb_false_r.
  rewrite (createTransaction_ok _ _ _ _ _ _ _ (user_id u))
    by (unfold txOwner; simpl; by rewrite Hu).
  cbn [fst snd].
  assert (wallets (logged (newTx (set_wallets
            (insert (user_id u) (credited assetId amount w)) s) (user_id u)
            receive assetId amount (Some "Internal Transfer") MetaNone)
            (set_wallets (insert (user_id u) (credited assetId amount w)) s))
          !! user_id u = Some (credited assetId amount w)) as Hl
    by (simpl; apply lookup_insert_eq).
  split_and!; try done.
  - unfold holdingOf. rewrite Hl, Hw. apply holding_credited. by right.
  - intros other Hne. unfold holdingOf. rewrite Hl, Hw.
    by apply holding_credited_ne.
  - intros Hne Hnone. eexists. split; [exact Hl|]. unfold credited.
    destruct (String.eqb_spec assetId "USD"); [done|].
    by rewrite updPosition_lookup, ensurePosition_lookup, Hnone.
Qed.

Lemma receiveMoney_credits_witness :
  holdingOf (receiveMoney (Num.of_Z 2) "ETH" Demo.start).1 "u1" "ETH"
    = Num.of_Z 2 ∧
  holdingOf (receiveMoney (Num.of_Z 2) "ETH" Demo.start).1 "u1" "BTC"
    = Num.of_Z 10.
Proof.
  destruct (receiveMoney_credits Demo.start (Num.of_Z 2) "ETH" Demo.alice
              (mkWallet "u1" (Num.of_Z 1000) (<["BTC" := Demo.btc10]> ∅)
                 Num.zero) eq_refl eq_refl (or_intror eq_refl))
    as (_ & _ & Hh & Ho & _).
  split.
  - etrans; [exact Hh|]. vm_compute. reflexivity.
  - etrans; [apply (Ho "BTC"); discriminate|]. vm_compute. reflexivity.
Defined.

(** X11: [sellAsset] of the current user's wallet: without a position, under
    an identifier of no built-in property, or with a balance below the
    amount, it throws 'Insufficient asset balance' and the state is as
    before; with a position that covers the amount it returns, credits the
    fiat balance with [price * amount] ([price] being the explicit price
    when truthy, else the quote, else [0]), takes the amount from the
    position and keeps its average cost, the position being removed when
    nothing is left; the other positions are untouched and one [sell]
    transaction recording the proceeds and the price is appended.  The
    arithmetic is that of doubles. *)
Theorem sellAsset_behaviour (s : State) (assetId : string) (amount : num)
    (price : option num) (u : User) (w : Wallet) :
  currentUser s = Some u →
  wallets s !! user_id u = Some w →
  let r := sellAsset assetId amount price s in
  let salePrice := unitPrice price assetId s in
  let w' := sold assetId amount (salePrice * amount) w in
  (((assets w !! assetId = None ∧ inherited_key assetId = false) ∨
    ∃ p, assets w !! assetId = Some p ∧ (balance p <? amount)%num = true) →
   r = (s, Throw (Error "Insufficient asset balance"))) ∧
  (∀ p, assets w !! assetId = Some p → (balance p <? amount)%num = false →
     wallets r.1 = <[user_id u := w']> (wallets s) ∧
     dollarBalance w' = (dollarBalance w + salePrice * amount)%num ∧
     assets w' !! assetId =
       (if (balance p - amount === 0)%num then None
        else Some (mkAsset (balance p - amount) (averageCost p))) ∧
     (∀ other, other ≠ assetId → assets w' !! other = assets w !! other) ∧
     ∃ tx, r.2 = Ok tx ∧ tx_type tx = sell ∧ tx_amount tx = amount ∧
           tx_metadata tx = MetaSell (salePrice * amount) salePrice ∧
           transactions r.1 = transactions s ++ [tx]).
Proof.
  intros Hu Hw r salePrice w'.
  assert (targetUserId None s = user_id u) as Hk
    by (unfold targetUserId; simpl; by rewrite Hu).
  assert (getWallet None s = Some (OwnWallet w)) as Hget
    by (apply getWallet_own; by rewrite Hk).
  unfold r. rewrite sellAsset_run, Hget, Hk. split.
  - intros [[Hnone Hkey]|(p & Hp & Hlt)].
    + unfold positionAt. by rewrite Hnone, Hkey.
    + by rewrite (proj2 (positionAt_own _ _ _) Hp), Hlt.
  - intros p Hp Hlt. rewrite (proj2 (positionAt_own _ _ _) Hp), Hlt.
    cbn zeta. fold salePrice. fold w'.
    rewrite (createTransaction_ok _ _ _ _ _ _ _ (user_id u))
      by (unfold txOwner; simpl; by rewrite Hu).
    cbn [fst snd]. split_and!.
    + done.
    + apply sold_dollar.
    + unfold w'. by rewrite sold_lookup, Hp.
    + intros other Hne. by apply sold_lookup_ne.
    + by eexists.
Qed.

Lemma sellAsset_behaviour_witness :
  sellAsset "ETH" (Num.of_Z 1) None Demo.start
    = (Demo.start, Throw (Error "Insufficient asset balance")) ∧
  ∃ tx, (sellAsset "BTC" (Num.of_Z 4) None Demo.start).2 = Ok tx ∧
        tx_metadata tx = MetaSell (Num.of_Z 180000) (Num.of_Z 45000).
Proof.
  destruct (sellAsset_behaviour Demo.start "ETH" (Num.of_Z 1) None Demo.alice
              (mkWallet "u1" (Num.of_Z 1000) (<["BTC" := Demo.btc10]> ∅)
                 Num.zero) eq_refl eq_refl) as [Hfail _].
  destruct (sellAsset_behaviour Demo.start "BTC" (Num.of_Z 4) None Demo.alice
              (mkWallet "u1" (Num.of_Z 1000) (<["BTC" := Demo.btc10]> ∅)
                 Num.zero) eq_refl eq_refl) as [_ Hok].
  split.
  - apply Hfail. left. split; reflexivity.
  - destruct (Hok Demo.btc10 eq_refl eq_refl)
      as (_ & _ & _ & _ & tx & Hr & _ & _ & Hm & _).
    exists tx. split; [exact Hr|]. rewrite Hm. reflexivity.
Defined.

(** ** Transfers of a negative amount *)







(** ** Opening and closing positions by hand *)

Lemma addAsset_run s userId assetId :
  addAsset userId assetId s =
    match getWallet userId s with
    | Some (OwnWallet w) =>
        (set_wallets
           (insert (targetUserId userId s) (ensurePosition assetId w)) s,
         Ok tt)
    | _ => (s, Throw TypeError)
    end.
Proof.
  unfold addAsset. unfold bind at 1. rewrite assetsOf_run.
  destruct (getWallet userId s) as [[w|]|] eqn:Hw; [|done..].
  apply getWallet_own in Hw. by rewrite (updWallet_ok _ _ _ w Hw).
Qed.

Lemma removeAsset_run s userId assetId :
  removeAsset userId assetId s =
    match getWallet userId s with
    | Some (OwnWallet w) =>
        (set_wallets
           (insert (targetUserId userId s) (set_assets (delete assetId) w)) s,
         Ok tt)
    | _ => (s, Throw TypeError)
    end.
Proof.
  unfold removeAsset. unfold bind at 1. rewrite assetsOf_run.
  destruct (getWallet userId s) as [[w|]|] eqn:Hw; [|done..].
  apply getWallet_own in Hw. by rewrite (updWallet_ok _ _ _ w Hw).
Qed.

Lemma insert_same_wallet s k w :
  wallets s !! k = Some w → set_wallets (insert k w) s = s.
Proof.
  intros H. destruct s. unfold set_wallets. simpl in *.
  by rewrite insert_id.
Qed.

(** X14: [addAsset] never overwrites: on a wallet that has the position, and
    under an identifier that names a built-in property (which the test
    [!wallet.assets[assetId]] takes for a position), it changes nothing at
    all; otherwise it stores the position [{balance: 0, averageCost: 0}] and
    touches nothing else.  It is idempotent, it records no transaction, and
    [removeAsset] undoes it when it created the position. *)
Theorem addAsset_opens_position (s : State) (userId : option string)
    (assetId : string) (w : Wallet) :
  getWallet userId s = Some w →
  let r := addAsset userId assetId s in
  r.2 = Ok tt ∧
  (is_Some (assets w !! assetId) ∨ inherited_key assetId = true → r.1 = s) ∧
  (assets w !! assetId = None → inherited_key assetId = false →
   r.1 = set_wallets
           (insert (targetUserId userId s)
              (set_assets (insert assetId emptyPosition) w)) s) ∧
  addAsset userId assetId r.1 = (r.1, Ok tt) ∧
  (assets w !! assetId = None → inherited_key assetId = false →
   removeAsset userId assetId r.1 = (s, Ok tt)).
Proof.
  intros Hw r. unfold r. rewrite addAsset_run, Hw. cbn [fst snd].
  set (k := targetUserId userId s).
  assert (wallets s !! k = Some w) as Hwk by (by apply getWallet_own).
  assert (getWallet userId (set_wallets (insert k (ensurePosition assetId w)) s)
          = Some (OwnWallet (ensurePosition assetId w))) as Hw'.
  { apply getWallet_own. replace (targetUserId userId _) with k by done.
    simpl. apply lookup_insert_eq. }
  assert (ensurePosition assetId (ensurePosition assetId w)
          = ensurePosition assetId w) as Hidem.
  { unfold ensurePosition at 1. rewrite positionAt_ensure.
    destruct (builtInPosition assetId w) eqn:Hb; [done|].
    by destruct (ensurePosition_is_Some assetId w Hb) as [p ->]. }
  split_and!.
  - done.
  - intros Hcase. replace (ensurePosition assetId w) with w.
    + by apply insert_same_wallet.
    + unfold ensurePosition, positionAt.
      destruct Hcase as [[p Hp]|Hkey]; [by rewrite Hp|].
      rewrite Hkey. by destruct (assets w !! assetId).
  - intros Hp Hkey. unfold ensurePosition, positionAt. by rewrite Hp, Hkey.
  - rewrite addAsset_run, Hw'.
    replace (targetUserId userId _) with k by done.
    by rewrite set_wallets_twice, Hidem.
  - intros Hp Hkey. rewrite removeAsset_run, Hw'.
    replace (targetUserId userId _) with k by done.
    rewrite set_wallets_twice. f_equal.
    unfold ensurePosition, positionAt. rewrite Hp, Hkey.
    replace (set_assets (delete assetId)
               (set_assets (insert assetId emptyPosition) w)) with w.
    + by apply insert_same_wallet.
    + destruct w. unfold set_assets. simpl in *. f_equal.
      by rewrite delete_insert_id.
Qed.

Lemma addAsset_opens_position_witness :
  (addAsset None "BTC" Demo.start).1 = Demo.start ∧
  (addAsset None "toString" Demo.start).1 = Demo.start ∧
  removeAsset None "ETH" (addAsset None "ETH" Demo.start).1
    = (Demo.start, Ok tt).
Proof.
  split_and!.
  - destruct (addAsset_opens_position Demo.start None "BTC"
                (mkWallet "u1" (Num.of_Z 1000) (<["BTC" := Demo.btc10]> ∅)
                   Num.zero) eq_refl) as (_ & H & _).
    apply H. left. by eexists.
  - destruct (addAsset_opens_position Demo.start None "toString"
                (mkWallet "u1" (Num.of_Z 1000) (<["BTC" := Demo.btc10]> ∅)
                   Num.zero) eq_refl) as (_ & H & _).
    apply H. right. reflexivity.
  - destruct (addAsset_opens_position Demo.start None "ETH"
                (mkWallet "u1" (Num.of_Z 1000) (<["BTC" := Demo.btc10]> ∅)
                   Num.zero) eq_refl) as (_ & _ & _ & _ & H).
    by apply H.
Defined.

(** X15: [removeAsset] deletes the position whatever it holds: the balance of the
    position is discarded, the fiat balance is not credited, the other
    positions stay and no transaction is recorded; removing twice is
    removing once. *)
Theorem removeAsset_discards (s : State) (userId : option string)
    (assetId : string) (w : Wallet) :
  getWallet userId s = Some w →
  let r := removeAsset userId assetId s in
  r.2 = Ok tt ∧
  transactions r.1 = transactions s ∧
  (∃ w' : Wallet, getWallet userId r.1 = Some w' ∧
     assets w' !! assetId = None ∧
     dollarBalance w' = dollarBalance w ∧
     ∀ other, other ≠ assetId → assets w' !! other = assets w !! other) ∧
  removeAsset userId assetId r.1 = (r.1, Ok tt).
Proof.
  intros Hw r. unfold r. rewrite removeAsset_run, Hw. cbn [fst snd].
  set (k := targetUserId userId s).
  assert (getWallet userId
            (set_wallets (insert k (set_assets (delete assetId) w)) s)
          = Some (OwnWallet (set_assets (delete assetId) w))) as Hw'.
  { apply getWallet_own. replace (targetUserId userId _) with k by done.
    simpl. apply lookup_insert_eq. }
  split_and!; [done|done| |].
  - eexists. split; [exact Hw'|]. simpl. split_and!; [|done|].
    + apply lookup_delete_eq.
    + intros other Hne. by apply lookup_delete_ne.
  - rewrite removeAsset_run, Hw'.
    replace (targetUserId userId _) with k by done.
    rewrite set_wallets_twice. f_equal. f_equal. f_equal.
    destruct w. unfold set_assets. simpl. f_equal.
    apply delete_delete_eq.
Qed.

Lemma removeAsset_discards_witness :
  holdingOf Demo.start "u1" "BTC" = Num.of_Z 10 ∧
  holdingOf (removeAsset None "BTC" Demo.start).1 "u1" "BTC" = Num.zero ∧
  holdingOf (removeAsset None "BTC" Demo.start).1 "u1" "USD"
    = Num.of_Z 1000 ∧
  transactions (removeAsset None "BTC" Demo.start).1 = [].
Proof.
  destruct (removeAsset_discards Demo.start None "BTC"
              (mkWallet "u1" (Num.of_Z 1000) (<["BTC" := Demo.btc10]> ∅)
                 Num.zero) eq_refl)
    as (_ & Ht & (w' & Hw' & Ha & Hd & _) & _).
  split; [reflexivity|]. split_and!.
  - apply getWallet_own in Hw'.
    unfold holdingOf, holding. cbn [String.eqb Ascii.eqb Bool.eqb].
    change (targetUserId None (removeAsset None "BTC" Demo.start).1)
      with "u1" in Hw'.
    rewrite Hw'. simpl. by rewrite Ha.
  - apply getWallet_own in Hw'.
    unfold holdingOf, holding.
    change (targetUserId None (removeAsset None "BTC" Demo.start).1)
      with "u1" in Hw'.
    rewrite Hw'. exact Hd.
  - exact Ht.
Defined.

(** X16: When [getWallet] returns [null] for the target id (no wallet is
    stored under it, and it names no built-in property), every method that
    writes a wallet fails on its first property access, a [TypeError], before
    it has written anything: the state is the one of the call.  The target
    is the id passed or, for the methods that take none and for a missing id,
    the current user. *)
Theorem wallet_methods_need_wallet (s : State) (userId : option string)
    (assetId toAssetId : string) (amount : num) (price : option num) :
  getWallet userId s = None →
  addAsset userId assetId s = (s, Throw TypeError) ∧
  removeAsset userId assetId s = (s, Throw TypeError) ∧
  updateUserBalance userId assetId amount s = (s, Throw TypeError) ∧
  (truthy_str userId = false →
   addMoney amount s = (s, Throw TypeError) ∧
   receiveMoney amount assetId s = (s, Throw TypeError) ∧
   buyAsset assetId amount price s = (s, Throw TypeError) ∧
   sellAsset assetId amount price s = (s, Throw TypeError) ∧
   swapAssets_exchange assetId toAssetId amount s = (s, Throw TypeError)).
Proof.
  intros Hw.
  rewrite addAsset_run, removeAsset_run, updateUserBalance_run, Hw.
  split_and!; try done. intros Hu.
  assert (getWallet None s = None) as Hw0.
  { rewrite <- Hw. unfold getWallet, targetUserId. by rewrite Hu. }
  by rewrite addMoney_run, receiveMoney_run, buyAsset_run, sellAsset_run,
    swapAssets_exchange_run, Hw0.
Qed.

Lemma wallet_methods_need_wallet_witness :
  addMoney (Num.of_Z 5) (logout Demo.start).1
    = ((logout Demo.start).1, Throw TypeError) ∧
  buyAsset "BTC" (Num.of_Z 1) None (logout Demo.start).1
    = ((logout Demo.start).1, Throw TypeError).
Proof.
  destruct (wallet_methods_need_wallet (logout Demo.start).1 None "BTC" "ETH"
              (Num.of_Z 5) None eq_refl) as (_ & _ & _ & H).
  destruct (H eq_refl) as (Ha & _).
  split; [exact Ha|].
  destruct (wallet_methods_need_wallet (logout Demo.start).1 None "BTC" "ETH"
              (Num.of_Z 1) None eq_refl) as (_ & _ & _ & H').
  destruct (H' eq_refl) as (_ & _ & Hb & _). exact Hb.
Defined.

(** ** The history and the frame of an operation *)





(** X19: What no operation does: it registers and removes no user, leaves the
    session, the PIN records, the quotes and the clock alone, creates and
    deletes no wallet, and keeps the shape [signup] gives to the state. *)
Theorem operations_frame (op : Op) (s : State) :
  users (step op s) = users s ∧
  currentUser (step op s) = currentUser s ∧
  pinStorage (step op s) = pinStorage s ∧
  marketData (step op s) = marketData s ∧
  clock (step op s) = clock s ∧
  dom (wallets (step op s)) = dom (wallets s) ∧
  (users_have_wallets s → users_have_wallets (step op s)).
Proof.
  split_and!; try (by apply step_preserves).
  - apply step_wallet_dom.
  - intros H u Hu. rewrite (step_preserves users) in Hu by done.
    apply step_wallet_keys. by apply H.
Qed.

Lemma operations_frame_witness :
  users_have_wallets (step (OpBuyAsset "ETH" (Num.of_Z 1) None) Demo.start).
Proof.
  destruct (operations_frame (OpBuyAsset "ETH" (Num.of_Z 1) None) Demo.start)
    as (_ & _ & _ & _ & _ & _ & H).
  apply H. intros u Hu. simpl in Hu.
  apply elem_of_cons in Hu as [->|Hu]; [by eexists|].
  apply list_elem_of_singleton in Hu as ->. by eexists.
Defined.

(** ** The capped logs *)

Section Keeps.
Context (P : State → Prop).

Lemma keeps_ret {B} (b : B) : keeps P (ret b).
Proof. by intros s. Qed.

Lemma keeps_throw {B} e : keeps P (@throw B e).
Proof. by intros s. Qed.

Lemma keeps_gets {B} (g : State → B) : keeps P (gets g).
Proof. by intros s. Qed.

Lemma keeps_deref {B} (o : option B) : keeps P (deref o).
Proof. intros s. by destruct o. Qed.

Lemma keeps_modify g : (∀ s, P s → P (g s)) → keeps P (modify g).
Proof. intros H s. apply H. Qed.

Lemma keeps_bind {B C} (m : M B) (k : B → M C) :
  keeps P m → (∀ b, keeps P (k b)) → keeps P (bind m k).
Proof.
  intros Hm Hk s Hs. unfold bind. specialize (Hm s Hs).
  destruct (m s) as [s1 [b|e|]] eqn:Hms; simpl in *; [|done..].
  by apply Hk.
Qed.

Lemma keeps_escape {B} : keeps P (@escape B).
Proof. by intros s. Qed.

Lemma keeps_assetsAt k : keeps P (assetsAt k).
Proof. intros s Hs. unfold assetsAt. by destruct (walletAt k s) as [[]|]. Qed.

Lemma keeps_dollarAt k : keeps P (dollarAt k).
Proof. intros s Hs. unfold dollarAt. by destruct (walletAt k s) as [[]|]. Qed.

Lemma keeps_assetsOf userId : keeps P (assetsOf userId).
Proof.
  apply keeps_bind; [apply keeps_gets|intros ?]. apply keeps_assetsAt.
Qed.

Lemma keeps_dollarOf userId : keeps P (dollarOf userId).
Proof.
  apply keeps_bind; [apply keeps_gets|intros ?]. apply keeps_dollarAt.
Qed.

Lemma keeps_readWallet k : keeps P (readWallet k).
Proof.
  apply keeps_bind; [apply keeps_gets|intros ?]. apply keeps_deref.
Qed.

Lemma keeps_positionOf k a : keeps P (positionOf k a).
Proof.
  apply keeps_bind; [apply keeps_readWallet|intros w].
  destruct (positionAt a w) as [[]|]; by intros s.
Qed.

Hypothesis P_wallets : ∀ g s, P s → P (set_wallets g s).
Hypothesis P_users : ∀ g s, P s → P (set_users g s).
Hypothesis P_written : ∀ u h s, P s → P (withTransferPinHash u h s).
Hypothesis P_entropy : ∀ g s, P s → P (set_entropy g s).
Hypothesis P_transactions : ∀ g s, P s → P (set_transactions g s).
Hypothesis P_adminLog : ∀ g s, P s → P (set_adminLog g s).
Hypothesis P_pinStorage : ∀ g s, P s → P (set_pinStorage g s).
Hypothesis P_note :
  ∀ n s, P s → P (set_notifications (λ l, take 100 (n :: l)) s).
Hypothesis P_mail :
  ∀ m s, P s →
    P (set_emailLogs
         (λ l, let l' := l ++ [m] in
               if (100 <? length l')%nat then drop (length l' - 100) l'
               else l') s).

Lemma keeps_generateId : keeps P generateId.
Proof. intros s Hs. by apply P_entropy. Qed.

Ltac keep_step :=
  lazymatch goal with
  | |- keeps _ (bind _ _) => apply keeps_bind; [|intros ?]
  | |- keeps _ (ret _) => apply keeps_ret
  | |- keeps _ (throw _) => apply keeps_throw
  | |- keeps _ (gets _) => apply keeps_gets
  | |- keeps _ (deref _) => apply keeps_deref
  | |- keeps _ escape => apply keeps_escape
  | |- keeps _ (assetsOf _) => apply keeps_assetsOf
  | |- keeps _ (dollarOf _) => apply keeps_dollarOf
  | |- keeps _ (assetsAt _) => apply keeps_assetsAt
  | |- keeps _ (dollarAt _) => apply keeps_dollarAt
  | |- keeps _ (readWallet _) => apply keeps_readWallet
  | |- keeps _ (positionOf _ _) => apply keeps_positionOf
  | |- keeps _ (writeUser _ _) =>
      apply keeps_modify; intros ? ?; by apply P_written
  | |- keeps _ generateId => apply keeps_generateId
  | |- keeps _ (modify _) =>
      apply keeps_modify; intros ? ?;
      first [ by apply P_wallets | by apply P_users | by apply P_entropy
            | by apply P_transactions | by apply P_adminLog
            | by apply P_pinStorage | by apply P_note | by apply P_mail ]
  | |- keeps _ (if ?b then _ else _) => destruct b
  | |- keeps _ (match ?o with Some _ => _ | None => _ end) => destruct o
  | |- keeps _ (match ?v with
                | OwnPosition _ => _ | BuiltInPosition => _ end) =>
      destruct v
  | |- keeps _ (let _ := _ in _) => cbv zeta
  end.

Lemma keeps_sendEmailNotification userId type :
  keeps P (sendEmailNotification userId type).
Proof. unfold sendEmailNotification, now. repeat keep_step. Qed.

Lemma keeps_createTransaction ty asset amount cp userId meta :
  keeps P (createTransaction ty asset amount cp userId meta).
Proof.
  unfold createTransaction, addNotification, now. repeat keep_step.
Qed.

Ltac keep_call :=
  lazymatch goal with
  | |- keeps _ (sendEmailNotification _ _) =>
      apply keeps_sendEmailNotification
  | |- keeps _ (createTransaction _ _ _ _ _ _) =>
      apply keeps_createTransaction
  | |- _ => keep_step
  end.

Lemma keeps_verifyTransferPin userId pin :
  keeps P (verifyTransferPin userId pin).
Proof. unfold verifyTransferPin, logAdminAction, now. repeat keep_call. Qed.

Lemma keeps_requirePin pin : keeps P (requirePin pin).
Proof.
  unfold requirePin.
  repeat lazymatch goal with
         | |- keeps _ (verifyTransferPin _ _) => apply keeps_verifyTransferPin
         | |- _ => keep_step
         end.
Qed.

Lemma keeps_setTransferPin userId pin : keeps P (setTransferPin userId pin).
Proof. unfold setTransferPin, now. repeat keep_call. Qed.

Lemma keeps_resetTransferPin userId adminId :
  keeps P (resetTransferPin userId adminId).
Proof. unfold resetTransferPin, logAdminAction, now. repeat keep_call. Qed.

Lemma keeps_signup email password username :
  keeps P (signup email password username).
Proof. unfold signup, createPinEntry, now. repeat keep_step. Qed.

Lemma keeps_exec op : keeps P (exec op).
Proof.
  destruct op; unfold exec, addMoney, receiveMoney, sendMoney,
    sendMoney_transfer, sendMoney_record, buyAsset, sellAsset, swapAssets,
    swapAssets_exchange, updateUserBalance, updWallet;
    repeat lazymatch goal with
           | |- keeps _ (requirePin _) => apply keeps_requirePin
           | |- _ => keep_call
           end.
Qed.
End Keeps.

Lemma logs_bounded_note n s :
  logs_bounded s →
  logs_bounded (set_notifications (λ l, take 100 (n :: l)) s).
Proof.
  intros [Hn He]. split; [|done]. simpl. rewrite length_take. lia.
Qed.

Lemma logs_bounded_mail m s :
  logs_bounded s →
  logs_bounded
    (set_emailLogs
       (λ l, let l' := l ++ [m] in
             if (100 <? length l')%nat then drop (length l' - 100) l'
             else l') s).
Proof.
  intros [Hn He]. split; [done|]. simpl.
  destruct (100 <? _)%nat eqn:Hlt.
  - rewrite length_drop. lia.
  - by apply Nat.ltb_ge in Hlt.
Qed.

Lemma logs_bounded_written u h s :
  logs_bounded s → logs_bounded (withTransferPinHash u h s).
Proof.
  intros [Hn He]. split.
  - by rewrite (withTransferPinHash_frame notifications).
  - by rewrite (withTransferPinHash_frame emailLogs).
Qed.

(** X20: The notification list and the mail log never outgrow their cap: when
    both hold at most 100 entries, so they do after any operation of the
    ledger, after [signup] and after each of the PIN calls, whether the call
    returns or throws. *)
Theorem logs_stay_bounded (s : State) :
  logs_bounded s →
  (∀ op, logs_bounded (step op s)) ∧
  (∀ email password username,
     logs_bounded (signup email password username s).1) ∧
  (∀ userId pin, logs_bounded (setTransferPin userId pin s).1) ∧
  (∀ userId pin, logs_bounded (verifyTransferPin userId pin s).1) ∧
  (∀ userId adminId, logs_bounded (resetTransferPin userId adminId s).1).
Proof.
  intros Hs.
  split_and!; intros;
    [ apply (keeps_exec logs_bounded)
    | apply (keeps_signup logs_bounded)
    | apply (keeps_setTransferPin logs_bounded)
    | apply (keeps_verifyTransferPin logs_bounded)
    | apply (keeps_resetTransferPin logs_bounded) ];
    first [ exact Hs | apply logs_bounded_note | apply logs_bounded_mail
          | apply logs_bounded_written | by intros ? [] ].
Qed.

Lemma logs_stay_bounded_witness :
  logs_bounded (step (OpAddMoney (Num.of_Z 5)) Demo.start).
Proof.
  assert (logs_bounded Demo.start) as H by (split; simpl; lia).
  destruct (logs_stay_bounded Demo.start H) as (Hop & _). apply Hop.
Defined.

(** ** The session *)

Lemma checkSession_run session s :
  checkSession session s =
    match session with
    | None => (s, Ok false)
    | Some data =>
        match find_user_by_id (session_userId data) (users s) with
        | None => (s, Ok false)
        | Some user =>
            if (Z.of_N (clock s) - Z.of_N (session_timestamp data)
                <? 86400000)%Z
            then (set_currentUser (λ _, Some user) s, Ok true)
            else (s, Ok false)
        end
    end.
Proof.
  unfold checkSession. destruct session as [data|]; [|done].
  rewrite bind_gets. destruct (find_user_by_id _ _); [|done].
  unfold now. rewrite bind_gets. by destruct (_ <? _)%Z.
Qed.

(** X24: [checkSession] never throws and logs a user in only from a session that
    is less than 24 hours old and names a registered user: it answers [true]
    exactly in that case, the user found becoming the current user and
    nothing else being written; when it answers [false] the state is the one
    of the call. *)
Theorem checkSession_outcome (session : option Session) (s : State) :
  let r := checkSession session s in
  ∃ b, r.2 = Ok b ∧
    (b = true ↔
     ∃ data user, session = Some data ∧
       find_user_by_id (session_userId data) (users s) = Some user ∧
       (Z.of_N (clock s) - Z.of_N (session_timestamp data) < 86400000)%Z) ∧
    (b = false → r.1 = s) ∧
    (b = true →
     ∃ user, (session ≫= λ data,
                find_user_by_id (session_userId data) (users s)) = Some user ∧
       r.1 = set_currentUser (λ _, Some user) s).
Proof.
  intros r. unfold r. rewrite checkSession_run.
  destruct session as [data|]; simpl.
  2: { exists false. split_and!; try done. split; [done|].
       by intros (? & ? & ? & _). }
  destruct (find_user_by_id _ _) as [user|] eqn:Hf; simpl.
  2: { exists false. split_and!; try done. split; [done|].
       intros (? & ? & [= <-] & ? & _). congruence. }
  destruct (_ <? _)%Z eqn:Hlt; simpl.
  - apply Z.ltb_lt in Hlt. exists true. split_and!; try done.
    + split; [|done]. intros _. by exists data, user.
    + intros _. by exists user.
  - apply Z.ltb_ge in Hlt. exists false. split_and!; try done.
    split; [done|]. intros (? & ? & [= <-] & ? & ?). lia.
Qed.



Lemma requirePin_logged_out s pin :
  currentUser s = None → requirePin pin s = (s, Throw TypeError).
Proof. intros H. unfold requirePin, bind, gets, deref. by rewrite H. Qed.

(** X26: [logout] closes the session and the ledger with it.  It clears the
    current user and the stored session, so that [checkSession] refuses, and
    writes nothing else; and when no wallet is stored under the key
    ['undefined'], every operation that acts for the current user then fails
    with a [TypeError] and leaves the state as [logout] left it. *)
Theorem logout_closes_ledger (s : State) (op : Op) :
  wallets s !! "undefined" = None →
  match op with
  | OpUpdateUserBalance userId _ _ => truthy_str userId = false
  | _ => True
  end →
  let s' := (logout s).1 in
  s' = set_currentUser (λ _, None) s ∧
  (∀ s'', checkSession (logout s).2 s'' = (s'', Ok false)) ∧
  exec op s' = (s', Throw TypeError).
Proof.
  intros Hw Hop s'. split_and!; [done|done|].
  assert (currentUser s' = None) as Hcu by done.
  assert (∀ userId, truthy_str userId = false → getWallet userId s' = None)
    as Hnone.
  { intros userId Ht. unfold getWallet, walletAt, targetUserId.
    rewrite Ht, Hcu.
    change (wallets s' !! "undefined") with (wallets s !! "undefined").
    by rewrite Hw. }
  destruct op as [a|a asset|r a asset pin|asset a p|asset a p|f t a pin
                 |u asset b]; unfold exec.
  - apply bind_fail. by rewrite addMoney_run, Hnone.
  - apply bind_fail. by rewrite receiveMoney_run, Hnone.
  - apply bind_fail. unfold sendMoney. apply bind_fail.
    by apply requirePin_logged_out.
  - apply bind_fail. by rewrite buyAsset_run, Hnone.
  - apply bind_fail. by rewrite sellAsset_run, Hnone.
  - apply bind_fail. unfold swapAssets. apply bind_fail.
    by apply requirePin_logged_out.
  - by rewrite updateUserBalance_run, Hnone.
Qed.

Lemma logout_closes_ledger_witness :
  exec (OpSendMoney "bob" (Num.of_Z 5) "USD" None) (logout Demo.start).1
  = ((logout Demo.start).1, Throw TypeError).
Proof.
  destruct (logout_closes_ledger Demo.start
              (OpSendMoney "bob" (Num.of_Z 5) "USD" None) eq_refl I)
    as (_ & _ & H).
  exact H.
Defined.

(** ** The security phrase *)

Lemma every_word_matches (phrase userSelections : list string) :
  forallb (λ entry : nat * string,
             bool_decide (userSelections !! entry.1 = Some entry.2))
    (imap pair phrase) = true
  ↔ ∀ i word, phrase !! i = Some word → userSelections !! i = Some word.
Proof.
  rewrite forallb_forall. split.
  - intros H i word Hi.
    assert (In (i, word) (imap pair phrase)) as Hin.
    { apply list_elem_of_In, elem_of_lookup_imap. by exists i, word. }
    apply H in Hin. by apply bool_decide_eq_true in Hin.
  - intros H [i word] Hin.
    apply list_elem_of_In, elem_of_lookup_imap in Hin
      as (j & y & [= -> ->] & Hj).
    apply bool_decide_eq_true. simpl. by apply H.
Qed.

(** X27: [confirmSecurityPhrase] accepts a selection exactly when it is the
    phrase, word for word and in order: a selection that is shorter, longer
    or differs in one word is refused. *)
Theorem confirmSecurityPhrase_exact (phrase userSelections : list string) :
  confirmSecurityPhrase phrase userSelections = true
  ↔ phrase = userSelections.
Proof.
  unfold confirmSecurityPhrase.
  destruct (length phrase =? length userSelections)%nat eqn:Hlen; simpl.
  - apply Nat.eqb_eq in Hlen. rewrite every_word_matches. split.
    + intros H. apply list_eq. intros i.
      destruct (phrase !! i) as [word|] eqn:Hi.
      * symmetry. by apply H.
      * symmetry. apply lookup_ge_None. rewrite <- Hlen.
        by apply lookup_ge_None.
    + by intros <-.
  - apply Nat.eqb_neq in Hlen. split; [done|]. intros <-. by destruct Hlen.
Qed.

(** ** The administrator's overwrite *)

(** X30: [updateUserBalance] stores any number it is given and leaves no trace:
    when the target has a wallet, and the asset is a position of it or an
    identifier of no built-in property, the call returns, what the wallet
    holds of the asset is exactly the new balance (a missing position being
    created with average cost [0], an existing one keeping its average cost),
    the other holdings of the wallet are as before, and nothing but that
    wallet is written: no transaction, no notification, no audit entry. *)
Theorem updateUserBalance_overwrites (s : State) (userId : option string)
    (assetId : string) (newBalance : num) (w : Wallet) :
  getWallet userId s = Some w →
  is_Some (assets w !! assetId) ∨ inherited_key assetId = false →
  let r := updateUserBalance userId assetId newBalance s in
  r.2 = Ok tt ∧
  r.1 = set_wallets (λ _, wallets r.1) s ∧
  ∃ w', wallets r.1 = <[targetUserId userId s := w']> (wallets s) ∧
    holding assetId w' = newBalance ∧
    (∀ other, other ≠ assetId → holding other w' = holding other w) ∧
    (assetId ≠ "USD" →
     averageCost <$> assets w' !! assetId
     = Some (default 0%num (averageCost <$> assets w !! assetId))).
Proof.
  intros Hw Hkey r. unfold r. rewrite updateUserBalance_run, Hw.
  assert (builtInPosition assetId w = false) as Hb.
  { destruct Hkey as [[p Hp]|Hkey].
    - by eapply builtInPosition_own.
    - by apply builtInPosition_ordinary. }
  rewrite Hb, andb_false_r. cbn [fst snd].
  split; [done|]. split; [done|]. eexists. split; [reflexivity|].
  unfold holding. destruct (String.eqb_spec assetId "USD") as [->|Ha].
  - split_and!; [done| |done].
    intros other Hne. by destruct (String.eqb_spec other "USD").
  - split_and!.
    + rewrite updPosition_lookup, ensurePosition_lookup; done.
    + intros other Hne. destruct (String.eqb_spec other "USD").
      * simpl. by rewrite ensurePosition_dollar.
      * by rewrite updPosition_lookup_ne, ensurePosition_lookup_ne.
    + intros _. rewrite updPosition_lookup, ensurePosition_lookup by done.
      by destruct (assets w !! assetId).
Qed.

Lemma updateUserBalance_overwrites_witness :
  let r := updateUserBalance (Some "u2") "ETH" (Num.of_Z (-7)) Demo.start in
  r.2 = Ok tt ∧ holdingOf r.1 "u2" "ETH" = Num.of_Z (-7) ∧
  transactions r.1 = [] ∧ adminLog r.1 = [].
Proof.
  intros r.
  destruct (updateUserBalance_overwrites Demo.start (Some "u2") "ETH"
              (Num.of_Z (-7)) (mkWallet "u2" Num.zero ∅ Num.zero) eq_refl
              (or_intror eq_refl))
    as (Hok & _ & w' & Hws & Hh & _).
  split; [exact Hok|]. split_and!.
  - unfold holdingOf. fold r in Hws. rewrite Hws.
    change (targetUserId (Some "u2") Demo.start) with "u2".
    rewrite lookup_insert_eq. exact Hh.
  - reflexivity.
  - reflexivity.
Defined.

(** ** Buying and selling back *)

(** A position opened with [0 + a] covers [a], and nothing is left of it
    once [a] is taken back. *)
Lemma zero_add_position a :
  Num.amount_ok a →
  ((0 + a) <? a)%float = false ∧ ((0 + a) - a =? 0)%float = true.
Proof.
  rewrite amount_ok_class, FloatAxioms.ltb_spec, eqb_zero_class, sub_spec,
    add_spec, Prim2SF_zero.
  destruct (Prim2SF a) as [[]|[]| |[] m e] eqn:Ha; try done. intros _.
  change (SF64add (S754_zero false) (S754_finite false m e))
    with (S754_finite false m e).
  split.
  - unfold SFltb. rewrite SFcompare_finite, Z.compare_refl.
    by rewrite Pos.compare_cont_refl.
  - change (SFsub prec emax) with SF64sub.
    by rewrite (SFsub_self (S754_finite false m e)).
Qed.

(** The wallet after a purchase that opens the position. *)
Lemma bought_fresh assetId amount cost w :
  assets w !! assetId = None → inherited_key assetId = false →
  bought assetId amount cost w =
    mkWallet (userId w) (dollarBalance w - cost)%num
      (<[assetId := mkAsset (0 + amount)%num
                      ((0 * 0 + cost) / (0 + amount))%num]> (assets w))
      (totalValue w).
Proof.
  intros Ha Hk. unfold bought, ensurePosition, positionAt, updPosition.
  simpl. rewrite Ha, Hk. unfold set_assets. simpl. f_equal.
  apply map_eq. intros a. destruct (decide (a = assetId)) as [->|Hne].
  - by rewrite lookup_alter_eq, !lookup_insert_eq.
  - by rewrite lookup_alter_ne, !lookup_insert_ne.
Qed.

(** The same wallet after the whole amount is sold back. *)
Lemma sold_fresh assetId amount cost proceeds w :
  assets w !! assetId = None → inherited_key assetId = false →
  Num.amount_ok amount →
  sold assetId amount proceeds (bought assetId amount cost w) =
    set_dollarBalance (λ b, b - cost + proceeds)%num w.
Proof.
  intros Ha Hk Hamt. rewrite (bought_fresh _ _ _ _ Ha Hk).
  destruct (zero_add_position amount Hamt) as [_ Hz].
  unfold sold, dropIfEmpty, updPosition, set_dollarBalance, set_assets.
  simpl. rewrite lookup_alter_eq, lookup_insert_eq. simpl.
  unfold Num.strict_eq, Num.sub, Num.add, Num.zero. rewrite Hz.
  destruct w as [i d m t]. simpl in *. f_equal.
  apply map_eq. intros a. destruct (decide (a = assetId)) as [->|Hne].
  - by rewrite lookup_delete_eq.
  - by rewrite lookup_delete_ne, lookup_alter_ne, lookup_insert_ne.
Qed.

(** X13: Buying an amount of an asset the wallet does not hold and selling it
    back at the same price closes the position again.  When the purchase is
    affordable and the amount is finite and not negative, both calls return,
    the positions of the wallet are those it had before the purchase, the
    fiat balance is [(balance - cost) + cost] as doubles compute it, no other
    wallet is written, and the history has two more entries. *)
Theorem buy_then_sell_round_trip (s : State) (assetId : string) (amount : num)
    (price : option num) (u : User) (w : Wallet) :
  currentUser s = Some u →
  wallets s !! user_id u = Some w →
  assets w !! assetId = None → inherited_key assetId = false →
  Num.amount_ok amount →
  (dollarBalance w <? unitPrice price assetId s * amount)%num = false →
  let cost := (unitPrice price assetId s * amount)%num in
  let r1 := buyAsset assetId amount price s in
  let r2 := sellAsset assetId amount price r1.1 in
  succeeded r1.2 = true ∧ succeeded r2.2 = true ∧
  length (transactions r2.1) = S (S (length (transactions s))) ∧
  wallets r2.1 =
    <[user_id u := set_dollarBalance (λ b, b - cost + cost)%num w]>
      (wallets s).
Proof.
  intros Hu Hw Ha Hk Hamt Hlt cost r1 r2.
  set (w1 := bought assetId amount cost w).
  set (tx1 := newTx s (user_id u) buy assetId amount None
                (MetaBuy cost (cost / amount)%num)).
  set (s1 := logged tx1 (set_wallets (insert (user_id u) w1) s)).
  assert (builtInPosition assetId w = false) as Hb.
  { unfold builtInPosition, positionAt. by rewrite Ha, Hk. }
  assert (r1 = (s1, Ok tx1)) as Hr1.
  { unfold r1. rewrite buyAsset_run.
    rewrite (proj2 (getWallet_own s None w)) by
      (unfold targetUserId; simpl; by rewrite Hu).
    cbn zeta. rewrite Hlt, Hb. fold cost.
    unfold targetUserId. simpl truthy_str. cbv iota. rewrite Hu.
    rewrite (createTransaction_ok _ _ _ _ _ _ _ (user_id u))
      by (unfold txOwner; simpl; by rewrite Hu).
    done. }
  assert (wallets s1 !! user_id u = Some w1) as Hw1
    by (simpl; by rewrite lookup_insert_eq).
  assert (currentUser s1 = Some u) as Hu1 by done.
  destruct (zero_add_position amount Hamt) as [Hge _].
  set (w2 := sold assetId amount cost w1).
  set (tx2 := newTx s1 (user_id u) sell assetId amount None
                (MetaSell cost (unitPrice price assetId s))).
  assert (r2 = (logged tx2 (set_wallets (insert (user_id u) w2) s1), Ok tx2))
    as Hr2.
  { unfold r2. rewrite Hr1. cbn [fst]. rewrite sellAsset_run.
    rewrite (proj2 (getWallet_own s1 None w1)) by
      (unfold targetUserId; simpl truthy_str; cbv iota; by rewrite Hu1).
    unfold w1 at 1. rewrite (bought_fresh _ _ _ _ Ha Hk).
    unfold positionAt. cbn [assets]. rewrite lookup_insert_eq.
    cbn [balance]. unfold Num.lt, Num.add, Num.zero. rewrite Hge.
    cbn zeta.
    replace (unitPrice price assetId s1) with (unitPrice price assetId s)
      by done.
    fold cost. unfold targetUserId. simpl truthy_str. cbv iota.
    change (currentUser s1) with (currentUser s). rewrite Hu.
    fold w1. fold w2.
    rewrite (createTransaction_ok _ _ _ _ _ _ _ (user_id u))
      by (unfold txOwner; simpl; by rewrite Hu).
    done. }
  split; [by rewrite Hr1|]. split; [by rewrite Hr2|].
  rewrite Hr2. cbn [fst]. split.
  { simpl. rewrite !length_app. simpl. lia. }
  unfold w2, w1. rewrite (sold_fresh _ _ _ _ _ Ha Hk Hamt).
  simpl. apply insert_insert_eq.
Qed.

Lemma buy_then_sell_round_trip_witness :
  let r2 := sellAsset "ETH" (Num.of_Z 2) (Some (Num.of_Z 100))
              (buyAsset "ETH" (Num.of_Z 2) (Some (Num.of_Z 100))
                 Demo.start).1 in
  succeeded r2.2 = true ∧
  wallets r2.1 !! "u1" = wallets Demo.start !! "u1".
Proof.
  intros r2.
  destruct (buy_then_sell_round_trip Demo.start "ETH" (Num.of_Z 2)
              (Some (Num.of_Z 100)) Demo.alice
              (mkWallet "u1" (Num.of_Z 1000) (<["BTC" := Demo.btc10]> ∅)
                 Num.zero) eq_refl eq_refl eq_refl eq_refl)
    as (_ & Hok & _); [by vm_compute|by vm_compute|].
  split; [exact Hok|]. vm_compute. reflexivity.
Defined.

(** ** The value of a wallet *)

Lemma amount_ok_zero : Num.amount_ok Num.zero.
Proof. by split. Qed.

Lemma amount_ok_quote s a :
  (∀ m, marketData s !! a = Some m → Num.amount_ok (price m)) →
  Num.amount_ok (num_or0 (marketPrice a s)).
Proof.
  intros H. unfold marketPrice.
  destruct (marketData s !! a) as [m|]; simpl; [|apply amount_ok_zero].
  destruct (Num.truthy (price m)); [by apply H|apply amount_ok_zero].
Qed.

Lemma totalOver_ge0 s entries : ∀ total,
  Num.ge0 total →
  Forall (λ e : string * AssetPosition, Num.amount_ok (balance e.2)) entries →
  (∀ a m, marketData s !! a = Some m → Num.amount_ok (price m)) →
  Num.ge0 (totalOver s total entries).
Proof.
  induction entries as [|e entries IH]; intros total Ht Hall Hq; [done|].
  inversion Hall as [|? ? He Hrest]; subst. simpl. apply IH; [|done..].
  apply ge0_add; [done|].
  apply ge0_mul; [done|]. apply amount_ok_quote. intros m. apply Hq.
Qed.

(** X29: What [getTotalBalance] answers, whatever the order in which the
    positions are listed: it writes nothing; it is [0] without a wallet, the
    fiat balance for a wallet without positions, and the fiat balance plus
    the balance at the quote for a wallet with one position; and it is
    [>= 0] when the fiat balance is, the balances of the positions and the
    quotes being finite and not negative. *)
Theorem getTotalBalance_values
    (entries : Wallet → list (string * AssetPosition)) (s : State)
    (userId : option string) :
  enumerates entries →
  let r := getTotalBalance entries userId s in
  r.1 = s ∧
  (getWallet userId s = None → r.2 = Ok Num.zero) ∧
  (∀ w : Wallet, getWallet userId s = Some w → assets w = ∅ →
     r.2 = Ok (dollarBalance w)) ∧
  (∀ (w : Wallet) a p, getWallet userId s = Some w → assets w = {[a := p]} →
     r.2 = Ok (dollarBalance w + balance p * num_or0 (marketPrice a s))%num) ∧
  (∀ w : Wallet, getWallet userId s = Some w →
     Num.ge0 (dollarBalance w) →
     (∀ a p, assets w !! a = Some p → Num.amount_ok (balance p)) →
     (∀ a m, marketData s !! a = Some m → Num.amount_ok (price m)) →
     ∃ total, r.2 = Ok total ∧ Num.ge0 total).
Proof.
  intros Hen r. unfold r, getTotalBalance. split_and!.
  - by destruct (getWallet userId s) as [[]|].
  - by intros ->.
  - intros w -> He. pose proof (Hen w) as Hp.
    rewrite He, map_to_list_empty in Hp.
    apply Permutation_nil_r in Hp. by rewrite Hp.
  - intros w a p -> He. pose proof (Hen w) as Hp.
    rewrite He, map_to_list_singleton in Hp.
    apply Permutation_singleton_r in Hp. by rewrite Hp.
  - intros w -> Hd Hb Hq. eexists. split; [done|].
    apply totalOver_ge0; [done| |done].
    apply Forall_forall. intros [a p] Hin. simpl.
    rewrite (Hen w) in Hin. apply elem_of_map_to_list in Hin. by eapply Hb.
Qed.

Lemma getTotalBalance_values_witness :
  (getTotalBalance (λ w, map_to_list (assets w)) None Demo.start).2
  = Ok (Num.of_Z 451000).
Proof.
  destruct (getTotalBalance_values (λ w, map_to_list (assets w)) Demo.start
              None (λ w, reflexivity _))
    as (_ & _ & _ & H & _).
  rewrite (H (mkWallet "u1" (Num.of_Z 1000) (<["BTC" := Demo.btc10]> ∅)
                Num.zero) "BTC" Demo.btc10 eq_refl eq_refl).
  vm_compute. reflexivity.
Defined.

(** X28: The total depends on the order in which the positions are visited,
    for the additions of doubles are not associative.  With 45000 dollars,
    2^53 BTC quoted 45000 and 15 ETH quoted 3000, visiting BTC then ETH and
    visiting ETH then BTC give two different totals. *)
Lemma getTotalBalance_order_matters :
  let btc := ("BTC", mkAsset (Num.of_Z (2 ^ 53)) Num.zero) in
  let eth := ("ETH", mkAsset (Num.of_Z 15) Num.zero) in
  let s := (updateUserBalance (Some "u1") "ETH" (Num.of_Z 15)
            (updateUserBalance (Some "u1") "BTC" (Num.of_Z (2 ^ 53))
             (updateUserBalance (Some "u1") "USD" (Num.of_Z 45000)
                Demo.start).1).1).1 in
  (getTotalBalance (λ _, [btc; eth]) None s).2
    = Ok (Num.of_Z (45000 * 2 ^ 53 + 131072)) ∧
  (getTotalBalance (λ _, [eth; btc]) None s).2
    = Ok (Num.of_Z (45000 * 2 ^ 53 + 65536)) ∧
  (Num.of_Z (45000 * 2 ^ 53 + 131072) === Num.of_Z (45000 * 2 ^ 53 + 65536))%num
    = false.
Proof. vm_compute. done. Qed.
